(** * Gift-bot: the change detector and the notification engine

    A shallow embedding of [gift_monitor.py] and [notification_engine.py]
    (with the part of [telegram_gift_bot.py] and [main.py] they call), and
    the properties of the change-detection-and-delivery pipeline.

    Conventions of the embedding.
    - A [datetime] is an integer count of microseconds (the resolution of
      Python's [datetime]); a [timedelta] is a difference of such counts.
    - Every [datetime.now()] is an argument of the function that reads it.
      A synchronous function reads one instant [now]; the dispatcher step,
      which awaits the send primitive, reads [now] before the send and
      [done] after it.
    - A gift dictionary is the record [Gift]: [_parse_gift] and
      [_read_file_feed] build it with every key present.
    - The answer of the transport ([send_message]) is an argument of the
      dispatcher step: [SendOutcome] says that the call returned or which
      of the exceptions [_send_notification] tells apart it raised.
    - A [NotificationJob] is a Python object that the queue holds by
      reference and that [requeue_job] mutates in place: jobs live in a
      store indexed by reference and the queue is a list of references.
    - The monitor and the dispatcher are tasks of one event loop. A
      dispatcher step is taken as a whole: what the other task does while
      [send_message] is awaited is placed before or after the step.
    - The jobs one call of [create_notification] creates carry the one
      instant the call reads; the examples create one job per call.
    - The tables [users] and [gifts] are finite maps on their primary
      key; the statements that read and write them are taken to succeed.
    - The feed file is the list of its lines, each written whole, and
      the offset the monitor keeps is the number of lines consumed. *)

From Stdlib Require Import QArith Sorted.
From stdpp Require Import gmap strings list fin_maps.

Local Open Scope Z_scope.

(** ** Python prelude *)

Module Py.

(** [timedelta(seconds=n)], [timedelta(minutes=n)], [timedelta(hours=n)]
    in microseconds. *)
Definition seconds (n : Z) : Z := n * 1000000.
Definition minutes (n : Z) : Z := seconds (60 * n).
Definition hours (n : Z) : Z := minutes (60 * n).

(** [datetime.hour] of a naive local datetime. *)
Definition hour (t : Z) : Z := (t `div` hours 1) `mod` 24.

(** Truth value of an [Optional[int]]: [None] and [0] are false. *)
Definition truthy (o : option Z) : bool :=
  match o with
  | Some z => negb (z =? 0)
  | None => false
  end.

(** [a != b] on [Optional[int]] values. *)
Definition opt_ne (a b : option Z) : bool :=
  match a, b with
  | Some x, Some y => negb (x =? y)
  | None, None => false
  | _, _ => true
  end.

End Py.

(** ** The gift dictionary *)

Record Gift := mkGift {
  gift_id : Z;
  title : string;
  stars : Z;
  limited : bool;
  sold_out : bool;
  require_premium : bool;
  can_upgrade : bool;
  first_sale_date : option Z;
  last_sale_date : option Z;
  availability_remains : option Z;
  availability_total : option Z;
  discovered_at : Z
}.

(** The second argument of the monitor's callback: ['new'], ['updated']. *)
Inductive EventType := new | updated.

#[export] Instance EventType_eq_dec : EqDecision EventType.
Proof. solve_decision. Defined.

(** ** gift_monitor.py: TelegramGiftMonitor *)

Module GiftMonitor.

(** The value of [get_star_gifts]: [{'hash': ..., 'gifts': [...]}]. *)
Record GiftsData := mkGiftsData {
  hash : Z;
  gifts : list Gift
}.

Record Monitor := mkMonitor {
  last_hash : Z;
  known_gifts : gmap Z Gift
}.

(** [__init__]: [last_hash = 0], [known_gifts = {}]. *)
Definition init : Monitor := mkMonitor 0 ∅.

(** [_gift_changed]: any of [sold_out], [availability_remains], [stars]
    differs. *)
Definition _gift_changed (old_gift new_gift : Gift) : bool :=
  negb (eqb (sold_out old_gift) (sold_out new_gift))
  || Py.opt_ne (availability_remains old_gift) (availability_remains new_gift)
  || negb (stars old_gift =? stars new_gift).

(** [_should_notify]: limited, not sold out, and a positive price. *)
Definition _should_notify (gift : Gift) : bool :=
  limited gift && negb (sold_out gift) && (0 <? stars gift).

(** The [for gift in gifts_data['gifts']] loop of [_check_for_new_gifts]:
    the known-gift table after the loop, [new_gifts], [updated_gifts]. *)
Fixpoint diff_loop (known : gmap Z Gift) (snapshot : list Gift)
  : gmap Z Gift * list Gift * list Gift :=
  match snapshot with
  | [] => (known, [], [])
  | gift :: rest =>
      match known !! gift_id gift with
      | None =>
          let '(k, new_gifts, updated_gifts) :=
            diff_loop (<[gift_id gift := gift]> known) rest in
          (k, gift :: new_gifts, updated_gifts)
      | Some old_gift =>
          if _gift_changed old_gift gift then
            let '(k, new_gifts, updated_gifts) :=
              diff_loop (<[gift_id gift := gift]> known) rest in
            (k, new_gifts, gift :: updated_gifts)
          else diff_loop known rest
      end
  end.

(** The calls [callback_func(gift, 'new')] and
    [callback_func(gift, 'updated')], in the order they are made. *)
Definition callbacks (new_gifts updated_gifts : list Gift)
  : list (Gift * EventType) :=
  map (λ g, (g, new)) (List.filter _should_notify new_gifts)
  ++ map (λ g, (g, updated)) (List.filter _should_notify updated_gifts).

(** [_check_for_new_gifts], given the value [get_star_gifts] returned
    ([None] on any failure) and whether a callback was passed. The
    result is the monitor afterwards and the events handed to the
    callback. *)
Definition _check_for_new_gifts (m : Monitor) (gifts_data : option GiftsData)
    (callback_func : bool) : Monitor * list (Gift * EventType) :=
  match gifts_data with
  | None => (m, [])
  | Some d =>
      if negb (hash d =? last_hash m) then
        let '(k, new_gifts, updated_gifts) :=
          diff_loop (known_gifts m) (gifts d) in
        (mkMonitor (hash d) k,
         if callback_func then callbacks new_gifts updated_gifts else [])
      else (m, [])
  end.

(** The events of one poll that concern the gift [i]. *)
Definition events_for (i : Z) (evs : list (Gift * EventType))
  : list (Gift * EventType) :=
  List.filter (λ e, gift_id e.1 =? i) evs.

(** Classification of a snapshot item against a known-gift table. *)
Definition is_new (known : gmap Z Gift) (g : Gift) : bool :=
  match known !! gift_id g with None => true | Some _ => false end.

Definition is_updated (known : gmap Z Gift) (g : Gift) : bool :=
  match known !! gift_id g with
  | None => false
  | Some old_gift => _gift_changed old_gift g
  end.

End GiftMonitor.

(** ** gift_monitor.py: GiftNotificationFormatter, and the exceptions of
    message rendering *)

Inductive Exn :=
  | KeyError (key : string)
  | ZeroDivisionError
  | OverflowError
  | TimestampError.   (* what [datetime.fromtimestamp] raises out of range *)

(** The least magnitude that rounds beyond the floats: half-way between
    the largest float, [2^1024 - 2^971], and [2^1024]; rounding to even
    sends it up. *)
Definition float_overflow_bound : Z := 2 ^ 1024 - 2 ^ 970.

(** The quotient of [a] by [b], [b] not [0], rounds beyond the floats. *)
Definition overflows (a b : Z) : bool :=
  float_overflow_bound * Z.abs b <=? Z.abs a.

(** [a / b] on integers, which Python rounds correctly to a float:
    raises [ZeroDivisionError] when [b] is [0] and [OverflowError]
    ("integer division result too large for a float") when the quotient
    rounds beyond the largest float. The value kept is the exact
    rational; its rounding to a float is not modelled. *)
Definition truediv (a b : Z) : Exn + Q :=
  if b =? 0 then inl ZeroDivisionError
  else if overflows a b then inl OverflowError
  else inr (inject_Z a / inject_Z b)%Q.

(** The availability line of a message: absent (the empty string) or
    [remaining/total (percentage%)]. *)
Inductive AvailabilityInfo :=
  | NoLine
  | Line (remaining total : Z) (percentage : Q).

(** The computation both renderers share:
    [if gift.get('availability_remains') and gift.get('availability_total'):
       percent = (remains / total) * 100; ...]. The product is one of
    floats, which raises nothing. *)
Definition availability (gift : Gift) : Exn + AvailabilityInfo :=
  if Py.truthy (availability_remains gift) && Py.truthy (availability_total gift)
  then
    let remaining := default 0 (availability_remains gift) in
    let total := default 0 (availability_total gift) in
    match truediv remaining total with
    | inl e => inl e
    | inr q => inr (Line remaining total (q * 100)%Q)
    end
  else inr NoLine.

(** The availability line the guard lets through: a line when both
    counts are present and not zero, none otherwise. *)
Definition guarded_line (gift : Gift) : AvailabilityInfo :=
  match availability_remains gift, availability_total gift with
  | Some remaining, Some total =>
      if (remaining =? 0) || (total =? 0) then NoLine
      else Line remaining total (inject_Z remaining / inject_Z total * 100)%Q
  | _, _ => NoLine
  end.

(** The gifts whose percentage cannot be computed: both counts are
    present and not zero, and their quotient rounds beyond the floats. *)
Definition availability_overflows (gift : Gift) : bool :=
  match availability_remains gift, availability_total gift with
  | Some remaining, Some total =>
      negb (remaining =? 0) && negb (total =? 0) && overflows remaining total
  | _, _ => false
  end.

Module Formatter.

(** The fields [format_new_gift] interpolates into its f-string. *)
Record NewGiftMessage := mkNewGiftMessage {
  m_title : string;
  m_id : Z;
  m_stars : Z;
  m_limited : bool;
  m_sold_out : bool;
  m_require_premium : bool;
  m_can_upgrade : bool;
  m_availability_percent : AvailabilityInfo;
  m_sale_info : option Z;
  m_discovered_at : Z
}.

Section platform.

(** The timestamps [datetime.fromtimestamp] accepts; the range depends on
    the platform. *)
Variable valid_timestamp : Z → bool.

Definition fromtimestamp (t : Z) : Exn + Z :=
  if valid_timestamp t then inr t else inl TimestampError.

(** [sale_info]: present when [first_sale_date] is truthy. *)
Definition sale_info (gift : Gift) : Exn + option Z :=
  if Py.truthy (first_sale_date gift) then
    match fromtimestamp (default 0 (first_sale_date gift)) with
    | inl e => inl e
    | inr t => inr (Some t)
    end
  else inr None.

(** [format_new_gift]: no [try]; an exception of the body reaches the
    caller. *)
Definition format_new_gift (gift : Gift) : Exn + NewGiftMessage :=
  match availability gift with
  | inl e => inl e
  | inr availability_percent =>
      match sale_info gift with
      | inl e => inl e
      | inr sale =>
          inr (mkNewGiftMessage (title gift) (gift_id gift) (stars gift)
                 (limited gift) (sold_out gift) (require_premium gift)
                 (can_upgrade gift) availability_percent sale
                 (discovered_at gift))
      end
  end.

End platform.

End Formatter.

(** ** telegram_gift_bot.py: the users table of DatabaseManager *)

Module Db.

(** A row of [users], without its primary key [user_id]. *)
Record User := mkUser {
  username : option string;
  first_name : string;
  is_premium : bool;
  subscription_date : Z;
  notifications_enabled : bool;
  min_stars : Z;
  max_stars : Z;
  only_limited : bool;
  language : string
}.

(** The table, keyed by [user_id INTEGER PRIMARY KEY]. *)
Abbreviation Users := (gmap Z User).

(** [get_all_users]:
    [SELECT * FROM users WHERE notifications_enabled = 1]. *)
Definition get_all_users (users : Users) : list (Z * User) :=
  List.filter (λ r, notifications_enabled r.2) (map_to_list users).

Definition disable (u : User) : User :=
  mkUser (username u) (first_name u) (is_premium u) (subscription_date u)
    false (min_stars u) (max_stars u) (only_limited u) (language u).

(** [UPDATE users SET notifications_enabled = 0 WHERE user_id = ?]. The
    statement is taken to succeed; on a database error the caller logs
    the error and the table stays as it is. *)
Definition disable_notifications (user_id : Z) (users : Users) : Users :=
  alter disable user_id users.

End Db.

(** ** notification_engine.py *)

Module NotificationEngine.

Inductive NotificationPriority := LOW | NORMAL | HIGH | URGENT.

(** [priority.value]. *)
Definition priority_value (p : NotificationPriority) : Z :=
  match p with LOW => 1 | NORMAL => 2 | HIGH => 3 | URGENT => 4 end.

Inductive NotificationType :=
  | NEW_GIFT | GIFT_UPDATE | PRICE_DROP | LIMITED_AVAILABLE
  | SYSTEM_ALERT | PROMOTION.

#[export] Instance NotificationType_eq_dec : EqDecision NotificationType.
Proof. solve_decision. Defined.

#[export] Instance NotificationPriority_eq_dec :
  EqDecision NotificationPriority.
Proof. solve_decision. Defined.

(** *** Templates and rendering *)

(** A button of [custom_buttons]: a static [url], or a [callback_data]
    made of a prefix followed by the replacement field [{id}]. *)
Inductive ButtonSpec :=
  | UrlButton (url : string)
  | CallbackButton (prefix : string).

Inductive Button :=
  | InlineUrl (url : string)
  | InlineCallback (prefix : string) (id : Z).

(** A template: the replacement fields of its [message], in the order
    [str.format] meets them, its priority and its buttons. The literal
    text ([name], [title], [emoji], the text between the fields, the
    button labels) takes part in no decision and is left out. *)
Record NotificationTemplate := mkTemplate {
  message_fields : list string;
  template_priority : NotificationPriority;
  has_buttons : bool;
  custom_buttons : list ButtonSpec
}.

(** [load_notification_templates]: three kinds have a template. *)
Definition templates (t : NotificationType) : option NotificationTemplate :=
  match t with
  | NEW_GIFT =>
      Some (mkTemplate
              ["title"; "id"; "stars"; "limited"; "premium_required";
               "upgradeable"; "availability_info"; "discovery_time"]
              HIGH true
              [UrlButton "https://t.me/giftbot";
               CallbackButton "gift_details_"])
  | PRICE_DROP =>
      Some (mkTemplate
              ["title"; "id"; "old_price"; "new_price"; "savings";
               "savings_percent"; "update_time"]
              URGENT true [])
  | LIMITED_AVAILABLE =>
      Some (mkTemplate
              ["title"; "remaining"; "total"; "percentage"; "stars";
               "remaining"]
              URGENT true [])
  | _ => None
  end.

(** A value of the dictionary given to [str.format]. *)
Inductive Value :=
  | VInt (z : Z)
  | VStr (s : string)
  | VBool (b : bool)
  | VOptInt (o : option Z)
  | VTime (t : Z)
  | VYesNo (b : bool)
  | VAvailability (a : AvailabilityInfo).

(** The gift dictionary as [_parse_gift] builds it. *)
Definition gift_dict (g : Gift) : gmap string Value :=
  list_to_map
    [("id", VInt (gift_id g)); ("title", VStr (title g));
     ("stars", VInt (stars g)); ("limited", VBool (limited g));
     ("sold_out", VBool (sold_out g));
     ("require_premium", VBool (require_premium g));
     ("can_upgrade", VBool (can_upgrade g));
     ("first_sale_date", VOptInt (first_sale_date g));
     ("last_sale_date", VOptInt (last_sale_date g));
     ("availability_remains", VOptInt (availability_remains g));
     ("availability_total", VOptInt (availability_total g));
     ("discovered_at", VTime (discovered_at g))].

(** [format_data = data.copy()], the helper fields of
    [format_data.update(...)], then [availability_info]. *)
Definition format_data (data : Gift) (info : AvailabilityInfo) (now : Z)
  : gmap string Value :=
  <["availability_info" := VAvailability info]>
    (<["update_time" := VTime now]>
       (<["discovery_time" := VTime now]>
          (<["upgradeable" := VYesNo (can_upgrade data)]>
             (<["premium_required" := VYesNo (require_premium data)]>
                (<["limited" := VYesNo (limited data)]> (gift_dict data)))))).

(** [template.message.format] on [format_data]: the value of every
    replacement field, or [KeyError] at the first missing one. *)
Fixpoint format (fields : list string) (d : gmap string Value)
  : Exn + list (string * Value) :=
  match fields with
  | [] => inr []
  | k :: rest =>
      match d !! k with
      | None => inl (KeyError k)
      | Some v =>
          match format rest d with
          | inl e => inl e
          | inr vs => inr ((k, v) :: vs)
          end
      end
  end.

(** What [_generate_message] returns: the formatted template, the text
    of the [except KeyError] clause, or that of [except Exception]. *)
Inductive Message :=
  | Formatted (values : list (string * Value))
  | MissingField (key : string)
  | Failed.

(** The [try] body of [_generate_message]. *)
Definition generate_message_body (template : NotificationTemplate)
    (data : Gift) (now : Z) : Exn + list (string * Value) :=
  match availability data with
  | inl e => inl e
  | inr info => format (message_fields template) (format_data data info now)
  end.

Definition _generate_message (template : NotificationTemplate)
    (data : Gift) (now : Z) : Message :=
  match generate_message_body template data now with
  | inr values => Formatted values
  | inl (KeyError k) => MissingField k
  | inl _ => Failed
  end.

(** [buttons[i:i+2] for i in range(0, len(buttons), 2)]. *)
Fixpoint rows_of_two (buttons : list Button) : list (list Button) :=
  match buttons with
  | a :: b :: rest => [a; b] :: rows_of_two rest
  | [a] => [[a]]
  | [] => []
  end.

(** [_generate_buttons]: [None] without [custom_buttons]; the gift
    dictionary has the key [id], so no [format] fails. *)
Definition _generate_buttons (template : NotificationTemplate) (data : Gift)
  : option (list (list Button)) :=
  match custom_buttons template with
  | [] => None
  | specs =>
      Some (rows_of_two
              (map (λ b, match b with
                         | UrlButton url => InlineUrl url
                         | CallbackButton prefix =>
                             InlineCallback prefix (gift_id data)
                         end) specs))
  end.

(** *** Filters, jobs and the engine state *)

Record NotificationFilter := mkFilter {
  min_stars : Z;
  max_stars : Z;
  only_limited : bool;
  only_premium : bool;
  exclude_premium_required : bool;
  keywords : list string;            (* [None] is the empty list *)
  excluded_keywords : list string;   (* [None] is the empty list *)
  time_restrictions : option (list Z)  (* the ['allowed_hours'] entry *)
}.

(** The text [create_notification] hashes into the job id; the md5
    digest itself is not modelled. *)
Record JobId := mkJobId {
  id_user : Z;
  id_type : NotificationType;
  id_time : Z
}.

Record NotificationJob := mkJob {
  job_id : JobId;
  user_id : Z;
  message : Message;
  notification_type : NotificationType;
  priority : NotificationPriority;
  created_at : Z;
  scheduled_at : Z;
  attempts : Z;
  max_attempts : Z;
  metadata : Gift;
  buttons : option (list (list Button))
}.

(** An entry of [notification_history[user_id]]. *)
Record HistoryEntry := mkEntry {
  entry_type : NotificationType;
  timestamp : Z;
  entry_job_id : JobId
}.

(** [NotificationQueue.stats]. *)
Record Stats := mkStats {
  total_queued : Z;
  total_sent : Z;
  total_failed : Z;
  last_reset : Z
}.

Record RateLimits := mkRateLimits {
  messages_per_minute : Z;
  messages_per_hour : Z
}.

(** The engine with its queue. [jobs] is the store of job objects;
    [queue] holds references into it, so one job object can sit in the
    queue at two positions, as in Python. [users] is the table of the
    external subscriber store the engine reads and writes. *)
Record Engine := mkEngine {
  jobs : gmap nat NotificationJob;
  next_ref : nat;
  queue : list nat;
  processing : bool;
  stats : Stats;
  filters : gmap Z NotificationFilter;
  rate_limits : RateLimits;
  sent_messages : list Z;
  notification_history : gmap Z (list HistoryEntry);
  users : Db.Users
}.

Definition with_jobs (v : gmap nat NotificationJob) (e : Engine) : Engine :=
  mkEngine v (next_ref e) (queue e) (processing e) (stats e) (filters e)
    (rate_limits e) (sent_messages e) (notification_history e) (users e).
Definition with_next_ref (v : nat) (e : Engine) : Engine :=
  mkEngine (jobs e) v (queue e) (processing e) (stats e) (filters e)
    (rate_limits e) (sent_messages e) (notification_history e) (users e).
Definition with_queue (v : list nat) (e : Engine) : Engine :=
  mkEngine (jobs e) (next_ref e) v (processing e) (stats e) (filters e)
    (rate_limits e) (sent_messages e) (notification_history e) (users e).
Definition with_processing (v : bool) (e : Engine) : Engine :=
  mkEngine (jobs e) (next_ref e) (queue e) v (stats e) (filters e)
    (rate_limits e) (sent_messages e) (notification_history e) (users e).
Definition with_stats (v : Stats) (e : Engine) : Engine :=
  mkEngine (jobs e) (next_ref e) (queue e) (processing e) v (filters e)
    (rate_limits e) (sent_messages e) (notification_history e) (users e).
Definition with_filters (v : gmap Z NotificationFilter) (e : Engine)
  : Engine :=
  mkEngine (jobs e) (next_ref e) (queue e) (processing e) (stats e) v
    (rate_limits e) (sent_messages e) (notification_history e) (users e).
Definition with_sent_messages (v : list Z) (e : Engine) : Engine :=
  mkEngine (jobs e) (next_ref e) (queue e) (processing e) (stats e)
    (filters e) (rate_limits e) v (notification_history e) (users e).
Definition with_notification_history (v : gmap Z (list HistoryEntry))
    (e : Engine) : Engine :=
  mkEngine (jobs e) (next_ref e) (queue e) (processing e) (stats e)
    (filters e) (rate_limits e) (sent_messages e) v (users e).
Definition with_users (v : Db.Users) (e : Engine) : Engine :=
  mkEngine (jobs e) (next_ref e) (queue e) (processing e) (stats e)
    (filters e) (rate_limits e) (sent_messages e) (notification_history e) v.

(** *** NotificationQueue *)

(** The sort key of [add_job]: [(x.priority.value, x.created_at)]. *)
Definition sort_key (js : gmap nat NotificationJob) (r : nat) : Z * Z :=
  match js !! r with
  | Some job => (priority_value (priority job), created_at job)
  | None => (0, 0)
  end.

(** [a < b] on the key tuples. *)
Definition key_lt (a b : Z * Z) : bool :=
  (a.1 <? b.1) || ((a.1 =? b.1) && (a.2 <? b.2)).

(** [list.sort(key=..., reverse=True)]: descending by key, and stable
    (elements with equal keys keep their order, also under [reverse]). *)
Fixpoint insert_sorted (key : nat → Z * Z) (x : nat) (l : list nat)
  : list nat :=
  match l with
  | [] => [x]
  | y :: l' =>
      if key_lt (key x) (key y) then y :: insert_sorted key x l'
      else x :: y :: l'
  end.

Fixpoint sort_reverse (key : nat → Z * Z) (l : list nat) : list nat :=
  match l with
  | [] => []
  | x :: l' => insert_sorted key x (sort_reverse key l')
  end.

Definition add_queued (s : Stats) : Stats :=
  mkStats (total_queued s + 1) (total_sent s) (total_failed s) (last_reset s).
Definition add_sent (s : Stats) : Stats :=
  mkStats (total_queued s) (total_sent s + 1) (total_failed s) (last_reset s).
Definition add_failed (s : Stats) : Stats :=
  mkStats (total_queued s) (total_sent s) (total_failed s + 1) (last_reset s).

(** [add_job]: append, sort, count. *)
Definition add_job (e : Engine) (job : nat) : Engine :=
  with_stats (add_queued (stats e))
    (with_queue (sort_reverse (sort_key (jobs e)) (queue e ++ [job])) e).

(** The test of [get_next_job]:
    [job.scheduled_at <= now and job.attempts < job.max_attempts]. *)
Definition eligible (js : gmap nat NotificationJob) (now : Z) (r : nat)
  : bool :=
  match js !! r with
  | Some job =>
      (scheduled_at job <=? now) && (attempts job <? max_attempts job)
  | None => false
  end.

(** The first element that passes the test, and the list without that
    position ([self.queue.pop(i)]). *)
Fixpoint pop_first (p : nat → bool) (l : list nat)
  : option (nat * list nat) :=
  match l with
  | [] => None
  | r :: l' =>
      if p r then Some (r, l')
      else match pop_first p l' with
           | Some (x, rest) => Some (x, r :: rest)
           | None => None
           end
  end.

Definition get_next_job (e : Engine) (now : Z) : option (nat * Engine) :=
  match pop_first (eligible (jobs e) now) (queue e) with
  | Some (r, rest) => Some (r, with_queue rest e)
  | None => None
  end.

Definition retried (job : NotificationJob) (at_time : Z) : NotificationJob :=
  mkJob (job_id job) (user_id job) (message job) (notification_type job)
    (priority job) (created_at job) at_time (attempts job + 1)
    (max_attempts job) (metadata job) (buttons job).

(** [requeue_job]: the job object is mutated in the store, then added
    again or counted as failed. *)
Definition requeue_job (e : Engine) (r : nat) (delay_seconds : Z) (now : Z)
  : Engine :=
  match jobs e !! r with
  | None => e
  | Some job =>
      let job' := retried job (now + Py.seconds delay_seconds) in
      let e' := with_jobs (<[r := job']> (jobs e)) e in
      if attempts job' <? max_attempts job' then add_job e' r
      else with_stats (add_failed (stats e')) e'
  end.

(** *** SmartNotificationEngine *)

(** [str.lower], on the ASCII letters only. *)
Definition lower_ascii (c : Ascii.ascii) : Ascii.ascii :=
  let n := Ascii.nat_of_ascii c in
  if (65 <=? n)%nat && (n <=? 90)%nat then Ascii.ascii_of_nat (n + 32)
  else c.

Fixpoint lower (s : string) : string :=
  match s with
  | EmptyString => EmptyString
  | String c s' => String (lower_ascii c) (lower s')
  end.

(** [sub in s]. *)
Fixpoint contains (sub s : string) : bool :=
  String.prefix sub s
  || match s with
     | EmptyString => false
     | String _ s' => contains sub s'
     end.

(** [any(keyword.lower() in title for keyword in kws)]. *)
Definition any_keyword (kws : list string) (title : string) : bool :=
  existsb (λ keyword, contains (lower keyword) title) kws.

(** [load_user_filters]: one filter per row of [get_all_users]. *)
Definition load_user_filters (e : Engine) : Engine :=
  with_filters
    (foldl (λ fs r,
              <[r.1 := mkFilter (Db.min_stars r.2) (Db.max_stars r.2)
                         (Db.only_limited r.2) false false [] [] None]> fs)
           (filters e) (Db.get_all_users (users e)))
    e.

(** [__init__], then [load_user_filters]. *)
Definition init (users : Db.Users) (now : Z) : Engine :=
  load_user_filters
    (mkEngine ∅ 0 [] false (mkStats 0 0 0 now) ∅ (mkRateLimits 20 1000)
       [] ∅ users).

(** The per-hour limit of a kind: [limits.get(notification_type, 5)]. *)
Definition limit (t : NotificationType) : Z :=
  match t with
  | NEW_GIFT => 10
  | PRICE_DROP => 5
  | LIMITED_AVAILABLE => 3
  | SYSTEM_ALERT => 2
  | _ => 5
  end.

(** [sum(1 for n in user_history if n['type'] == notification_type)]. *)
Definition same_type_count (t : NotificationType)
    (user_history : list HistoryEntry) : Z :=
  Z.of_nat (length (List.filter (λ n, bool_decide (entry_type n = t))
                      user_history)).

(** [_check_notification_frequency]: prunes the user's history, stores
    it back, and compares the count with the limit. *)
Definition _check_notification_frequency (e : Engine) (uid : Z)
    (t : NotificationType) (now : Z) : Engine * bool :=
  let user_history :=
    List.filter (λ n, now - timestamp n <? Py.hours 1)
      (default [] (notification_history e !! uid)) in
  (with_notification_history (<[uid := user_history]> (notification_history e)) e,
   same_type_count t user_history <? limit t).

(** [should_notify_user]. *)
Definition should_notify_user (e : Engine) (uid : Z) (gift_data : Gift)
    (t : NotificationType) (now : Z) : Engine * bool :=
  match filters e !! uid with
  | None => (e, false)
  | Some user_filter =>
      if (stars gift_data <? min_stars user_filter)
         || (max_stars user_filter <? stars gift_data) then (e, false)
      else if only_limited user_filter && negb (limited gift_data)
      then (e, false)
      else if exclude_premium_required user_filter
              && require_premium gift_data then (e, false)
      else if match keywords user_filter with
              | [] => false
              | kws => negb (any_keyword kws (lower (title gift_data)))
              end then (e, false)
      else if match excluded_keywords user_filter with
              | [] => false
              | kws => any_keyword kws (lower (title gift_data))
              end then (e, false)
      else if match time_restrictions user_filter with
              | Some (h :: hs) =>
                  negb (bool_decide (Py.hour now ∈ h :: hs))
              | _ => false
              end then (e, false)
      else _check_notification_frequency e uid t now
  end.

(** A new job object: it gets the next reference of the store. *)
Definition alloc (e : Engine) (job : NotificationJob) : Engine * nat :=
  let r := next_ref e in
  (with_next_ref (S r) (with_jobs (<[r := job]> (jobs e)) e), r).

(** The body of the [for user_id in user_ids] loop of
    [create_notification], for a user that passed the filter: render,
    build the job object, add it to the queue. *)
Definition create_job (e : Engine) (template : NotificationTemplate)
    (uid : Z) (gift_data : Gift) (t : NotificationType)
    (p : NotificationPriority) (now : Z) : Engine * JobId :=
  let msg := _generate_message template gift_data now in
  let btns := if has_buttons template
              then _generate_buttons template gift_data else None in
  let jid := mkJobId uid t now in
  let job := mkJob jid uid msg t p now now 0 3 gift_data btns in
  let '(e', r) := alloc e job in
  (add_job e' r, jid).

Fixpoint create_loop (e : Engine) (template : NotificationTemplate)
    (user_ids : list Z) (gift_data : Gift) (t : NotificationType)
    (p : NotificationPriority) (now : Z) : Engine * list JobId :=
  match user_ids with
  | [] => (e, [])
  | uid :: rest =>
      let '(e1, ok) := should_notify_user e uid gift_data t now in
      if ok then
        let '(e2, jid) := create_job e1 template uid gift_data t p now in
        let '(e3, job_ids) := create_loop e2 template rest gift_data t p now in
        (e3, jid :: job_ids)
      else create_loop e1 template rest gift_data t p now
  end.

(** [create_notification]: nothing without a template for the kind. *)
Definition create_notification (e : Engine) (user_ids : list Z)
    (gift_data : Gift) (t : NotificationType) (p : NotificationPriority)
    (now : Z) : Engine * list JobId :=
  match templates t with
  | None => (e, [])
  | Some template => create_loop e template user_ids gift_data t p now
  end.

(** [_check_rate_limits]: prunes [sent_messages] to the last minute. *)
Definition _check_rate_limits (e : Engine) (now : Z) : Engine * bool :=
  let recent := List.filter (λ msg, now - msg <? Py.minutes 1)
                  (sent_messages e) in
  (with_sent_messages recent e,
   negb (messages_per_minute (rate_limits e) <=? Z.of_nat (length recent))).

(** What [send_message] did: it returned, or raised one of the
    exceptions [_send_notification] tells apart. *)
Inductive SendOutcome :=
  | Delivered
  | FloodWait (wait : Z)
  | UserIsBlocked
  | ChatWriteForbidden
  | OtherError.

(** [_mark_user_inactive]. *)
Definition _mark_user_inactive (e : Engine) (uid : Z) : Engine :=
  with_users (Db.disable_notifications uid (users e)) e.

Definition set_scheduled_at (job : NotificationJob) (at_time : Z)
  : NotificationJob :=
  mkJob (job_id job) (user_id job) (message job) (notification_type job)
    (priority job) (created_at job) at_time (attempts job)
    (max_attempts job) (metadata job) (buttons job).

(** [_send_notification], for the job object [r] and the outcome of
    [send_message]; [done] is the clock once the send has returned. *)
Definition _send_notification (e : Engine) (r : nat) (outcome : SendOutcome)
    (done : Z) : Engine * bool :=
  match outcome with
  | Delivered => (with_sent_messages (sent_messages e ++ [done]) e, true)
  | FloodWait wait =>
      let e1 := with_jobs
                  (alter (λ job, set_scheduled_at job (done + Py.seconds wait))
                     r (jobs e)) e in
      (requeue_job e1 r wait done, false)
  | UserIsBlocked | ChatWriteForbidden =>
      match jobs e !! r with
      | Some job => (_mark_user_inactive e (user_id job), false)
      | None => (e, false)
      end
  | OtherError => (e, false)
  end.

(** [_record_notification]. *)
Definition _record_notification (e : Engine) (r : nat) (done : Z) : Engine :=
  match jobs e !! r with
  | None => e
  | Some job =>
      let uid := user_id job in
      with_notification_history
        (<[uid := default [] (notification_history e !! uid)
                  ++ [mkEntry (notification_type job) done (job_id job)]]>
           (notification_history e)) e
  end.

(** A call of [client.send_message] and what came of it. *)
Record SendCall := mkCall {
  call_ref : nat;
  call_user_id : Z;
  call_outcome : SendOutcome;
  call_done : Z
}.

Definition call_user (e : Engine) (r : nat) : Z :=
  match jobs e !! r with Some job => user_id job | None => 0 end.

(** [_process_queue]: one dispatcher step. [now] is the clock before
    the send, [done] the clock after it. The result is the engine
    afterwards and the calls of [send_message] the step made. *)
Definition _process_queue (e : Engine) (now done : Z)
    (outcome : SendOutcome) : Engine * list SendCall :=
  if processing e then (e, [])
  else
    let '(e1, ok) := _check_rate_limits (with_processing true e) now in
    if negb ok then (with_processing false e1, [])
    else
      match get_next_job e1 now with
      | None => (with_processing false e1, [])
      | Some (r, e2) =>
          let '(e3, success) := _send_notification e2 r outcome done in
          let e4 :=
            if success
            then _record_notification
                   (with_stats (add_sent (stats e3)) e3) r done
            else requeue_job e3 r 60 done in
          (with_processing false e4,
           [mkCall r (call_user e2 r) outcome done])
      end.

(** *** Executions

    The monitor's callback creates notifications while the loop of
    [start_processing] repeats [_process_queue]; both run on one event
    loop, so an execution is a sequence of the two operations. *)
Inductive Op :=
  | Step (now done : Z) (outcome : SendOutcome)
  | Notify (user_ids : list Z) (gift_data : Gift) (t : NotificationType)
      (p : NotificationPriority) (now : Z).

Definition exec_op (e : Engine) (op : Op) : Engine * list SendCall :=
  match op with
  | Step now done outcome => _process_queue e now done outcome
  | Notify user_ids gift_data t p now =>
      ((create_notification e user_ids gift_data t p now).1, [])
  end.

Fixpoint exec (e : Engine) (ops : list Op) : Engine * list SendCall :=
  match ops with
  | [] => (e, [])
  | op :: rest =>
      let '(e1, calls1) := exec_op e op in
      let '(e2, calls2) := exec e1 rest in
      (e2, calls1 ++ calls2)
  end.

(** The clock readings of an operation, first and last. *)
Definition op_start (op : Op) : Z :=
  match op with Step now _ _ => now | Notify _ _ _ _ now => now end.
Definition op_end (op : Op) : Z :=
  match op with Step _ done _ => done | Notify _ _ _ _ now => now end.

(** The clock never goes back: within an operation and from one
    operation to the next, starting from [t]. *)
Fixpoint monotone (t : Z) (ops : list Op) : Prop :=
  match ops with
  | [] => True
  | op :: rest =>
      t ≤ op_start op ∧ op_start op ≤ op_end op ∧ monotone (op_end op) rest
  end.

(** [send_message] returned: the message was sent. *)
Definition delivered (outcome : SendOutcome) : bool :=
  match outcome with Delivered => true | _ => false end.

(** The instants of the successful sends among the calls. *)
Definition sends (calls : list SendCall) : list Z :=
  map call_done (List.filter (λ c, delivered (call_outcome c)) calls).

(** The last clock reading of an execution that starts at [t]. *)
Fixpoint final_time (t : Z) (ops : list Op) : Z :=
  match ops with
  | [] => t
  | op :: rest => final_time (op_end op) rest
  end.

(** The instants of [ts] that lie in the 60 seconds that end at [t]:
    those the test [t - msg < timedelta(minutes=1)] keeps. *)
Definition window (t : Z) (ts : list Z) : list Z :=
  List.filter (λ msg, t - msg <? Py.minutes 1) ts.

Definition in_window (t : Z) (ts : list Z) : nat := length (window t ts).

(** The entries of a history that lie in the hour that ends at [now]:
    those the test [now - n['timestamp'] < timedelta(hours=1)] keeps. *)
Definition recent (now : Z) (l : list HistoryEntry) : list HistoryEntry :=
  List.filter (λ n, now - timestamp n <? Py.hours 1) l.

(** The deliveries of kind [k] to [uid] that [e] counts in the hour
    that ends at [now]. *)
Definition counted (e : Engine) (uid : Z) (k : NotificationType) (now : Z)
  : Z :=
  same_type_count k (recent now (default [] (notification_history e !! uid))).

End NotificationEngine.

(** ** Inputs of the examples *)

Module Examples.
Import NotificationEngine.

(** A limited gift of 500 stars, 10 of 100 left. *)
Definition golden (sold : bool) : Gift :=
  mkGift 42 "Golden Star" 500 true sold false false None None
    (Some 10) (Some 100) 0.

Definition subscriber (enabled : bool) : Db.User :=
  Db.mkUser None "user" false 0 enabled 0 1000 true "fa".

(** Users 1, 2 and 3 have notifications on, user 7 has them off. *)
Definition subscribers : Db.Users :=
  <[1 := subscriber true]>
    (<[2 := subscriber true]>
       (<[3 := subscriber true]> (<[7 := subscriber false]> ∅))).

(** The engine at start-up. *)
Definition fresh : Engine := init subscribers 0.

(** Instants of the examples are given in seconds. *)
Definition s : Z → Z := Py.seconds.

(** One queued job, for user 1. *)
Definition one_job : Engine :=
  (create_notification fresh [1] (golden false) NEW_GIFT HIGH 0).1.

(** Two queued jobs of one priority: for user 2, created at 0 s
    (reference 0), and for user 1, created at 0.5 s (reference 1). *)
Definition two_jobs : Engine :=
  (exec fresh [Notify [2] (golden false) NEW_GIFT HIGH 0;
               Notify [1] (golden false) NEW_GIFT HIGH 500000]).1.

(** A job of the given priority and [created_at], put in the queue the
    way the loop of [create_notification] does it. *)
Definition enqueue (e : Engine) (uid : Z) (p : NotificationPriority) (t : Z)
  : Engine :=
  match templates NEW_GIFT with
  | Some template => (create_job e template uid (golden false) NEW_GIFT p t).1
  | None => e
  end.

(** What is left of a job after some steps: its attempts and the
    instant it is scheduled at. *)
Definition progress (e : Engine) (r : nat) : option (Z * Z) :=
  (λ job, (attempts job, scheduled_at job)) <$> jobs e !! r.

(** The users [send_message] was called for, in order. *)
Definition called (calls : list SendCall) : list Z :=
  map call_user_id calls.

(** An engine whose send log holds 20 sends of the last minute. *)
Definition at_cap : Engine :=
  with_sent_messages (replicate 20 (s 1)) two_jobs.

End Examples.

(** ** Invariants of the engine *)

Module Invariants.
Import NotificationEngine.

(** The send log and the rate limits are those of [e]. *)
Definition same_limits (e e' : Engine) : Prop :=
  sent_messages e' = sent_messages e ∧ rate_limits e' = rate_limits e.

(** The sends of the execution so far and the engine's own log agree on
    the window that ends at [t], and the window is within the cap. *)
Definition logged (e : Engine) (log : list Z) (t : Z) : Prop :=
  window t log = window t (sent_messages e)
  ∧ Z.of_nat (length (window t log)) ≤ messages_per_minute (rate_limits e).

(** [a] may stand before [b] in the sorted queue: the key of [a] is
    not below the key of [b]. *)
Definition before (key : nat → Z * Z) (a b : nat) : Prop :=
  key_lt (key a) (key b) = false.

Definition sorted (key : nat → Z * Z) (l : list nat) : Prop :=
  StronglySorted (before key) l.

(** The queue of the engine is sorted by the key of [add_job]. *)
Definition sorted_queue (e : Engine) : Prop :=
  sorted (sort_key (jobs e)) (queue e).

End Invariants.

(** ** notification_engine.py: the statistics and the filter decision *)

Module EngineStats.
Import NotificationEngine.

(** [NotificationQueue.get_stats]. *)
Record QueueStats := mkQueueStats {
  counters : Stats;
  queue_size : nat;
  is_processing : bool
}.

Definition get_stats (e : Engine) : QueueStats :=
  mkQueueStats (stats e) (length (queue e)) (processing e).

(** [get_statistics]. *)
Record Statistics := mkStatistics {
  queue_stats : QueueStats;
  limits : RateLimits;
  recent_messages : nat;
  templates_loaded : nat;
  active_filters : nat;
  notification_history_size : nat
}.

(** The kinds of [NotificationType], to count the templates. *)
Definition all_types : list NotificationType :=
  [NEW_GIFT; GIFT_UPDATE; PRICE_DROP; LIMITED_AVAILABLE; SYSTEM_ALERT;
   PROMOTION].

Definition get_statistics (e : Engine) : Statistics :=
  mkStatistics (get_stats e) (rate_limits e)
    (length (sent_messages e))
    (length (List.filter (λ t, bool_decide (is_Some (templates t))) all_types))
    (size (filters e))
    (map_fold (λ _ h n, (length h + n)%nat) 0%nat (notification_history e)).

(** The checks of [should_notify_user] that read the filter, the gift
    and the clock only, in the order the code makes them. *)
Definition static_checks (f : NotificationFilter) (gift_data : Gift)
    (now : Z) : bool :=
  negb ((stars gift_data <? min_stars f) || (max_stars f <? stars gift_data))
  && negb (only_limited f && negb (limited gift_data))
  && negb (exclude_premium_required f && require_premium gift_data)
  && match keywords f with
     | [] => true
     | kws => any_keyword kws (lower (title gift_data))
     end
  && match excluded_keywords f with
     | [] => true
     | kws => negb (any_keyword kws (lower (title gift_data)))
     end
  && match time_restrictions f with
     | Some (h :: hs) => bool_decide (Py.hour now ∈ h :: hs)
     | _ => true
     end.

(** The decision of [should_notify_user] for the user [uid]: a filter,
    the static checks, and fewer deliveries of the kind counted in the
    last hour than its limit. *)
Definition accepts (e : Engine) (gift_data : Gift) (t : NotificationType)
    (now : Z) (uid : Z) : bool :=
  match filters e !! uid with
  | None => false
  | Some f =>
      static_checks f gift_data now && (counted e uid t now <? limit t)
  end.

(** The filter [load_user_filters] makes of a row of [users]. *)
Definition filter_of_row (row : Db.User) : NotificationFilter :=
  mkFilter (Db.min_stars row) (Db.max_stars row) (Db.only_limited row)
    false false [] [] None.

(** The calls of [send_message] that a slowdown answered. *)
Definition flood_waits (calls : list SendCall) : nat :=
  length (List.filter (λ c, match call_outcome c with
                            | FloodWait _ => true
                            | _ => false
                            end) calls).

(** The jobs in flight and the jobs done:
    queue length + [total_sent] + [total_failed]. *)
Definition accounted (e : Engine) : Z :=
  Z.of_nat (length (queue e)) + total_sent (stats e) + total_failed (stats e).

(** The calls of [send_message] made for the job object [r]. *)
Definition calls_of (r : nat) (calls : list SendCall) : list SendCall :=
  List.filter (λ c, Nat.eqb (call_ref c) r) calls.

(** The positions of the queue that hold the job object [r]. *)
Definition occurrences (r : nat) (l : list nat) : nat :=
  length (List.filter (Nat.eqb r) l).

(** The bound the retry counter keeps. [made r] is the number of calls
    of [send_message] made so far for the job object [r]. A reference
    not given out yet is not in the queue and has no call. A job object
    has [max_attempts = 3] and at most three calls, and while it may
    still be taken, its calls and its positions in the queue together
    are at most one more than its attempts. *)
Definition within_attempts (e : Engine) (made : nat → nat) : Prop :=
  ∀ r,
    match jobs e !! r with
    | None =>
        (next_ref e ≤ r)%nat ∧ occurrences r (queue e) = 0%nat
        ∧ made r = 0%nat
    | Some job =>
        (r < next_ref e)%nat ∧ max_attempts job = 3 ∧ 0 ≤ attempts job
        ∧ (made r ≤ 3)%nat
        ∧ (attempts job < 3 →
           Z.of_nat (made r + occurrences r (queue e)) ≤ attempts job + 1)
    end.

(** What a send and its requeues do to the job object [r]: the other
    job objects and their positions stay; [r] keeps [max_attempts], its
    attempts do not go down, and it gains at most as many positions in
    the queue as attempts. *)
Definition retry_step (e e' : Engine) (r : nat) : Prop :=
  next_ref e' = next_ref e
  ∧ (∀ r', r' ≠ r →
       jobs e' !! r' = jobs e !! r'
       ∧ occurrences r' (queue e') = occurrences r' (queue e))
  ∧ ∃ job job',
      jobs e !! r = Some job ∧ jobs e' !! r = Some job'
      ∧ max_attempts job' = max_attempts job
      ∧ attempts job ≤ attempts job'
      ∧ Z.of_nat (occurrences r (queue e'))
        ≤ Z.of_nat (occurrences r (queue e)) + (attempts job' - attempts job).

End EngineStats.

(** ** gift_monitor.py: start-up, statistics and the file feed *)

Module MonitorMore.
Import GiftMonitor.

(** The start of [start_monitoring]: the gifts found first become the
    known gifts (a later entry of one id replaces an earlier one) and
    their token the last token; no callback is made. *)
Definition load_initial (m : Monitor) (initial_gifts : option GiftsData)
  : Monitor :=
  match initial_gifts with
  | None => m
  | Some d =>
      mkMonitor (hash d)
        (foldl (λ known gift, <[gift_id gift := gift]> known)
           (known_gifts m) (gifts d))
  end.

(** The polls of the monitoring loop, one [_check_for_new_gifts] per
    answer of [get_star_gifts], and the events handed to the callback. *)
Fixpoint run_polls (m : Monitor) (polls : list (option GiftsData))
    (callback_func : bool) : Monitor * list (Gift * EventType) :=
  match polls with
  | [] => (m, [])
  | p :: rest =>
      let '(m1, evs1) := _check_for_new_gifts m p callback_func in
      let '(m2, evs2) := run_polls m1 rest callback_func in
      (m2, evs1 ++ evs2)
  end.

(** [start_monitoring]: the first load, then the polls. *)
Definition start_monitoring (m : Monitor) (initial_gifts : option GiftsData)
    (polls : list (option GiftsData)) (callback_func : bool)
  : Monitor * list (Gift * EventType) :=
  run_polls (load_initial m initial_gifts) polls callback_func.

(** The ids of the gifts the callback was told are new. *)
Definition new_event_ids (evs : list (Gift * EventType)) : list Z :=
  map (λ ev, gift_id ev.1)
    (List.filter (λ ev, match ev.2 with new => true | updated => false end)
       evs).

(** [get_gift_stats]. *)
Record GiftStats := mkGiftStats {
  total_gifts : nat;
  limited_gifts : nat;
  available_gifts : nat;
  stats_last_hash : Z
}.

Definition get_gift_stats (m : Monitor) : GiftStats :=
  let values := (map_to_list (known_gifts m)).*2 in
  mkGiftStats (length values)
    (length (List.filter limited values))
    (length (List.filter (λ g, negb (sold_out g)) values))
    (last_hash m).

(** *** The file feed *)

(** The [gift] object of a line of the feed; an absent key is [None]. *)
Record FeedGift := mkFeedGift {
  f_id : option Z;
  f_title : option string;
  f_stars : option Z;
  f_limited : option bool;
  f_sold_out : option bool;
  f_require_premium : option bool;
  f_can_upgrade : option bool;
  f_availability_remains : option Z;
  f_availability_total : option Z
}.

(** A line of [gifts_feed.jsonl] as the loop of [_read_file_feed] sees
    it: blank after [strip]; text [json.loads] rejects; a JSON value that
    is not an object, or whose [gift] is not one ([.get] raises
    [AttributeError]); an object, with its [gift] when it has a truthy
    one. *)
Inductive FeedLine :=
  | Blank
  | Invalid
  | NotObject
  | Object (gift : option FeedGift).

(** The title given to a gift without one. *)
Definition unknown_title : string := "نامشخص".

(** The dictionary the loop appends for an object line. *)
Definition feed_gift (o : option FeedGift) (now : Z) : Gift :=
  match o with
  | None => mkGift 0 unknown_title 0 true false false false None None
              None None now
  | Some f =>
      mkGift (default 0 (f_id f)) (default unknown_title (f_title f))
        (default 0 (f_stars f)) (default true (f_limited f))
        (default false (f_sold_out f)) (default false (f_require_premium f))
        (default false (f_can_upgrade f)) None None
        (f_availability_remains f) (f_availability_total f) now
  end.

(** The [for line in f] loop: the gifts of the lines, or [None] when
    an [AttributeError] ends the loop. *)
Fixpoint read_lines (lines : list FeedLine) (now : Z) : option (list Gift) :=
  match lines with
  | [] => Some []
  | Blank :: rest => read_lines rest now
  | Invalid :: rest => read_lines rest now
  | NotObject :: rest => None
  | Object o :: rest =>
      match read_lines rest now with
      | None => None
      | Some gifts => Some (feed_gift o now :: gifts)
      end
  end.

(** [_read_file_feed]. The file is the list of its lines, each written
    whole ([None]: the file does not exist), and [_file_offset] the
    number of lines consumed. The
    result is the value returned and the offset afterwards: the offset
    moves to the end of the file unless an exception ends the read. The
    token is [int(datetime.now().timestamp())], the clock in whole
    seconds. *)
Definition _read_file_feed (file : option (list FeedLine)) (offset : nat)
    (now : Z) : option GiftsData * nat :=
  match file with
  | None => (None, offset)
  | Some lines =>
      match read_lines (drop offset lines) now with
      | None => (None, offset)
      | Some [] => (None, Nat.max offset (length lines))
      | Some gifts =>
          (Some (mkGiftsData (now `quot` 1000000) gifts),
           Nat.max offset (length lines))
      end
  end.

(** The gifts of an answer of [get_star_gifts]; none when it is [None]. *)
Definition feed_gifts (data : option GiftsData) : list Gift :=
  match data with Some d => gifts d | None => [] end.

(** A poll of the monitor when [get_star_gifts] falls back to the file
    feed. *)
Definition poll_file_feed (m : Monitor) (offset : nat)
    (file : option (list FeedLine)) (now : Z) (callback_func : bool)
  : Monitor * nat * list (Gift * EventType) :=
  let '(data, offset') := _read_file_feed file offset now in
  let '(m', evs) := _check_for_new_gifts m data callback_func in
  (m', offset', evs).

End MonitorMore.

(** ** telegram_gift_bot.py: the writes of DatabaseManager, the
    subscription and the statistics of the bot *)

Module Database.
Import Db.

(** [add_user]: [INSERT OR REPLACE INTO users]. The statements of this
    module are taken to succeed. *)
Definition add_user (user_id : Z) (user : User) (users : Users) : Users :=
  <[user_id := user]> users.

(** [get_user]: [SELECT * FROM users WHERE user_id = ?]. *)
Definition get_user (user_id : Z) (users : Users) : option User :=
  users !! user_id.

(** A row of [gifts], without its primary key [id]. *)
Record GiftRow := mkGiftRow {
  row_title : string;
  row_stars : Z;
  row_limited : bool;
  row_sold_out : bool;
  row_require_premium : bool;
  row_can_upgrade : bool;
  first_seen : Z;
  last_updated : Z;
  row_availability_remains : option Z;
  row_availability_total : option Z
}.

(** [add_gift]: [INSERT OR REPLACE INTO gifts] with
    [last_updated = CURRENT_TIMESTAMP]; a replaced row is deleted first,
    so [first_seen] takes its default, [CURRENT_TIMESTAMP], again. *)
Definition add_gift (gift : Gift) (now : Z) (gifts : gmap Z GiftRow)
  : gmap Z GiftRow :=
  <[gift_id gift := mkGiftRow (title gift) (stars gift) (limited gift)
                      (sold_out gift) (require_premium gift)
                      (can_upgrade gift) now now
                      (availability_remains gift)
                      (availability_total gift)]> gifts.

(** What [subscribe_user] answers. *)
Inductive Reply := Subscribed | AlreadySubscribed.

(** [subscribe_user]: a user with a row keeps it; a new user gets the
    defaults of the [User] class. *)
Definition subscribe_user (users : Users) (user_id : Z)
    (username : option string) (first_name : string)
    (is_premium : option bool) (now : Z) : Users * Reply :=
  match get_user user_id users with
  | Some _ => (users, AlreadySubscribed)
  | None =>
      (add_user user_id
         (mkUser username first_name (default false is_premium) now
            true 0 1000000 true "fa") users,
       Subscribed)
  end.

(** The two user counts of [show_statistics]: [total_users] and
    [active_users]. *)
Definition show_statistics (users : Users) : nat * nat :=
  let all_users := get_all_users users in
  (length all_users,
   length (List.filter (λ u, notifications_enabled u.2) all_users)).

End Database.

(** ** main.py: AdvancedGiftBot *)

Module App.
Import NotificationEngine GiftMonitor Database.

(** The bot: the engine (with the users table), the gifts table, the
    monitor, and the counters of [self.stats]. *)
Record Bot := mkBot {
  engine : Engine;
  gifts_table : gmap Z GiftRow;
  monitor : Monitor;
  gifts_processed : Z;
  notifications_sent : Z;
  errors_occurred : Z
}.

(** The string the monitor passes for an event. *)
Definition event_name (k : EventType) : string :=
  match k with new => "new" | updated => "updated" end.

(** The kind and the priority [handle_gift_event] picks. *)
Definition notification_of (event_type : string)
  : NotificationType * NotificationPriority :=
  if String.eqb event_type "new" then (NEW_GIFT, HIGH)
  else if String.eqb event_type "updated" then (GIFT_UPDATE, NORMAL)
  else (NEW_GIFT, NORMAL).

(** [handle_gift_event]. No statement of its [try] raises here, so
    [errors_occurred] stays. *)
Definition handle_gift_event (b : Bot) (gift_data : Gift)
    (event_type : string) (now : Z) : Bot :=
  let '(t, p) := notification_of event_type in
  let active_users := Db.get_all_users (users (engine b)) in
  let user_ids :=
    map fst (List.filter (λ u, Db.notifications_enabled u.2) active_users) in
  match user_ids with
  | [] =>
      mkBot (engine b) (gifts_table b) (monitor b) (gifts_processed b + 1)
        (notifications_sent b) (errors_occurred b)
  | _ =>
      let '(e, job_ids) :=
        create_notification (engine b) user_ids gift_data t p now in
      mkBot e (add_gift gift_data now (gifts_table b)) (monitor b)
        (gifts_processed b + 1)
        (notifications_sent b + Z.of_nat (length job_ids))
        (errors_occurred b)
  end.

(** The callback of the monitor, for the events of one poll in order;
    [clock i] is the instant of the call for the event at position
    [i]. *)
Fixpoint handle_events (b : Bot) (evs : list (Gift * EventType))
    (clock : nat → Z) : Bot :=
  match evs with
  | [] => b
  | (gift, k) :: rest =>
      handle_events (handle_gift_event b gift (event_name k) (clock 0%nat))
        rest (λ i, clock (S i))
  end.

Definition with_engine (e : Engine) (b : Bot) : Bot :=
  mkBot e (gifts_table b) (monitor b) (gifts_processed b)
    (notifications_sent b) (errors_occurred b).

Definition with_monitor (m : Monitor) (b : Bot) : Bot :=
  mkBot (engine b) (gifts_table b) m (gifts_processed b)
    (notifications_sent b) (errors_occurred b).

(** What happens to the running bot: a poll of the monitor with the
    answer of [get_star_gifts] and the instants of its callbacks, a step
    of the dispatcher with the answer of [send_message], a user pressing
    the subscribe button. *)
Inductive Event :=
  | Poll (gifts_data : option GiftsData) (clock : nat → Z)
  | Dispatch (now done : Z) (outcome : SendOutcome)
  | Subscribe (user_id : Z) (username : option string) (first_name : string)
      (is_premium : option bool) (now : Z).

Definition step (b : Bot) (ev : Event) : Bot * list SendCall :=
  match ev with
  | Poll gifts_data clock =>
      let '(m, evs) := _check_for_new_gifts (monitor b) gifts_data true in
      (handle_events (with_monitor m b) evs clock, [])
  | Dispatch now done outcome =>
      let '(e, calls) := _process_queue (engine b) now done outcome in
      (with_engine e b, calls)
  | Subscribe user_id username first_name is_premium now =>
      (with_engine
         (with_users
            (subscribe_user (users (engine b)) user_id username first_name
               is_premium now).1
            (engine b)) b,
       [])
  end.

Fixpoint run (b : Bot) (evs : list Event) : Bot * list SendCall :=
  match evs with
  | [] => (b, [])
  | ev :: rest =>
      let '(b1, calls1) := step b ev in
      let '(b2, calls2) := run b1 rest in
      (b2, calls1 ++ calls2)
  end.

(** The bot once [initialize] and the first load of the monitor are
    done. *)
Definition start (users : Db.Users) (initial_gifts : option GiftsData)
    (now : Z) : Bot :=
  mkBot (NotificationEngine.init users now) ∅
    (MonitorMore.load_initial GiftMonitor.init initial_gifts) 0 0 0.

(** *** Vocabulary for the runs of the bot *)

(** Every job object of the store, with its reference, satisfies [P]. *)
Definition all_jobs (P : nat → NotificationJob → Prop) (e : Engine) : Prop :=
  ∀ r job, jobs e !! r = Some job → P r job.

Definition is_formatted (msg : Message) : bool :=
  match msg with Formatted _ => true | _ => false end.

(** The send raised [UserIsBlocked] or [ChatWriteForbidden]. *)
Definition blocked (outcome : SendOutcome) : bool :=
  match outcome with
  | UserIsBlocked | ChatWriteForbidden => true
  | _ => false
  end.

(** The row of [uid] in [users] has notifications on and a price range
    that holds [gift_data]. *)
Definition subscribed_for (users : Db.Users) (uid : Z) (gift_data : Gift)
  : Prop :=
  ∃ row, users !! uid = Some row
         ∧ Db.notifications_enabled row = true
         ∧ Db.min_stars row ≤ stars gift_data ≤ Db.max_stars row.

(** A job object for a gift alert: for a subscriber of [users] whose
    price range holds the gift, of kind [NEW_GIFT] and priority [HIGH],
    for a gift that passes [_should_notify], with a rendered message,
    or the text of the generic [except] clause when the percentage of
    the gift cannot be computed. *)
Definition alert_job (users : Db.Users) (job : NotificationJob) : Prop :=
  subscribed_for users (user_id job) (metadata job)
  ∧ notification_type job = NEW_GIFT
  ∧ priority job = HIGH
  ∧ _should_notify (metadata job) = true
  ∧ (if availability_overflows (metadata job) then message job = Failed
     else is_formatted (message job) = true).

(** The filters of the engine are those of rows of [users] with
    notifications on. *)
Definition filters_from (users : Db.Users) (e : Engine) : Prop :=
  ∀ uid f, filters e !! uid = Some f →
    ∃ row, users !! uid = Some row
           ∧ Db.notifications_enabled row = true
           ∧ f = EngineStats.filter_of_row row.

(** What the runs of the bot keep: its filters are those
    of the subscribers of the start, its jobs are gift alerts for
    them. *)
Definition alerts_only (users : Db.Users) (b : Bot) : Prop :=
  filters_from users (engine b)
  ∧ all_jobs (λ _, alert_job users) (engine b).

(** The row of [uid] has notifications off. *)
Definition turned_off (users : Db.Users) (uid : Z) : Prop :=
  ∃ row, users !! uid = Some row ∧ Db.notifications_enabled row = false.

(** No row of [users] is missing from the table of the engine. *)
Definition rows_kept (users : Db.Users) (b : Bot) : Prop :=
  ∀ uid, is_Some (users !! uid) → is_Some (NotificationEngine.users (engine b) !! uid).

End App.

(** ** Runs of the bot used as examples *)

Module BotExamples.
Import NotificationEngine GiftMonitor App Examples.

(** The bot started with the users of the examples, nothing loaded. *)
Definition started : Bot := start subscribers None 0.

(** The golden star is found; the first send is refused as blocked. *)
Definition found_then_blocked : list Event :=
  [Poll (Some (mkGiftsData 1 [golden false])) (λ _, s 1);
   Dispatch (s 2) (s 2) UserIsBlocked].

(** A limited gift of 300 stars. *)
Definition silver : Gift :=
  mkGift 43 "Silver Star" 300 true false false false None None None None 0.

(** Later a second gift is found. *)
Definition found_again : list Event :=
  [Poll (Some (mkGiftsData 2 [golden false; silver])) (λ _, s 3)].

(** The call of the refused send. *)
Definition refused : SendCall := mkCall 0 3 UserIsBlocked (s 2).

End BotExamples.

(** * Properties *)

Module MonitorFacts.
Import GiftMonitor Examples.



(** Filtering twice is filtering by the conjunction. *)
Lemma filter_filter_andb {A} (p q : A → bool) l :
  List.filter q (List.filter p l) = List.filter (λ x, p x && q x) l.
Proof.
  induction l as [|x l IH]; simpl; [done|].
  destruct (p x); simpl; [destruct (q x)|]; by rewrite IH.
Qed.

Lemma filter_map_pair (k : EventType) (f : Gift → bool) (l : list Gift) :
  List.filter (λ e : Gift * EventType, f e.1) (map (λ g, (g, k)) l)
  = map (λ g, (g, k)) (List.filter f l).
Proof.
  induction l as [|x l IH]; simpl; [done|].
  destruct (f x); simpl; by rewrite IH.
Qed.

Section snapshot.
Variable known : gmap Z Gift.

Lemma is_new_insert_ne g g' :
  gift_id g ≠ gift_id g' →
  is_new (<[gift_id g := g]> known) g' = is_new known g'.
Proof. intros Hne. unfold is_new. by rewrite lookup_insert_ne. Qed.

Lemma is_updated_insert_ne g g' :
  gift_id g ≠ gift_id g' →
  is_updated (<[gift_id g := g]> known) g' = is_updated known g'.
Proof. intros Hne. unfold is_updated. by rewrite lookup_insert_ne. Qed.
End snapshot.

Lemma filter_ext_fresh (f f' : Gift → bool) i (l : list Gift) :
  i ∉ map gift_id l →
  (∀ g, gift_id g ≠ i → f g = f' g) →
  List.filter f l = List.filter f' l.
Proof.
  intros Hi Hf. apply List.filter_ext_in. intros g Hg. apply Hf.
  intros <-. apply Hi, list_elem_of_In, in_map, Hg.
Qed.

(** With one item per id, the sequential loop classifies every item
    against the table as it was before the loop. *)
Lemma diff_loop_spec snap : ∀ known k n u,
  NoDup (map gift_id snap) →
  diff_loop known snap = (k, n, u) →
  n = List.filter (is_new known) snap
  ∧ u = List.filter (is_updated known) snap
  ∧ (∀ g, g ∈ snap →
       k !! gift_id g =
         if is_new known g || is_updated known g then Some g
         else known !! gift_id g)
  ∧ (∀ i, i ∉ map gift_id snap → k !! i = known !! i).
Proof.
  induction snap as [|gift rest IH]; intros known k n u Hnd Heq.
  - simpl in Heq. injection Heq as <- <- <-.
    split; [done|split; [done|split; [|done]]].
    intros g Hg. by apply elem_of_nil in Hg.
  - simpl in Hnd. apply NoDup_cons in Hnd as [Hfresh Hnd].
    assert (Hrest : ∀ g, g ∈ rest → gift_id gift ≠ gift_id g).
    { intros g Hg Heq'. apply Hfresh. rewrite Heq'.
      apply list_elem_of_fmap. eauto. }
    simpl in Heq.
    destruct (known !! gift_id gift) as [old|] eqn:Hlook.
    + destruct (_gift_changed old gift) eqn:Hch.
      * destruct (diff_loop (<[gift_id gift:=gift]> known) rest)
          as [[k' n'] u'] eqn:Hrec.
        injection Heq as <- <- <-.
        destruct (IH _ _ _ _ Hnd Hrec) as (Hn & Hu & Hk & Hother).
        split; [|split; [|split]].
        -- simpl. unfold is_new at 1. rewrite Hlook. rewrite Hn.
           apply (filter_ext_fresh _ _ (gift_id gift)); [done|].
           intros g Hg. by apply is_new_insert_ne.
        -- simpl. unfold is_updated at 1. rewrite Hlook, Hch. f_equal.
           rewrite Hu.
           apply (filter_ext_fresh _ _ (gift_id gift)); [done|].
           intros g Hg. by apply is_updated_insert_ne.
        -- intros g [->|Hg]%elem_of_cons.
           ++ rewrite Hother by done. rewrite lookup_insert_eq.
              unfold is_new, is_updated. by rewrite Hlook, Hch.
           ++ rewrite (Hk g Hg).
              rewrite is_new_insert_ne, is_updated_insert_ne by auto.
              by rewrite lookup_insert_ne by auto.
        -- intros i Hi. rewrite fmap_cons in Hi.
           apply not_elem_of_cons in Hi as [Hne Hi].
           rewrite (Hother i Hi). by rewrite lookup_insert_ne.
      * destruct (IH _ _ _ _ Hnd Heq) as (Hn & Hu & Hk & Hother).
        split; [|split; [|split]].
        -- simpl. unfold is_new at 1. by rewrite Hlook.
        -- simpl. unfold is_updated at 1. by rewrite Hlook, Hch.
        -- intros g [->|Hg]%elem_of_cons; [|by apply Hk].
           rewrite Hother by done.
           unfold is_new, is_updated. by rewrite Hlook, Hch.
        -- intros i Hi. rewrite fmap_cons in Hi.
           apply not_elem_of_cons in Hi as [Hne Hi]. by apply Hother.
    + destruct (diff_loop (<[gift_id gift:=gift]> known) rest)
        as [[k' n'] u'] eqn:Hrec.
      injection Heq as <- <- <-.
      destruct (IH _ _ _ _ Hnd Hrec) as (Hn & Hu & Hk & Hother).
      split; [|split; [|split]].
      * simpl. unfold is_new at 1. rewrite Hlook. f_equal. rewrite Hn.
        apply (filter_ext_fresh _ _ (gift_id gift)); [done|].
        intros g Hg. by apply is_new_insert_ne.
      * simpl. unfold is_updated at 1. rewrite Hlook. rewrite Hu.
        apply (filter_ext_fresh _ _ (gift_id gift)); [done|].
        intros g Hg. by apply is_updated_insert_ne.
      * intros g [->|Hg]%elem_of_cons.
        -- rewrite Hother by done. rewrite lookup_insert_eq.
           unfold is_new. by rewrite Hlook.
        -- rewrite (Hk g Hg).
           rewrite is_new_insert_ne, is_updated_insert_ne by auto.
           by rewrite lookup_insert_ne by auto.
      * intros i Hi. rewrite fmap_cons in Hi.
        apply not_elem_of_cons in Hi as [Hne Hi].
        rewrite (Hother i Hi). by rewrite lookup_insert_ne.
Qed.

(** In a list with one item per id, the items with the id of [g]
    that pass a test are [g] alone, or none. *)
Lemma filter_id_unique (p : Gift → bool) l g :
  NoDup (map gift_id l) → g ∈ l →
  List.filter (λ x, p x && (gift_id x =? gift_id g)) l
  = if p g then [g] else [].
Proof.
  induction l as [|x l IH]; intros Hnd Hg; [by apply elem_of_nil in Hg|].
  simpl in Hnd. apply NoDup_cons in Hnd as [Hfresh Hnd].
  assert (Hnone : ∀ y, y ∈ l → gift_id y ≠ gift_id x).
  { intros y Hy Heq. apply Hfresh. rewrite <- Heq.
    apply list_elem_of_fmap. eauto. }
  apply elem_of_cons in Hg as [->|Hg]; simpl.
  - rewrite Z.eqb_refl, andb_true_r.
    assert (Hrest : List.filter (λ y, p y && (gift_id y =? gift_id x)) l = []).
    { clear IH Hfresh Hnd. induction l as [|y l IHl]; simpl; [done|].
      assert ((gift_id y =? gift_id x) = false) as ->.
      { apply Z.eqb_neq, Hnone. left. }
      rewrite andb_false_r. apply IHl. intros z Hz. apply Hnone. by right. }
    rewrite Hrest. by destruct (p x).
  - assert ((gift_id x =? gift_id g) = false) as ->.
    { apply Z.eqb_neq. intros Heq. by apply (Hnone g Hg). }
    rewrite andb_false_r. by apply IH.
Qed.

Lemma filter_item (p : Gift → bool) l g :
  NoDup (map gift_id l) → g ∈ l →
  List.filter (λ x, gift_id x =? gift_id g)
    (List.filter _should_notify (List.filter p l))
  = if p g && _should_notify g then [g] else [].
Proof.
  intros Hnd Hg. rewrite !filter_filter_andb.
  rewrite <- (filter_id_unique (λ x, p x && _should_notify x) l g Hnd Hg).
  apply List.filter_ext. intros x. by rewrite andb_assoc.
Qed.

Lemma events_for_callbacks i n u :
  events_for i (callbacks n u)
  = map (λ g, (g, new))
      (List.filter (λ g, gift_id g =? i) (List.filter _should_notify n))
    ++ map (λ g, (g, updated))
         (List.filter (λ g, gift_id g =? i) (List.filter _should_notify u)).
Proof.
  unfold events_for, callbacks. rewrite List.filter_app.
  by rewrite !(filter_map_pair _ (λ g, gift_id g =? i)).
Qed.

(** The events of a poll for one item of a snapshot that lists every
    id once. *)
Lemma events_for_item known snap k n u g :
  NoDup (map gift_id snap) → g ∈ snap →
  diff_loop known snap = (k, n, u) →
  events_for (gift_id g) (callbacks n u)
  = (if is_new known g && _should_notify g then [(g, new)] else [])
    ++ (if is_updated known g && _should_notify g then [(g, updated)]
        else []).
Proof.
  intros Hnd Hg Hloop.
  destruct (diff_loop_spec _ _ _ _ _ Hnd Hloop) as (-> & -> & _ & _).
  rewrite events_for_callbacks.
  rewrite !(filter_item _ snap g Hnd Hg).
  by destruct (is_new known g && _should_notify g),
    (is_updated known g && _should_notify g).
Qed.



(** C6 (amended). For a snapshot whose change-token differs from the
    last one and that lists every id once, [_check_for_new_gifts]
    treats each item [g] as follows. If the id of [g] is absent from
    the known-gift table, [g] is inserted; if it is known and
    [sold_out], [availability_remains] or [stars] differs from the
    stored record, [g] replaces the record; if it is known and only
    other fields differ, the stored record stays. The callback receives
    exactly one event for [g], ['new'] in the first case and
    ['updated'] in the second, when [g] is limited, not sold out and
    has a positive price, and no event for [g] otherwise. *)
Theorem C6_diff_events_gated m d g :
  hash d ≠ last_hash m →
  NoDup (map gift_id (gifts d)) →
  g ∈ gifts d →
  let r := _check_for_new_gifts m (Some d) true in
  last_hash r.1 = hash d
  ∧ match known_gifts m !! gift_id g with
    | None =>
        known_gifts r.1 !! gift_id g = Some g
        ∧ events_for (gift_id g) r.2
          = (if _should_notify g then [(g, new)] else [])
    | Some old_gift =>
        if _gift_changed old_gift g then
          known_gifts r.1 !! gift_id g = Some g
          ∧ events_for (gift_id g) r.2
            = (if _should_notify g then [(g, updated)] else [])
        else
          known_gifts r.1 !! gift_id g = Some old_gift
          ∧ events_for (gift_id g) r.2 = []
    end.
Proof.
  intros Htok Hnd Hg. unfold _check_for_new_gifts.
  apply Z.eqb_neq in Htok. rewrite Htok. simpl.
  destruct (diff_loop (known_gifts m) (gifts d)) as [[k n] u] eqn:Hloop.
  simpl. split; [done|].
  rewrite (events_for_item _ _ _ _ _ _ Hnd Hg Hloop).
  destruct (diff_loop_spec _ _ _ _ _ Hnd Hloop) as (_ & _ & Hk & _).
  rewrite (Hk g Hg). unfold is_new, is_updated.
  destruct (known_gifts m !! gift_id g) as [old|] eqn:Hlook; simpl.
  - destruct (_gift_changed old g); simpl; [|done].
    split; [done|]. by destruct (_should_notify g).
  - split; [done|]. by destruct (_should_notify g).
Qed.

Lemma C6_diff_events_gated_witness :
  let m := mkMonitor 0 {[ 42 := golden true ]} in
  let d := mkGiftsData 1 [golden false] in
  (_check_for_new_gifts m (Some d) true).2 = [(golden false, updated)].
Proof.
  intros m d.
  pose proof (C6_diff_events_gated m d (golden false)) as H.
  destruct H as [_ H]; [done| |left|].
  - simpl. apply NoDup_singleton.
  - change (known_gifts m !! gift_id (golden false))
      with (({[ 42 := golden true ]} : gmap Z Gift) !! 42) in H.
    rewrite lookup_singleton_eq in H. simpl in H. destruct H as [_ H].
    vm_compute in H. vm_compute. exact H.
Defined.

(** C6, as stated, fails: a known limited gift whose [sold_out] flips
    from false to true is classified as updated and replaces the stored
    record, but no ['updated'] event reaches the callback. *)
Lemma C6_counterexample :
  let m := mkMonitor 0 {[ 42 := golden false ]} in
  let d := mkGiftsData 1 [golden true] in
  hash d ≠ last_hash m
  ∧ known_gifts m !! 42 = Some (golden false)
  ∧ _gift_changed (golden false) (golden true) = true
  ∧ known_gifts (_check_for_new_gifts m (Some d) true).1 !! 42
    = Some (golden true)
  ∧ (_check_for_new_gifts m (Some d) true).2 = [].
Proof. by vm_compute. Qed.

(** A snapshot that lists an id twice: each occurrence is compared with
    the record as the earlier occurrence left it, so one known gift can
    give two ['updated'] events in one poll. *)
Lemma repeated_id_example :
  let dearer (n : Z) :=
    mkGift 42 "Golden Star" n true false false false None None
      (Some 10) (Some 100) 0 in
  let m := mkMonitor 0 {[ 42 := golden false ]} in
  let d := mkGiftsData 1 [dearer 600; dearer 700] in
  (_check_for_new_gifts m (Some d) true).2
  = [(dearer 600, updated); (dearer 700, updated)].
Proof. by vm_compute. Qed.

(** C7. Processing the same gifts data twice in a row hands no event to
    the callback the second time and leaves the monitor, known-gift
    table included, as it was; and gifts data whose token equals the
    last token is skipped: no event, the monitor unchanged. *)
Theorem C7_diff_idempotent m d cb :
  (let m1 := (_check_for_new_gifts m (Some d) cb).1 in
   _check_for_new_gifts m1 (Some d) cb = (m1, []))
  ∧ (hash d = last_hash m → _check_for_new_gifts m (Some d) cb = (m, [])).
Proof.
  assert (Hskip : ∀ m', hash d = last_hash m' →
                        _check_for_new_gifts m' (Some d) cb = (m', [])).
  { intros m' Heq. unfold _check_for_new_gifts.
    apply Z.eqb_eq in Heq. by rewrite Heq. }
  split; [|apply Hskip].
  apply Hskip. unfold _check_for_new_gifts.
  destruct (hash d =? last_hash m) eqn:Heq; simpl.
  - by apply Z.eqb_eq.
  - by destruct (diff_loop (known_gifts m) (gifts d)) as [[k n] u].
Qed.

Lemma C7_diff_idempotent_witness :
  let m := mkMonitor 1 {[ 42 := golden false ]} in
  let d := mkGiftsData 1 [golden true] in
  _check_for_new_gifts m (Some d) true = (m, []).
Proof.
  intros m d. apply (C7_diff_idempotent m d true). reflexivity.
Defined.

End MonitorFacts.

Module RenderFacts.
Import NotificationEngine.

(** The availability computation: it raises when the quotient rounds
    beyond the floats, and yields the guarded line otherwise. *)
Lemma availability_guarded gift :
  availability gift
  = if availability_overflows gift then inl OverflowError
    else inr (guarded_line gift).
Proof.
  unfold availability, guarded_line, availability_overflows, truediv,
    Py.truthy.
  destruct (availability_remains gift) as [r|],
    (availability_total gift) as [t|];
    cbn [from_option id andb negb]; try done.
  - destruct (r =? 0); cbn [andb negb orb]; [done|].
    destruct (t =? 0); cbn [andb negb orb]; [done|].
    by destruct (overflows r t).
  - by destruct (r =? 0).
Qed.




Lemma format_cons k rest d v :
  d !! k = Some v →
  format (k :: rest) d
  = match format rest d with
    | inl e => inl e
    | inr vs => inr ((k, v) :: vs)
    end.
Proof. intros H. simpl. by rewrite H. Qed.

(** The message of a new gift: every field of the template is found,
    and the availability field holds the guarded line; when the
    percentage cannot be computed the message is the text of the generic
    [except] clause. *)
Lemma new_gift_message gift now :
  ∃ tpl, templates NEW_GIFT = Some tpl ∧
  _generate_message tpl gift now
  = if availability_overflows gift then Failed
    else Formatted
      [("title", VStr (title gift)); ("id", VInt (gift_id gift));
       ("stars", VInt (stars gift)); ("limited", VYesNo (limited gift));
       ("premium_required", VYesNo (require_premium gift));
       ("upgradeable", VYesNo (can_upgrade gift));
       ("availability_info", VAvailability (guarded_line gift));
       ("discovery_time", VTime now)].
Proof.
  eexists. split; [reflexivity|].
  unfold _generate_message, generate_message_body.
  rewrite availability_guarded.
  destruct (availability_overflows gift); [done|]. cbn [message_fields].
  unfold format_data, gift_dict.
  repeat (erewrite format_cons; [|by simplify_map_eq]).
  done.
Qed.
End RenderFacts.

Module FilterFacts.
Import NotificationEngine Examples.

(** The frequency check and the filter touch the history only. *)
Lemma frequency_frame e uid t now :
  let e' := (_check_notification_frequency e uid t now).1 in
  jobs e' = jobs e ∧ next_ref e' = next_ref e ∧ queue e' = queue e
  ∧ stats e' = stats e ∧ filters e' = filters e
  ∧ sent_messages e' = sent_messages e ∧ rate_limits e' = rate_limits e
  ∧ users e' = users e ∧ processing e' = processing e.
Proof. by repeat split. Qed.

Lemma should_notify_frame e uid gift t now :
  let e' := (should_notify_user e uid gift t now).1 in
  jobs e' = jobs e ∧ next_ref e' = next_ref e ∧ queue e' = queue e
  ∧ stats e' = stats e ∧ filters e' = filters e
  ∧ sent_messages e' = sent_messages e ∧ rate_limits e' = rate_limits e
  ∧ users e' = users e ∧ processing e' = processing e.
Proof.
  unfold should_notify_user.
  destruct (filters e !! uid) as [f|]; [|by repeat split].
  repeat match goal with
         | |- context [if ?b then (e, false) else _] =>
             destruct b; [by repeat split|]
         end.
  apply frequency_frame.
Qed.

Lemma should_notify_no_filter e uid gift t now :
  filters e !! uid = None →
  should_notify_user e uid gift t now = (e, false).
Proof. intros H. unfold should_notify_user. by rewrite H. Qed.

Lemma create_job_jobs e tpl uid gift t p now :
  let r := create_job e tpl uid gift t p now in
  filters r.1 = filters e
  ∧ id_user r.2 = uid
  ∧ (∃ job, user_id job = uid
            ∧ jobs r.1 = (<[next_ref e := job]> (jobs e))).
Proof. simpl. repeat split. eexists. split; [|reflexivity]. done. Qed.

Lemma create_loop_cons e tpl u rest gift t p now :
  create_loop e tpl (u :: rest) gift t p now
  = let '(e1, ok) := should_notify_user e u gift t now in
    if ok then
      let '(e2, jid) := create_job e1 tpl u gift t p now in
      let '(e3, job_ids) := create_loop e2 tpl rest gift t p now in
      (e3, jid :: job_ids)
    else create_loop e1 tpl rest gift t p now.
Proof. reflexivity. Qed.

Lemma create_loop_no_filter tpl gift t p now uid user_ids :
  ∀ e e' job_ids,
    filters e !! uid = None →
    create_loop e tpl user_ids gift t p now = (e', job_ids) →
    filters e' = filters e
    ∧ (uid ∉ map id_user job_ids)
    ∧ (∀ r job, jobs e' !! r = Some job → user_id job = uid →
                jobs e !! r = Some job).
Proof.
  induction user_ids as [|u rest IH]; intros e e' job_ids Hnone Hloop.
  - simpl in Hloop. injection Hloop as <- <-.
    split; [done|]. split; [apply not_elem_of_nil|]. auto.
  - rewrite create_loop_cons in Hloop.
    destruct (should_notify_user e u gift t now) as [e1 ok] eqn:Hsn.
    pose proof (should_notify_frame e u gift t now) as Hfr.
    rewrite Hsn in Hfr. simpl in Hfr.
    destruct Hfr as (Hj1 & _ & _ & _ & Hf1 & _).
    destruct ok.
    + assert (Hne : u ≠ uid).
      { intros ->. rewrite (should_notify_no_filter _ _ _ _ _ Hnone) in Hsn.
        congruence. }
      destruct (create_job e1 tpl u gift t p now) as [e2 jid] eqn:Hcj.
      pose proof (create_job_jobs e1 tpl u gift t p now) as Hcjs.
      rewrite Hcj in Hcjs. simpl in Hcjs.
      destruct Hcjs as (Hf2 & Hjid & job0 & Hu0 & Hj2).
      destruct (create_loop e2 tpl rest gift t p now) as [e3 ids] eqn:Hrec.
      injection Hloop as <- <-.
      assert (Hnone2 : filters e2 !! uid = None) by (by rewrite Hf2, Hf1).
      destruct (IH _ _ _ Hnone2 Hrec) as (Hf3 & Hids & Hjobs).
      split; [by rewrite Hf3, Hf2, Hf1|]. split.
      * simpl. apply not_elem_of_cons. split; [congruence|done].
      * intros r job Hr Hu. specialize (Hjobs r job Hr Hu).
        rewrite Hj2 in Hjobs.
        destruct (decide (next_ref e1 = r)) as [<-|Hr'].
        -- rewrite lookup_insert_eq in Hjobs. congruence.
        -- rewrite lookup_insert_ne in Hjobs by done. by rewrite <- Hj1.
    + assert (Hnone1 : filters e1 !! uid = None) by (by rewrite Hf1).
      destruct (IH _ _ _ Hnone1 Hloop) as (Hf3 & Hids & Hjobs).
      split; [by rewrite Hf3, Hf1|]. split; [done|].
      intros r job Hr Hu. rewrite <- Hj1. by apply Hjobs.
Qed.

Lemma load_lookup_None uid (l : list (Z * Db.User)) :
  ∀ fs : gmap Z NotificationFilter,
    fs !! uid = None → uid ∉ l.*1 →
    foldl (λ fs r,
             <[r.1 := mkFilter (Db.min_stars r.2) (Db.max_stars r.2)
                        (Db.only_limited r.2) false false [] [] None]> fs)
      fs l !! uid = None.
Proof.
  induction l as [|[u row] l IH]; intros fs Hfs Hl; [done|].
  rewrite fmap_cons in Hl. apply not_elem_of_cons in Hl as [Hne Hl].
  simpl. apply IH; [|done]. by rewrite lookup_insert_ne.
Qed.

Lemma get_all_users_enabled users uid row :
  (uid, row) ∈ Db.get_all_users users →
  users !! uid = Some row ∧ Db.notifications_enabled row = true.
Proof.
  unfold Db.get_all_users. intros H.
  apply list_elem_of_In, List.filter_In in H as [H Hen].
  apply list_elem_of_In, elem_of_map_to_list in H. done.
Qed.

Lemma init_filters_disabled users now uid :
  (∀ row, users !! uid = Some row → Db.notifications_enabled row = false) →
  filters (init users now) !! uid = None.
Proof.
  intros Hdis. unfold init, load_user_filters. simpl.
  apply load_lookup_None; [done|].
  intros Hin. apply list_elem_of_fmap in Hin as [[u row] [-> Hin]].
  apply get_all_users_enabled in Hin as [Hrow Hen]. simpl in Hdis.
  rewrite (Hdis row Hrow) in Hen. done.
Qed.

(** C9. A user whose row has notifications off gets no entry in the
    filter table the engine loads at start-up. For a user id without an
    entry in the filter table of an engine, [should_notify_user]
    returns false for every gift, kind and instant and leaves the
    engine as it is, and [create_notification] creates no job for that
    user whatever the list of user ids: no job id of the user is
    returned, and every job of the user in the store afterwards was
    there before. *)
Theorem C9_no_filter_no_job uid :
  (∀ users now row,
     users !! uid = Some row → Db.notifications_enabled row = false →
     filters (init users now) !! uid = None)
  ∧ (∀ e,
       filters e !! uid = None →
       (∀ gift t now, should_notify_user e uid gift t now = (e, false))
       ∧ (∀ user_ids gift t p now,
            let r := create_notification e user_ids gift t p now in
            filters r.1 = filters e
            ∧ (uid ∉ map id_user r.2)
            ∧ (∀ ref job, jobs r.1 !! ref = Some job → user_id job = uid →
                          jobs e !! ref = Some job))).
Proof.
  split.
  { intros users now row Hrow Hoff. apply init_filters_disabled.
    intros row' Hrow'. congruence. }
  intros e Hnone. split.
  - intros. by apply should_notify_no_filter.
  - intros user_ids gift t p now. unfold create_notification.
    destruct (templates t) as [tpl|]; simpl.
    + destruct (create_loop e tpl user_ids gift t p now) as [e' ids] eqn:Hl.
      by destruct (create_loop_no_filter _ _ _ _ _ _ _ _ _ _ Hnone Hl)
        as (? & ? & ?).
    + split; [done|]. split; [apply not_elem_of_nil|auto].
Qed.

Lemma C9_no_filter_no_job_witness :
  should_notify_user fresh 7 (golden false) NEW_GIFT 0 = (fresh, false)
  ∧ (create_notification fresh [1; 7] (golden false) NEW_GIFT HIGH 0).2
    = [mkJobId 1 NEW_GIFT 0].
Proof.
  destruct (C9_no_filter_no_job 7) as [Hload Hnone].
  assert (Hoff : filters fresh !! 7 = None).
  { apply (Hload subscribers 0 (subscriber false)); reflexivity. }
  destruct (Hnone fresh Hoff) as [Hsn _].
  split; [apply Hsn|]. vm_compute. reflexivity.
Defined.
End FilterFacts.

Module FrameFacts.
Import NotificationEngine Invariants.

Lemma add_job_limits e r : same_limits e (add_job e r).
Proof. done. Qed.

Lemma requeue_job_limits e r delay now :
  same_limits e (requeue_job e r delay now).
Proof.
  unfold requeue_job. destruct (jobs e !! r) as [job|]; [|done].
  simpl. by destruct (attempts job + 1 <? max_attempts job).
Qed.

Lemma record_limits e r done : same_limits e (_record_notification e r done).
Proof. unfold _record_notification. by destruct (jobs e !! r). Qed.

Lemma should_notify_limits e uid gift t now :
  same_limits e (should_notify_user e uid gift t now).1.
Proof.
  unfold should_notify_user.
  destruct (filters e !! uid) as [f|]; [|done].
  repeat match goal with
         | |- context [if ?b then (e, false) else _] => destruct b; [done|]
         end.
  done.
Qed.

Lemma same_limits_trans e1 e2 e3 :
  same_limits e1 e2 → same_limits e2 e3 → same_limits e1 e3.
Proof. intros [? ?] [? ?]. split; congruence. Qed.

Lemma create_loop_limits tpl gift t p now user_ids :
  ∀ e, same_limits e (create_loop e tpl user_ids gift t p now).1.
Proof.
  induction user_ids as [|u rest IH]; intros e; [done|].
  cbn [create_loop].
  pose proof (should_notify_limits e u gift t now) as H1.
  destruct (should_notify_user e u gift t now) as [e1 ok]. simpl in H1.
  destruct ok.
  - destruct (create_job e1 tpl u gift t p now) as [e2 jid] eqn:Hcj.
    assert (H2 : same_limits e1 e2).
    { unfold create_job in Hcj. by injection Hcj as <- _. }
    specialize (IH e2).
    destruct (create_loop e2 tpl rest gift t p now) as [e3 ids].
    simpl in *. eauto using same_limits_trans.
  - specialize (IH e1). eauto using same_limits_trans.
Qed.

Lemma create_notification_limits e user_ids gift t p now :
  same_limits e (create_notification e user_ids gift t p now).1.
Proof.
  unfold create_notification. destruct (templates t); [|done].
  apply create_loop_limits.
Qed.
End FrameFacts.

Module RateFacts.
Import NotificationEngine Invariants Examples FrameFacts.

Lemma window_mono t t' l : t ≤ t' → window t' (window t l) = window t' l.
Proof.
  intros Hle. unfold window. induction l as [|m l IH]; simpl; [done|].
  destruct (t - m <? Py.minutes 1) eqn:H1; simpl; rewrite IH; [done|].
  assert ((t' - m <? Py.minutes 1) = false) as ->; [|done].
  apply Z.ltb_ge. apply Z.ltb_ge in H1. lia.
Qed.

Lemma window_length t l : (length (window t l) ≤ length l)%nat.
Proof. apply List.filter_length_le. Qed.

Lemma window_snoc t l : window t (l ++ [t]) = window t l ++ [t].
Proof.
  unfold window. rewrite List.filter_app. simpl.
  by rewrite Z.sub_diag.
Qed.

Lemma logged_later e e' log t u t' :
  t ≤ t' → u ≤ t' →
  sent_messages e' = window u (sent_messages e) →
  rate_limits e' = rate_limits e →
  logged e log t → logged e' log t'.
Proof.
  intros Hle Hu Hsent Hlim [Heq Hcap]. unfold logged. rewrite Hlim, Hsent.
  split.
  - rewrite (window_mono u t') by done.
    rewrite <- (window_mono t t' log Hle), Heq. by apply window_mono.
  - rewrite <- (window_mono t t' log Hle).
    pose proof (window_length t' (window t log)). lia.
Qed.

Lemma logged_same e log t t' :
  t ≤ t' → logged e log t → logged e log t'.
Proof.
  intros Hle [Heq Hcap]. split.
  - rewrite <- (window_mono t t' log Hle), Heq. by apply window_mono.
  - rewrite <- (window_mono t t' log Hle).
    pose proof (window_length t' (window t log)). lia.
Qed.

Lemma send_limits e r outcome done :
  let s := _send_notification e r outcome done in
  rate_limits s.1 = rate_limits e
  ∧ (if s.2 then outcome = Delivered
                ∧ sent_messages s.1 = sent_messages e ++ [done]
     else outcome ≠ Delivered ∧ sent_messages s.1 = sent_messages e).
Proof.
  destruct outcome; cbn [_send_notification].
  - done.
  - match goal with
    | |- context [requeue_job ?e1 r wait done] =>
        destruct (requeue_job_limits e1 r wait done) as [Hs Hl]
    end.
    cbn [fst snd]. rewrite Hs, Hl. done.
  - by destruct (jobs e !! r).
  - by destruct (jobs e !! r).
  - done.
Qed.

(** What a dispatcher step does to the send log. An idle step makes
    no call and at most prunes the log to the window that ends at
    [now]. A step that calls [send_message] found the window below the
    cap, prunes the log, and records the send at [done] when the
    message was delivered. *)
Lemma process_queue_limits e now done outcome :
  let r := _process_queue e now done outcome in
  rate_limits r.1 = rate_limits e
  ∧ ((r.2 = []
      ∧ (sent_messages r.1 = sent_messages e
         ∨ sent_messages r.1 = window now (sent_messages e)))
     ∨ (r.2 ≠ []
        ∧ processing e = false ∧ processing r.1 = false
        ∧ Z.of_nat (in_window now (sent_messages e))
          < messages_per_minute (rate_limits e)
        ∧ sent_messages r.1
          = window now (sent_messages e)
            ++ (if delivered outcome then [done] else [])
        ∧ sends r.2 = (if delivered outcome then [done] else []))).
Proof.
  unfold _process_queue.
  destruct (processing e) eqn:Hp; [by split; [|left; split; [|left]]|].
  unfold _check_rate_limits.
  cbn [fst snd with_processing sent_messages rate_limits].
  fold (window now (sent_messages e)).
  destruct (messages_per_minute (rate_limits e)
            <=? Z.of_nat (length (window now (sent_messages e)))) eqn:Hcap;
    cbn [negb]; [by split; [|left; split; [|right]]|].
  apply Z.leb_gt in Hcap.
  unfold get_next_job.
  destruct (pop_first _ _) as [[r rest]|];
    [|by split; [|left; split; [|right]]].
  match goal with
  | |- context [_send_notification ?e2' r outcome done] => set (e2 := e2')
  end.
  assert (He2 : sent_messages e2 = window now (sent_messages e)
                ∧ rate_limits e2 = rate_limits e) by done.
  destruct He2 as [Hs2 Hl2].
  pose proof (send_limits e2 r outcome done) as Hsend.
  destruct (_send_notification e2 r outcome done) as [e3 success].
  cbn [fst snd] in Hsend. destruct Hsend as [Hl3 Hsend].
  destruct success.
  - destruct Hsend as [-> Hs3].
    destruct (record_limits (with_stats (add_sent (stats e3)) e3) r done)
      as [Hs4 Hl4].
    cbn [fst snd with_processing sent_messages rate_limits].
    split; [by rewrite Hl4; cbn; rewrite Hl3|].
    right. split; [done|]. repeat split; [done|].
    rewrite Hs4. cbn. by rewrite Hs3, Hs2.
  - destruct Hsend as [Hne Hs3].
    destruct (requeue_job_limits e3 r 60 done) as [Hs4 Hl4].
    cbn [fst snd with_processing sent_messages rate_limits].
    split; [by rewrite Hl4, Hl3|].
    right. split; [done|]. split; [done|]. split; [done|]. split; [done|].
    assert (delivered outcome = false) as -> by (by destruct outcome).
    rewrite app_nil_r, Hs4, Hs3, Hs2. split; [done|].
    unfold sends. cbn. by destruct outcome.
Qed.

Lemma process_queue_logged e log t now done outcome :
  logged e log t → t ≤ now → now ≤ done →
  let r := _process_queue e now done outcome in
  logged r.1 (log ++ sends r.2) done.
Proof.
  intros Hlog Ht Hnow.
  pose proof (process_queue_limits e now done outcome) as H.
  destruct (_process_queue e now done outcome) as [e' calls].
  cbn [fst snd] in *.
  destruct H as [Hl [[-> [Hs|Hs]]|(_ & _ & _ & Hcap & Hs & ->)]].
  - rewrite app_nil_r. destruct (logged_same e log t done) as [Heq Hc];
      [lia|done|]. split; [by rewrite Hs|by rewrite Hl].
  - rewrite app_nil_r.
    by apply (logged_later e e' log t now); [lia|lia|..].
  - destruct (delivered outcome).
    + destruct Hlog as [Heq Hc].
      assert (Hw : window done log
                   = window done (window now (sent_messages e))).
      { rewrite (window_mono now done) by done.
        rewrite <- (window_mono t done log) by lia. rewrite Heq.
        apply window_mono. lia. }
      unfold in_window in Hcap. split.
      * by rewrite Hs, !window_snoc, Hw.
      * rewrite Hl, window_snoc, length_app, Hw. simpl.
        pose proof (window_length done (window now (sent_messages e))). lia.
    + rewrite app_nil_r in *.
      by apply (logged_later e e' log t now); [lia|lia|..].
Qed.

Lemma exec_logged ops : ∀ e log t,
  logged e log t → monotone t ops →
  let r := exec e ops in
  logged r.1 (log ++ sends r.2) (final_time t ops).
Proof.
  induction ops as [|op rest IH]; intros e log t Hlog Hmono.
  - simpl. by rewrite app_nil_r.
  - simpl in Hmono. destruct Hmono as (Hstart & Hend & Hrest).
    cbn [exec final_time].
    destruct (exec_op e op) as [e1 calls1] eqn:Hop.
    assert (Hlog1 : logged e1 (log ++ sends calls1) (op_end op)).
    { destruct op as [now done outcome|user_ids gift k p now];
        simpl in Hop, Hstart, Hend.
      - pose proof (process_queue_logged e log t now done outcome
                      Hlog Hstart Hend) as H.
        by rewrite Hop in H.
      - injection Hop as <- <-. unfold sends. simpl. rewrite app_nil_r.
        destruct (create_notification_limits e user_ids gift k p now)
          as [Hs Hl].
        destruct (logged_same e log t now Hstart Hlog) as [Heq Hcap].
        split; [by rewrite Hs|by rewrite Hl]. }
    specialize (IH e1 _ _ Hlog1 Hrest).
    destruct (exec e1 rest) as [e2 calls2]. simpl in *.
    unfold sends in *. by rewrite List.filter_app, map_app, app_assoc.
Qed.

Lemma exec_rate_limits ops : ∀ e,
  rate_limits (exec e ops).1 = rate_limits e.
Proof.
  induction ops as [|op rest IH]; intros e; [done|].
  cbn [exec].
  destruct (exec_op e op) as [e1 calls1] eqn:Hop.
  assert (Hl : rate_limits e1 = rate_limits e).
  { destruct op as [now done outcome|user_ids gift k p now]; simpl in Hop.
    - pose proof (process_queue_limits e now done outcome) as [H _].
      by rewrite Hop in H.
    - injection Hop as <- <-. apply create_notification_limits. }
  specialize (IH e1). destruct (exec e1 rest) as [e2 calls2].
  cbn [fst] in *. congruence.
Qed.

Lemma process_queue_at_cap e now done outcome :
  processing e = false →
  messages_per_minute (rate_limits e)
  ≤ Z.of_nat (in_window now (sent_messages e)) →
  _process_queue e now done outcome
  = (with_sent_messages (window now (sent_messages e)) e, []).
Proof.
  intros Hp Hcap. unfold _process_queue, _check_rate_limits. rewrite Hp.
  cbn [fst snd with_processing sent_messages rate_limits].
  fold (window now (sent_messages e)). unfold in_window in Hcap.
  fold (window now (sent_messages e)) in Hcap.
  apply Z.leb_le in Hcap. rewrite Hcap. cbn [negb].
  destruct e. simpl in *. by subst.
Qed.

(** C8 (amended). In every execution from start-up whose clock never
    goes back, at every instant from the last operation on, at most 20
    messages (the default cap) were delivered in the 60 seconds that end
    there, a delivery being a call of [send_message] that returned: the
    calls that raise are not logged and the window does not bound them.
    And a dispatcher step that finds 20 deliveries in the window that
    ends at [now] takes no job and calls nothing: it only prunes the
    send log to that window, until enough of its instants are 60 s
    old. *)
Theorem C8_rate_limit users t0 ops t :
  monotone t0 ops → final_time t0 ops ≤ t →
  (in_window t (sends (exec (init users t0) ops).2) ≤ 20)%nat
  ∧ (∀ e now done outcome,
       processing e = false →
       messages_per_minute (rate_limits e)
       ≤ Z.of_nat (in_window now (sent_messages e)) →
       _process_queue e now done outcome
       = (with_sent_messages (window now (sent_messages e)) e, [])).
Proof.
  intros Hmono Ht. split; [|apply process_queue_at_cap].
  assert (Hinit : logged (init users t0) [] t0) by done.
  pose proof (exec_logged ops _ _ _ Hinit Hmono) as Hfin.
  cbn [app] in Hfin.
  apply (logged_same _ _ _ t Ht) in Hfin. destruct Hfin as [_ Hcap].
  rewrite exec_rate_limits in Hcap. unfold in_window.
  fold (window t (sends (exec (init users t0) ops).2)).
  change (messages_per_minute (rate_limits (init users t0))) with 20 in Hcap.
  lia.
Qed.
Lemma C8_rate_limit_witness :
  (in_window (s 3)
     (sends (exec (init subscribers 0)
               [Notify [1; 2] (golden false) NEW_GIFT HIGH 0;
                Step (s 1) (s 1) Delivered;
                Step (s 2) (s 3) Delivered]).2)%Z ≤ 20)%nat
  ∧ _process_queue at_cap (s 2) (s 2) Delivered
    = (with_sent_messages (window (s 2) (sent_messages at_cap)) at_cap, []).
Proof.
  destruct (C8_rate_limit subscribers 0
              [Notify [1; 2] (golden false) NEW_GIFT HIGH 0;
               Step (s 1) (s 1) Delivered;
               Step (s 2) (s 3) Delivered] (s 3)) as [Hcap Hidle].
  - cbn. repeat split; by vm_compute.
  - by vm_compute.
  - split; [exact Hcap|]. apply Hidle; by vm_compute.
Defined.
End RateFacts.

Module HistoryFacts.
Import NotificationEngine.

Lemma recent_idem now l : recent now (recent now l) = recent now l.
Proof.
  unfold recent. induction l as [|n l IH]; simpl; [done|].
  destruct (now - timestamp n <? Py.hours 1) eqn:H; simpl; [|done].
  by rewrite H, IH.
Qed.

Lemma counted_frequency e u t now uid k :
  counted (_check_notification_frequency e u t now).1 uid k now
  = counted e uid k now.
Proof.
  unfold counted, _check_notification_frequency.
  cbn [fst with_notification_history notification_history].
  destruct (decide (u = uid)) as [->|Hne].
  - rewrite lookup_insert_eq. cbn [from_option id].
    change (List.filter _ ?l) with (recent now l).
    by rewrite recent_idem.
  - by rewrite lookup_insert_ne.
Qed.

Lemma counted_should_notify e u gift t now uid k :
  counted (should_notify_user e u gift t now).1 uid k now
  = counted e uid k now.
Proof.
  unfold should_notify_user.
  destruct (filters e !! u) as [f|]; [|done].
  repeat match goal with
         | |- context [if ?b then (e, false) else _] => destruct b; [done|]
         end.
  apply counted_frequency.
Qed.

Lemma create_job_history e tpl u gift t p now :
  notification_history (create_job e tpl u gift t p now).1
  = notification_history e.
Proof. done. Qed.

Lemma counted_create_loop tpl gift t p now uid k user_ids : ∀ e,
  counted (create_loop e tpl user_ids gift t p now).1 uid k now
  = counted e uid k now.
Proof.
  induction user_ids as [|u rest IH]; intros e; [done|].
  cbn [create_loop].
  pose proof (counted_should_notify e u gift t now uid k) as H1.
  destruct (should_notify_user e u gift t now) as [e1 ok].
  cbn [fst] in H1. destruct ok.
  - pose proof (create_job_history e1 tpl u gift t p now) as H2.
    destruct (create_job e1 tpl u gift t p now) as [e2 jid].
    cbn [fst] in H2. specialize (IH e2).
    destruct (create_loop e2 tpl rest gift t p now) as [e3 ids].
    cbn [fst] in *. rewrite IH, <- H1. unfold counted. by rewrite H2.
  - by rewrite IH.
Qed.

Lemma counted_create_notification e user_ids gift t p now uid k :
  counted (create_notification e user_ids gift t p now).1 uid k now
  = counted e uid k now.
Proof.
  unfold create_notification. destruct (templates t); [|done].
  apply counted_create_loop.
Qed.

Lemma requeue_job_history e r delay now :
  notification_history (requeue_job e r delay now) = notification_history e.
Proof.
  unfold requeue_job. destruct (jobs e !! r) as [job|]; [|done].
  cbn. by destruct (attempts job + 1 <? max_attempts job).
Qed.

Lemma send_history e r outcome done :
  notification_history (_send_notification e r outcome done).1
  = notification_history e.
Proof.
  destruct outcome; cbn [_send_notification fst]; try done.
  - by rewrite requeue_job_history.
  - by destruct (jobs e !! r).
  - by destruct (jobs e !! r).
Qed.

Lemma pop_first_Some p l r rest :
  pop_first p l = Some (r, rest) → p r = true ∧ r ∈ l.
Proof.
  revert r rest. induction l as [|x l IH]; intros r rest H; [done|].
  simpl in H. destruct (p x) eqn:Hx.
  - injection H as <- <-. split; [done|left].
  - destruct (pop_first p l) as [[y rest']|]; [|done].
    injection H as <- <-. destruct (IH _ _ eq_refl). split; [done|by right].
Qed.

Lemma pop_first_is_Some p l r :
  r ∈ l → p r = true → is_Some (pop_first p l).
Proof.
  induction l as [|x l IH]; intros Hin Hp; [by apply elem_of_nil in Hin|].
  simpl. destruct (p x) eqn:Hx; [eauto|].
  apply elem_of_cons in Hin as [->|Hin]; [congruence|].
  destruct (IH Hin Hp) as [[y rest] ->]. eauto.
Qed.

Lemma eligible_job js now r :
  eligible js now r = true → ∃ job, js !! r = Some job.
Proof. unfold eligible. destruct (js !! r); [eauto|done]. Qed.
End HistoryFacts.

Module DispatchFacts.
Import NotificationEngine Invariants Examples FrameFacts RateFacts HistoryFacts.

(** The gates of the dispatcher step are the [processing] flag, the
    per-minute window and the eligibility of a queued job, and nothing
    else: when all three are open, the step calls [send_message]. *)
Lemma process_queue_enabled e now done outcome r :
  processing e = false →
  Z.of_nat (in_window now (sent_messages e))
  < messages_per_minute (rate_limits e) →
  r ∈ queue e → eligible (jobs e) now r = true →
  ∃ c, (_process_queue e now done outcome).2 = [c]
       ∧ call_ref c ∈ queue e
       ∧ call_outcome c = outcome ∧ call_done c = done.
Proof.
  intros Hp Hcap Hin Hel. unfold _process_queue, _check_rate_limits.
  rewrite Hp. cbn [fst snd with_processing sent_messages rate_limits].
  unfold in_window, window in Hcap. apply Z.leb_gt in Hcap.
  rewrite Hcap. cbn [negb]. unfold get_next_job.
  cbn [jobs queue with_sent_messages with_processing].
  destruct (pop_first_is_Some _ _ _ Hin Hel) as [[r' rest] Hpop].
  rewrite Hpop.
  destruct (_send_notification _ r' outcome done) as [e3 success].
  eexists. split; [reflexivity|]. cbn.
  split; [|done]. by destruct (pop_first_Some _ _ _ _ Hpop).
Qed.

(** C3 (amended). A send that is answered by a platform-imposed
    slowdown is not counted as a send and starts no cooldown: the step
    leaves the send log pruned to the window that ends at [now], and at
    every later instant, also within the N seconds of the slowdown, the
    next dispatcher step calls [send_message] for a queued job as soon
    as one is eligible. *)
Theorem C3_no_global_cooldown e now done wait :
  let r := _process_queue e now done (FloodWait wait) in
  r.2 ≠ [] →
  sends r.2 = []
  ∧ sent_messages r.1 = window now (sent_messages e)
  ∧ ∀ now' done' outcome r2,
      now ≤ now' → r2 ∈ queue r.1 → eligible (jobs r.1) now' r2 = true →
      ∃ c, (_process_queue r.1 now' done' outcome).2 = [c]
           ∧ call_ref c ∈ queue r.1
           ∧ call_outcome c = outcome ∧ call_done c = done'.
Proof.
  intros r Hcall.
  destruct (process_queue_limits e now done (FloodWait wait))
    as [Hl [[Hnone _]|(_ & _ & Hp & Hcap & Hs & Hsends)]]; [done|].
  fold r in Hl, Hp, Hs, Hsends. cbn [delivered] in Hs, Hsends.
  rewrite app_nil_r in Hs.
  split; [done|]. split; [done|].
  intros now' done' outcome r2 Hle Hin Hel.
  apply process_queue_enabled with (r := r2); try done.
  rewrite Hl, Hs.
  pose proof (window_length now' (window now (sent_messages e))).
  unfold in_window in *. lia.
Qed.

Lemma C3_no_global_cooldown_witness :
  ∃ c, (_process_queue
          (_process_queue two_jobs (s 1) (s 1) (FloodWait 30)).1
          (s 2) (s 2) Delivered).2 = [c]
       ∧ call_outcome c = Delivered ∧ call_done c = s 2.
Proof.
  destruct (C3_no_global_cooldown two_jobs (s 1) (s 1) 30) as (_ & _ & H).
  { by vm_compute. }
  destruct (H (s 2) (s 2) Delivered 0%nat) as (c & Hc & _ & Ho & Hd).
  - by vm_compute.
  - vm_compute. repeat constructor.
  - by vm_compute.
  - exists c. done.
Defined.

(** The handler of [FloodWait] in [_send_notification]: the job is due
    [wait] seconds after [done], with one more attempt. *)
Lemma flood_wait_handler e r job wait done :
  jobs e !! r = Some job →
  let s := _send_notification e r (FloodWait wait) done in
  s.2 = false
  ∧ jobs s.1 !! r = Some (retried job (done + Py.seconds wait))
  ∧ sent_messages s.1 = sent_messages e.
Proof.
  intros Hjob. cbn [_send_notification fst snd]. split; [done|].
  unfold requeue_job. cbn [jobs with_jobs].
  rewrite lookup_alter_eq, Hjob. cbn [fmap option_fmap option_map].
  match goal with |- context [if ?b then _ else _] => destruct b end;
    cbn; by rewrite lookup_insert_eq.
Qed.

Lemma requeue_job_lookup e r job delay now :
  jobs e !! r = Some job →
  jobs (requeue_job e r delay now) !! r
  = Some (retried job (now + Py.seconds delay)).
Proof.
  intros Hjob. unfold requeue_job. rewrite Hjob. cbn zeta.
  destruct (_ <? _); cbn; by rewrite lookup_insert_eq.
Qed.

(** The slip behind the double count: a step whose send is answered by
    a slowdown calls [requeue_job] twice on the job object, once in
    [_send_notification] with the delay of the slowdown and once in
    [_process_queue] with the fixed 60 s. The job ends with two more
    attempts and is due 60 s after the send. *)
Lemma flood_wait_uses_two_attempts e now done wait c :
  (_process_queue e now done (FloodWait wait)).2 = [c] →
  ∃ job,
    jobs e !! call_ref c = Some job
    ∧ jobs (_process_queue e now done (FloodWait wait)).1 !! call_ref c
      = Some (retried (retried job (done + Py.seconds wait))
                (done + Py.seconds 60)).
Proof.
  unfold _process_queue, _check_rate_limits.
  destruct (processing e); [done|].
  cbn [fst snd]. destruct (negb (negb _)); [done|].
  unfold get_next_job.
  cbn [jobs queue with_sent_messages with_processing].
  destruct (pop_first _ _) as [[r rest]|] eqn:Hpop; [|done].
  destruct (pop_first_Some _ _ _ _ Hpop) as [Hel _].
  destruct (eligible_job _ _ _ Hel) as [job Hjob].
  match goal with
  | |- context [_send_notification ?e2' r _ done] => set (e2 := e2')
  end.
  assert (Hjob2 : jobs e2 !! r = Some job) by done.
  destruct (flood_wait_handler e2 r job wait done Hjob2) as (Hok & Hj3 & _).
  destruct (_send_notification e2 r (FloodWait wait) done) as [e3 success].
  cbn [fst snd] in *. subst success.
  intros [= <-]. cbn [call_ref]. exists job. split; [done|].
  change (jobs (with_processing false ?x)) with (jobs x).
  by apply requeue_job_lookup.
Qed.

Lemma requeue_job_with_users u e r delay now :
  requeue_job (with_users u e) r delay now
  = with_users u (requeue_job e r delay now).
Proof.
  unfold requeue_job. cbn [jobs with_users].
  destruct (jobs e !! r) as [job|]; [|done].
  cbn zeta. by destruct (_ <? _).
Qed.

(** A blocked recipient goes down the retry path: but for the flag the
    handler clears in the subscriber store, a step whose send raises
    [UserIsBlocked] leaves the engine exactly as a step whose send raises
    any other error. *)
Lemma blocked_handled_as_transient e now done :
  let blocked := _process_queue e now done UserIsBlocked in
  let other := _process_queue e now done OtherError in
  blocked.1 = with_users (users blocked.1) other.1
  ∧ map call_ref blocked.2 = map call_ref other.2.
Proof.
  unfold _process_queue, _check_rate_limits.
  destruct (processing e); [by destruct e|].
  cbn [fst snd]. destruct (negb (negb _)); [done|].
  unfold get_next_job.
  cbn [jobs queue with_sent_messages with_processing].
  destruct (pop_first _ _) as [[r rest]|] eqn:Hpop; [|done].
  destruct (pop_first_Some _ _ _ _ Hpop) as [Hel _].
  destruct (eligible_job _ _ _ Hel) as [job Hjob].
  cbn [_send_notification jobs with_queue with_sent_messages with_processing].
  rewrite Hjob. cbn [fst snd]. split; [|done].
  unfold _mark_user_inactive. rewrite requeue_job_with_users.
  by cbn.
Qed.

Lemma same_type_count_snoc k l n :
  same_type_count k (l ++ [n])
  = same_type_count k l + (if bool_decide (entry_type n = k) then 1 else 0).
Proof.
  unfold same_type_count. rewrite List.filter_app, length_app. simpl.
  destruct (bool_decide (entry_type n = k)); simpl; lia.
Qed.

Lemma recent_snoc done l ty jid :
  recent done (l ++ [mkEntry ty done jid])
  = recent done l ++ [mkEntry ty done jid].
Proof.
  unfold recent. rewrite List.filter_app. simpl. by rewrite Z.sub_diag.
Qed.

Lemma counted_record e r job done uid k :
  jobs e !! r = Some job →
  counted (_record_notification e r done) uid k done
  = counted e uid k done
    + (if (user_id job =? uid) && bool_decide (notification_type job = k)
       then 1 else 0).
Proof.
  intros Hjob. unfold counted, _record_notification. rewrite Hjob.
  cbn [notification_history with_notification_history].
  destruct (user_id job =? uid) eqn:Hu.
  - apply Z.eqb_eq in Hu. rewrite Hu, lookup_insert_eq.
    cbn [from_option id]. rewrite recent_snoc, same_type_count_snoc.
    done.
  - apply Z.eqb_neq in Hu. rewrite lookup_insert_ne by done. simpl. lia.
Qed.

(** The history after a dispatcher step. *)
Lemma counted_process_queue e now done outcome uid k :
  let r := _process_queue e now done outcome in
  counted r.1 uid k done
  = counted e uid k done
    + match r.2 with
      | [c] =>
          if delivered (call_outcome c) && (call_user_id c =? uid)
             && bool_decide (notification_type <$> jobs e !! call_ref c
                             = Some k)
          then 1 else 0
      | _ => 0
      end.
Proof.
  unfold _process_queue.
  destruct (processing e); [cbn; lia|].
  unfold _check_rate_limits. cbn [fst snd].
  destruct (negb (negb _)); [cbn; unfold counted; cbn; lia|].
  unfold get_next_job.
  cbn [jobs queue with_sent_messages with_processing].
  destruct (pop_first _ _) as [[r rest]|] eqn:Hpop;
    [|cbn; unfold counted; cbn; lia].
  destruct (pop_first_Some _ _ _ _ Hpop) as [Hel _].
  destruct (eligible_job _ _ _ Hel) as [job Hjob].
  match goal with
  | |- context [_send_notification ?e2' r outcome done] => set (e2 := e2')
  end.
  assert (Hh2 : notification_history e2 = notification_history e) by done.
  assert (Hj2 : jobs e2 = jobs e) by done.
  pose proof (send_history e2 r outcome done) as Hh3.
  pose proof (send_limits e2 r outcome done) as [_ Hsucc].
  assert (Hj3 : delivered outcome = true →
                jobs (_send_notification e2 r outcome done).1 = jobs e2).
  { by destruct outcome. }
  destruct (_send_notification e2 r outcome done) as [e3 success].
  cbn [fst snd] in *.
  assert (Hcu : call_user e2 r = user_id job).
  { unfold call_user. by rewrite Hj2, Hjob. }
  cbn [fst snd call_ref call_user_id call_outcome call_done].
  rewrite Hcu, Hjob. cbn [fmap option_fmap option_map].
  destruct success.
  - destruct Hsucc as [-> _]. cbn [delivered andb].
    specialize (Hj3 eq_refl).
    change (counted (with_processing false ?x) uid k done)
      with (counted x uid k done).
    rewrite (counted_record _ r job).
    2:{ cbn. by rewrite Hj3, Hj2. }
    unfold counted at 1. cbn [notification_history with_stats].
    rewrite Hh3, Hh2. fold (counted e uid k done). f_equal.
    destruct (user_id job =? uid); [|done]. cbn [andb].
    destruct (decide (notification_type job = k)) as [->|Hne].
    + by rewrite !bool_decide_eq_true_2.
    + rewrite !bool_decide_eq_false_2; [done| |done]. congruence.
  - destruct Hsucc as [Hne _].
    assert (delivered outcome = false) as -> by (by destruct outcome).
    cbn [andb]. unfold counted.
    cbn [notification_history with_processing].
    rewrite requeue_job_history, Hh3, Hh2. lia.
Qed.

(** C5 (amended). No entry is recorded when the filter accepts a user
    or when the job is queued: [create_notification] leaves the
    deliveries counted for every user and kind in the trailing hour
    unchanged, whether it queues jobs or not. An entry is recorded
    exactly when a send succeeds: a dispatcher step adds one to the
    count of the user and kind of the job it delivered, and changes no
    count otherwise. *)
Theorem C5_quota_counts_deliveries :
  (∀ e user_ids gift t p now uid k,
     counted (create_notification e user_ids gift t p now).1 uid k now
     = counted e uid k now)
  ∧ (∀ e now done outcome uid k,
       let r := _process_queue e now done outcome in
       counted r.1 uid k done
       = counted e uid k done
         + match r.2 with
           | [c] =>
               if delivered (call_outcome c) && (call_user_id c =? uid)
                  && bool_decide (notification_type <$> jobs e !! call_ref c
                                  = Some k)
               then 1 else 0
           | _ => 0
           end).
Proof.
  split.
  - apply counted_create_notification.
  - apply counted_process_queue.
Qed.
End DispatchFacts.

Module QueueFacts.
Import NotificationEngine Invariants HistoryFacts.

Section order.
Variable key : nat → Z * Z.

Lemma key_lt_spec a b :
  key_lt a b = true ↔ a.1 < b.1 ∨ (a.1 = b.1 ∧ a.2 < b.2).
Proof.
  unfold key_lt.
  rewrite orb_true_iff, andb_true_iff, !Z.ltb_lt, Z.eqb_eq. done.
Qed.

Lemma key_ge_spec a b :
  key_lt a b = false ↔ b.1 < a.1 ∨ (a.1 = b.1 ∧ b.2 ≤ a.2).
Proof.
  destruct (key_lt a b) eqn:H.
  - apply key_lt_spec in H. split; [done|]. lia.
  - split; [intros _|done].
    destruct (decide (b.1 < a.1)); [by left|]. right.
    destruct (decide (a.1 = b.1 ∧ b.2 ≤ a.2)); [done|].
    assert (key_lt a b = true); [|congruence].
    apply key_lt_spec. lia.
Qed.

Lemma before_refl a : before key a a.
Proof. apply key_ge_spec. lia. Qed.

Lemma before_trans a b c : before key a b → before key b c → before key a c.
Proof. unfold before. rewrite !key_ge_spec. lia. Qed.

Lemma before_total a b : key_lt (key a) (key b) = true → before key b a.
Proof. unfold before. rewrite key_lt_spec, key_ge_spec. lia. Qed.

Lemma insert_sorted_elem x l z :
  z ∈ insert_sorted key x l ↔ z = x ∨ z ∈ l.
Proof.
  induction l as [|y l IH]; simpl.
  - rewrite list_elem_of_singleton. split; [auto|]. intros [?|H]; [done|].
    by apply elem_of_nil in H.
  - destruct (key_lt (key x) (key y)).
    + rewrite !elem_of_cons, IH. tauto.
    + rewrite !elem_of_cons. tauto.
Qed.

Lemma insert_sorted_sorted x l :
  sorted key l → sorted key (insert_sorted key x l).
Proof.
  unfold sorted. induction 1 as [|y l Hl IH Hy]; simpl.
  - repeat constructor.
  - destruct (key_lt (key x) (key y)) eqn:Hxy.
    + constructor; [done|]. apply Forall_forall. intros z Hz.
      apply insert_sorted_elem in Hz as [->|Hz].
      * by apply before_total.
      * by apply (proj1 (Forall_forall _ _) Hy).
    + constructor; [by constructor|]. constructor; [done|].
      apply Forall_forall. intros z Hz.
      apply before_trans with y; [done|].
      by apply (proj1 (Forall_forall _ _) Hy).
Qed.

Lemma sort_reverse_sorted l : sorted key (sort_reverse key l).
Proof.
  induction l as [|x l IH]; simpl; [constructor|].
  by apply insert_sorted_sorted.
Qed.

Lemma sort_reverse_elem l z : z ∈ sort_reverse key l ↔ z ∈ l.
Proof.
  induction l as [|x l IH]; simpl; [done|].
  rewrite insert_sorted_elem, elem_of_cons, IH. done.
Qed.

Lemma insert_sorted_perm x l : insert_sorted key x l ≡ₚ x :: l.
Proof.
  induction l as [|y l IH]; simpl; [done|].
  destruct (key_lt (key x) (key y)); [|done].
  rewrite IH. apply Permutation_swap.
Qed.

Lemma sort_reverse_perm l : sort_reverse key l ≡ₚ l.
Proof.
  induction l as [|x l IH]; simpl; [done|].
  by rewrite insert_sorted_perm, IH.
Qed.

(** The sort is stable: the jobs of one key keep their order. *)
Lemma insert_sorted_stable x l k :
  List.filter (λ y, bool_decide (key y = k)) (insert_sorted key x l)
  = List.filter (λ y, bool_decide (key y = k)) (x :: l).
Proof.
  induction l as [|y l IH]; [done|].
  cbn [insert_sorted]. destruct (key_lt (key x) (key y)) eqn:Hlt; [|done].
  cbn [List.filter] in *. rewrite IH.
  destruct (bool_decide (key x = k)) eqn:Hx; [|done].
  destruct (bool_decide (key y = k)) eqn:Hy; [|done].
  apply bool_decide_eq_true in Hx, Hy. rewrite Hx, Hy in Hlt.
  apply key_lt_spec in Hlt. lia.
Qed.

Lemma sort_reverse_stable l k :
  List.filter (λ y, bool_decide (key y = k)) (sort_reverse key l)
  = List.filter (λ y, bool_decide (key y = k)) l.
Proof.
  induction l as [|x l IH]; [done|].
  cbn [sort_reverse]. rewrite insert_sorted_stable.
  cbn [List.filter]. by rewrite IH.
Qed.

Lemma pop_first_sorted p l r rest :
  sorted key l → pop_first p l = Some (r, rest) → sorted key rest.
Proof.
  unfold sorted. intros Hs. revert r rest.
  induction Hs as [|x l Hl IH Hx]; intros r rest Hpop; [done|].
  simpl in Hpop. destruct (p x).
  - by injection Hpop as <- <-.
  - destruct (pop_first p l) as [[y rest']|] eqn:Hrec; [|done].
    injection Hpop as <- <-. constructor; [by eapply IH|].
    apply Forall_forall. intros z Hz.
    apply (proj1 (Forall_forall _ _) Hx).
    clear -Hrec Hz. revert y rest' Hrec z Hz.
    induction l as [|w l IHl]; intros y rest' Hrec z Hz; [done|].
    simpl in Hrec. destruct (p w).
    + injection Hrec as <- <-. by right.
    + destruct (pop_first p l) as [[y' rest'']|]; [|done].
      injection Hrec as <- <-.
      apply elem_of_cons in Hz as [->|Hz]; [left|right]. eauto.
Qed.

(** In a sorted queue the job that is popped is an eligible one with
    the greatest key. *)
Lemma pop_first_greatest p l r rest :
  sorted key l → pop_first p l = Some (r, rest) →
  p r = true ∧ r ∈ l
  ∧ ∀ r', r' ∈ l → p r' = true → before key r r'.
Proof.
  unfold sorted. intros Hs. revert r rest.
  induction Hs as [|x l Hl IH Hx]; intros r rest Hpop; [done|].
  simpl in Hpop. destruct (p x) eqn:Hpx.
  - injection Hpop as <- <-. split; [done|]. split; [left|].
    intros r' [->|Hr']%elem_of_cons _; [apply before_refl|].
    by apply (proj1 (Forall_forall _ _) Hx).
  - destruct (pop_first p l) as [[y rest']|] eqn:Hrec; [|done].
    injection Hpop as <- <-.
    destruct (IH _ _ eq_refl) as (Hp & Hin & Hmax).
    split; [done|]. split; [by right|].
    intros r' [->|Hr']%elem_of_cons Hpr'; [congruence|]. by apply Hmax.
Qed.
End order.

Lemma sorted_ext key key' l :
  (∀ r, key r = key' r) → sorted key l → sorted key' l.
Proof.
  intros Hext. unfold sorted. induction 1 as [|x l Hl IH Hx]; constructor;
    [done|].
  eapply Forall_impl; [exact Hx|]. intros z. unfold before.
  by rewrite !Hext.
Qed.

Lemma add_job_sorted e r : sorted_queue (add_job e r).
Proof. apply sort_reverse_sorted. Qed.

Lemma sort_key_insert js r job job' :
  js !! r = Some job →
  priority job' = priority job → created_at job' = created_at job →
  ∀ x, sort_key js x = sort_key (<[r := job']> js) x.
Proof.
  intros Hjob Hp Hc x. unfold sort_key.
  destruct (decide (r = x)) as [->|Hne].
  - by rewrite lookup_insert_eq, Hjob, Hp, Hc.
  - by rewrite lookup_insert_ne.
Qed.

Lemma sort_key_alter js r f :
  (∀ job, priority (f job) = priority job
          ∧ created_at (f job) = created_at job) →
  ∀ x, sort_key js x = sort_key (alter f r js) x.
Proof.
  intros Hf x. unfold sort_key.
  destruct (decide (r = x)) as [->|Hne].
  - rewrite lookup_alter_eq. destruct (js !! x) as [job|]; [|done].
    simpl. by destruct (Hf job) as [-> ->].
  - by rewrite lookup_alter_ne.
Qed.

Lemma requeue_job_sorted e r delay now :
  sorted_queue e → sorted_queue (requeue_job e r delay now).
Proof.
  intros Hs. unfold requeue_job.
  destruct (jobs e !! r) as [job|] eqn:Hjob; [|done].
  cbn zeta. destruct (_ <? _); [apply add_job_sorted|].
  unfold sorted_queue. cbn.
  eapply sorted_ext; [|exact Hs]. by apply sort_key_insert with job.
Qed.

Lemma send_sorted e r outcome done :
  sorted_queue e → sorted_queue (_send_notification e r outcome done).1.
Proof.
  intros Hs. destruct outcome; cbn [_send_notification fst]; try done.
  - apply requeue_job_sorted. unfold sorted_queue. cbn.
    eapply sorted_ext; [|exact Hs]. by apply sort_key_alter.
  - by destruct (jobs e !! r).
  - by destruct (jobs e !! r).
Qed.

Lemma record_sorted e r done :
  sorted_queue e → sorted_queue (_record_notification e r done).
Proof. unfold _record_notification. by destruct (jobs e !! r). Qed.

Lemma process_queue_sorted e now done outcome :
  sorted_queue e → sorted_queue (_process_queue e now done outcome).1.
Proof.
  intros Hs. unfold _process_queue.
  destruct (processing e); [done|].
  unfold _check_rate_limits. cbn [fst snd].
  destruct (negb (negb _)); [done|].
  unfold get_next_job.
  cbn [jobs queue with_sent_messages with_processing].
  destruct (pop_first _ _) as [[r rest]|] eqn:Hpop; [|done].
  match goal with
  | |- context [_send_notification ?e2' r outcome done] => set (e2 := e2')
  end.
  assert (Hs2 : sorted_queue e2).
  { unfold sorted_queue. cbn. by eapply pop_first_sorted. }
  pose proof (send_sorted e2 r outcome done Hs2) as Hs3.
  destruct (_send_notification e2 r outcome done) as [e3 success].
  cbn [fst snd] in *. destruct success.
  - by apply (record_sorted (with_stats (add_sent (stats e3)) e3)).
  - by apply (requeue_job_sorted e3).
Qed.

Lemma should_notify_sorted e u gift t now :
  sorted_queue e → sorted_queue (should_notify_user e u gift t now).1.
Proof.
  intros Hs. unfold should_notify_user.
  destruct (filters e !! u) as [f|]; [|done].
  repeat match goal with
         | |- context [if ?b then (e, false) else _] => destruct b; [done|]
         end.
  done.
Qed.

Lemma create_loop_sorted tpl gift t p now user_ids : ∀ e,
  sorted_queue e → sorted_queue (create_loop e tpl user_ids gift t p now).1.
Proof.
  induction user_ids as [|u rest IH]; intros e Hs; [done|].
  cbn [create_loop].
  pose proof (should_notify_sorted e u gift t now Hs) as H1.
  destruct (should_notify_user e u gift t now) as [e1 ok].
  cbn [fst] in H1. destruct ok; [|by apply IH].
  assert (H2 : sorted_queue (create_job e1 tpl u gift t p now).1)
    by apply add_job_sorted.
  destruct (create_job e1 tpl u gift t p now) as [e2 jid].
  specialize (IH e2 H2).
  by destruct (create_loop e2 tpl rest gift t p now) as [e3 ids].
Qed.

Lemma exec_sorted ops : ∀ e, sorted_queue e → sorted_queue (exec e ops).1.
Proof.
  induction ops as [|op rest IH]; intros e Hs; [done|].
  cbn [exec].
  assert (H1 : sorted_queue (exec_op e op).1).
  { destruct op as [now done outcome|user_ids gift k p now]; cbn [exec_op].
    - by apply process_queue_sorted.
    - cbn [fst]. unfold create_notification.
      destruct (templates k); [|done]. by apply create_loop_sorted. }
  destruct (exec_op e op) as [e1 calls1]. specialize (IH e1 H1).
  by destruct (exec e1 rest) as [e2 calls2].
Qed.

(** What [get_next_job] returns in every state an execution reaches:
    an eligible job such that no eligible job of the queue has a higher
    priority, or the same priority and a later [created_at]. *)
Lemma get_next_job_greatest users t0 ops now r e' :
  let e := (exec (init users t0) ops).1 in
  get_next_job e now = Some (r, e') →
  r ∈ queue e ∧ eligible (jobs e) now r = true
  ∧ ∀ r', r' ∈ queue e → eligible (jobs e) now r' = true →
          key_lt (sort_key (jobs e) r) (sort_key (jobs e) r') = false.
Proof.
  intros e Hget. unfold get_next_job in Hget.
  destruct (pop_first _ _) as [[x rest]|] eqn:Hpop; [|done].
  injection Hget as <- <-.
  assert (Hs : sorted_queue e).
  { apply exec_sorted. unfold sorted_queue. constructor. }
  destruct (pop_first_greatest _ _ _ _ _ Hs Hpop) as (? & ? & ?). done.
Qed.
End QueueFacts.

(** ** The dispatcher on concrete queues *)

Module Scenarios.
Import NotificationEngine Examples.

(** The example of the specification. Job A (user 1, NORMAL, created at
    0 s), job B (user 3, URGENT, created at 5 s) and job C (user 2,
    NORMAL, created at 0 s) are queued in this order: the dispatcher
    serves B, A, C. A and C have one key, and the sort keeps them in the
    order of insertion. *)
Lemma queue_order_example :
  let e := enqueue (enqueue (enqueue fresh 1 NORMAL 0) 3 URGENT (s 5))
             2 NORMAL 0 in
  called (exec e [Step (s 10) (s 10) Delivered;
                  Step (s 11) (s 11) Delivered;
                  Step (s 12) (s 12) Delivered]).2
  = [3; 1; 2].
Proof. by vm_compute. Qed.

(** C1 fails on its tie-break. Two jobs of the same priority, created
    at 0 s for user 1 and at 5 s for user 2, are both eligible at 10 s:
    [get_next_job] returns the job created last, not the earliest one,
    and the dispatcher sends to user 2 before user 1. *)
Theorem C1_latest_created_first :
  let e := (exec fresh
              [Notify [1] (golden false) NEW_GIFT HIGH 0;
               Notify [2] (golden false) NEW_GIFT HIGH (s 5)]).1 in
  (created_at <$> jobs e !! 0%nat) = Some 0
  ∧ (created_at <$> jobs e !! 1%nat) = Some (s 5)
  ∧ (priority <$> jobs e !! 0%nat) = (priority <$> jobs e !! 1%nat)
  ∧ eligible (jobs e) (s 10) 0 = true
  ∧ eligible (jobs e) (s 10) 1 = true
  ∧ (fst <$> get_next_job e (s 10)) = Some 1%nat
  ∧ called (exec e [Step (s 10) (s 10) Delivered;
                    Step (s 11) (s 11) Delivered]).2 = [2; 1].
Proof. by vm_compute. Qed.

(** C2 fails on the discard. The send of the only queued job, for user
    1, raises [UserIsBlocked] at 1 s: the user's notifications are
    turned off in the store, but the job is back in the queue with one
    attempt used and due 60 s later, and the dispatcher calls
    [send_message] for the blocked user twice more before the job is
    counted as failed. *)
Theorem C2_blocked_job_retried :
  let r := exec one_job [Step (s 1) (s 1) UserIsBlocked] in
  called r.2 = [1]
  ∧ (Db.notifications_enabled <$> users r.1 !! 1) = Some false
  ∧ queue r.1 = [0%nat]
  ∧ progress r.1 0 = Some (1, s 61)
  ∧ let r' := exec r.1 [Step (s 61) (s 61) UserIsBlocked;
                        Step (s 121) (s 121) UserIsBlocked;
                        Step (s 181) (s 181) UserIsBlocked] in
    called r'.2 = [1; 1]
    ∧ queue r'.1 = []
    ∧ total_failed (stats r'.1) = 1.
Proof. by vm_compute. Qed.

(** C8, as stated, fails for the calls of [send_message]: with 27 jobs
    queued, 25 dispatcher steps one second apart, each with a send that
    raises, make 25 calls in 25 seconds; none is logged, so the window
    stays empty and the cap is never reached. *)
Lemma C8_counterexample :
  let ops := replicate 9 (Notify [1; 2; 3] (golden false) NEW_GIFT HIGH 0)
             ++ map (λ i, Step (s i) (s i) OtherError) (seqZ 1 25) in
  let r := exec fresh ops in
  monotone 0 ops
  ∧ final_time 0 ops = s 25
  ∧ length r.2 = 25%nat
  ∧ in_window (s 25) (map call_done r.2) = 25%nat
  ∧ sends r.2 = []
  ∧ sent_messages r.1 = [].
Proof. split; [cbn; repeat split; by vm_compute|by vm_compute]. Qed.

(** Two counts whose quotient rounds beyond the floats: the division
    raises [OverflowError], which [format_new_gift] lets through and
    [_generate_message] answers with the text of its generic [except]
    clause. *)
Lemma percentage_overflow_example :
  let huge :=
    mkGift 42 "Golden Star" 500 true false false false None None
      (Some (10 ^ 400)) (Some 1) 0 in
  availability huge = inl OverflowError
  ∧ Formatter.format_new_gift (λ _, true) huge = inl OverflowError
  ∧ (∀ tpl, templates NEW_GIFT = Some tpl →
            _generate_message tpl huge 0 = Failed).
Proof.
  split; [by vm_compute|]. split; [by vm_compute|].
  intros tpl [= <-]. by vm_compute.
Qed.

(** C3, as stated, fails: the send to user 1 is answered at 1 s by a
    slowdown of 30 s, and at 2 s, inside those 30 s, the dispatcher
    sends the job of user 2. *)
Lemma C3_counterexample :
  let r := exec two_jobs [Step (s 1) (s 1) (FloodWait 30);
                          Step (s 2) (s 2) Delivered] in
  map (λ c, (call_user_id c, call_outcome c, call_done c)) r.2
  = [(1, FloodWait 30, s 1); (2, Delivered, s 2)]
  ∧ s 2 < s 1 + s 30.
Proof. by vm_compute. Qed.

(** The job object after a slowdown: [_send_notification] and
    [_process_queue] both call [requeue_job], so one failed delivery
    uses two attempts, the job is due after the fixed 60 s, and the
    queue holds the job object twice. *)
Lemma flood_wait_requeued_twice :
  let r := exec one_job [Step (s 1) (s 1) (FloodWait 30)] in
  called r.2 = [1]
  ∧ queue r.1 = [0%nat; 0%nat]
  ∧ progress r.1 0 = Some (2, s 61).
Proof. by vm_compute. Qed.

(** Three deliveries that fail with another error: the job leaves the
    queue, is never taken again, and is counted once. *)
Lemma three_failures_counted_once :
  let r := exec one_job [Step (s 1) (s 1) OtherError;
                         Step (s 61) (s 61) OtherError;
                         Step (s 121) (s 121) OtherError;
                         Step (s 181) (s 181) Delivered] in
  called r.2 = [1; 1; 1]
  ∧ queue r.1 = []
  ∧ total_failed (stats r.1) = 1.
Proof. by vm_compute. Qed.

(** C4 fails when a slowdown is among the failures. A job with
    [max_attempts = 3] fails twice with another error and a third time
    with a slowdown: both calls of [requeue_job] count it, so
    [total_failed] is 2 for one job. And when the slowdown comes first,
    the job object is in the queue twice; the next failure counts it as
    failed while the queue still holds it, with [attempts] equal to
    [max_attempts]. *)
Theorem C4_failure_counted_twice :
  (let r := exec one_job [Step (s 1) (s 1) OtherError;
                          Step (s 61) (s 61) OtherError;
                          Step (s 121) (s 121) (FloodWait 5)] in
   (max_attempts <$> jobs one_job !! 0%nat) = Some 3
   ∧ called r.2 = [1; 1; 1]
   ∧ queue r.1 = []
   ∧ total_failed (stats r.1) = 2)
  ∧ (let r := exec one_job [Step (s 1) (s 1) (FloodWait 5);
                            Step (s 61) (s 61) OtherError] in
     called r.2 = [1; 1]
     ∧ total_failed (stats r.1) = 1
     ∧ queue r.1 = [0%nat]
     ∧ progress r.1 0 = Some (3, s 121)).
Proof. by vm_compute. Qed.

(** C5, as stated, fails: the filter accepts user 1 and the job is in
    the queue, yet the user's frequency window holds no entry, neither
    provisional nor permanent; eleven such notifications in a row are
    all accepted although the limit of the kind is ten an hour. *)
Lemma C5_counterexample :
  let r := create_notification fresh [1] (golden false) NEW_GIFT HIGH 0 in
  r.2 = [mkJobId 1 NEW_GIFT 0]
  ∧ queue r.1 = [0%nat]
  ∧ notification_history r.1 !! 1 = Some []
  ∧ counted r.1 1 NEW_GIFT 0 = 0
  ∧ limit NEW_GIFT = 10
  ∧ length (queue (exec fresh
                     (replicate 11 (Notify [1] (golden false) NEW_GIFT
                                      HIGH 0))).1) = 11%nat.
Proof. by vm_compute. Qed.

End Scenarios.

Module QueueMore.
Import NotificationEngine Invariants Examples EngineStats HistoryFacts QueueFacts.

(** [pop_first] splits the list at the first element that passes. *)
Lemma pop_first_split p l r rest :
  pop_first p l = Some (r, rest) →
  ∃ pre post,
    l = pre ++ r :: post ∧ rest = pre ++ post
    ∧ p r = true ∧ ∀ x, x ∈ pre → p x = false.
Proof.
  revert r rest. induction l as [|x l IH]; intros r rest H; [done|].
  simpl in H. destruct (p x) eqn:Hx.
  - injection H as <- <-. exists [], l. repeat split; [done|].
    intros y Hy. by apply elem_of_nil in Hy.
  - destruct (pop_first p l) as [[y rest']|]; [|done].
    injection H as <- <-.
    destruct (IH _ _ eq_refl) as (pre & post & -> & -> & Hp & Hpre).
    exists (x :: pre), post. repeat split; [done|].
    intros z [->|Hz]%elem_of_cons; [done|by apply Hpre].
Qed.

Lemma pop_first_None p l :
  pop_first p l = None → ∀ x, x ∈ l → p x = false.
Proof.
  induction l as [|x l IH]; intros H y Hy; [by apply elem_of_nil in Hy|].
  simpl in H. destruct (p x) eqn:Hx; [done|].
  destruct (pop_first p l) as [[z rest]|]; [done|].
  apply elem_of_cons in Hy as [->|Hy]; [done|by apply IH].
Qed.

(** X1. [get_next_job] takes the first job of the queue that is due and has
    attempts left: every job before it in the queue fails that test, the
    rest of the queue keeps its order, and nothing but the queue changes.
    When no job of the queue passes the test it returns [None]. *)
Theorem get_next_job_takes_first_eligible e now :
  match get_next_job e now with
  | None => ∀ r, r ∈ queue e → eligible (jobs e) now r = false
  | Some (r, e') =>
      e' = with_queue (queue e') e
      ∧ eligible (jobs e) now r = true
      ∧ ∃ pre post,
          queue e = pre ++ r :: post ∧ queue e' = pre ++ post
          ∧ ∀ x, x ∈ pre → eligible (jobs e) now x = false
  end.
Proof.
  unfold get_next_job.
  destruct (pop_first _ _) as [[r rest]|] eqn:Hpop.
  - destruct (pop_first_split _ _ _ _ Hpop) as (pre & post & ? & ? & ? & ?).
    split; [done|]. split; [done|]. by exists pre, post.
  - by apply pop_first_None.
Qed.

(** X2. In a state reached from start-up, the job [get_next_job] returns is
    due, has attempts left, and no job of the queue that is due and has
    attempts left has a higher priority. *)
Theorem get_next_job_highest_priority users t0 ops now r e' job :
  let e := (exec (init users t0) ops).1 in
  get_next_job e now = Some (r, e') →
  jobs e !! r = Some job →
  scheduled_at job ≤ now ∧ attempts job < max_attempts job
  ∧ ∀ r' job',
      r' ∈ queue e → jobs e !! r' = Some job' →
      scheduled_at job' ≤ now → attempts job' < max_attempts job' →
      priority_value (priority job') ≤ priority_value (priority job).
Proof.
  intros e Hget Hjob.
  destruct (get_next_job_greatest users t0 ops now r e' Hget)
    as (Hin & Hel & Hmax). fold e in Hin, Hel, Hmax.
  unfold eligible in Hel. rewrite Hjob in Hel.
  apply andb_true_iff in Hel as [H1 H2].
  apply Z.leb_le in H1. apply Z.ltb_lt in H2.
  split; [done|]. split; [done|].
  intros r' job' Hin' Hjob' Hs Ha.
  assert (Hel' : eligible (jobs e) now r' = true).
  { unfold eligible. rewrite Hjob'. apply andb_true_iff.
    by rewrite Z.leb_le, Z.ltb_lt. }
  specialize (Hmax r' Hin' Hel').
  apply key_ge_spec in Hmax. unfold sort_key in Hmax.
  rewrite Hjob, Hjob' in Hmax. simpl in Hmax. lia.
Qed.

Lemma get_next_job_highest_priority_witness :
  let e := (exec (init subscribers 0)
              [Notify [1] (golden false) NEW_GIFT NORMAL 0;
               Notify [2] (golden false) NEW_GIFT URGENT (s 5)]).1 in
  ∃ job, jobs e !! 1%nat = Some job ∧ user_id job = 2
         ∧ ∀ r' job', r' ∈ queue e → jobs e !! r' = Some job' →
             scheduled_at job' ≤ s 10 → attempts job' < max_attempts job' →
             priority_value (priority job') ≤ priority_value (priority job).
Proof.
  intros e.
  destruct (jobs e !! 1%nat) as [job|] eqn:Hjob; [|by vm_compute in Hjob].
  exists job. split; [done|].
  destruct (get_next_job e (s 10)) as [[r e']|] eqn:Hget;
    [|by vm_compute in Hget].
  assert (r = 1%nat) as ->.
  { vm_compute in Hget. by injection Hget as <- _. }
  destruct (get_next_job_highest_priority subscribers 0 _ _ _ _ job Hget Hjob)
    as (_ & _ & H).
  split; [|exact H].
  vm_compute in Hjob. by injection Hjob as <-.
Defined.

(** X3. [add_job] adds the job to the queue and sorts it: the new queue is a
    permutation of the old one with the job added, it is in descending order
    of (priority, created_at), jobs of equal key keep their order with the
    added job last among them, [total_queued] grows by one and the job
    objects stay as they are. *)
Theorem add_job_sorts_stably e job :
  queue (add_job e job) ≡ₚ job :: queue e
  ∧ sorted (sort_key (jobs e)) (queue (add_job e job))
  ∧ (∀ k, List.filter (λ r, bool_decide (sort_key (jobs e) r = k))
            (queue (add_job e job))
          = List.filter (λ r, bool_decide (sort_key (jobs e) r = k))
              (queue e ++ [job]))
  ∧ total_queued (stats (add_job e job)) = total_queued (stats e) + 1
  ∧ jobs (add_job e job) = jobs e.
Proof.
  unfold add_job. cbn. split; [|split; [|split]].
  - rewrite sort_reverse_perm. by rewrite Permutation_app_comm.
  - apply sort_reverse_sorted.
  - intros k. apply sort_reverse_stable.
  - done.
Qed.
End QueueMore.

Module AccountFacts.
Import NotificationEngine Invariants Examples EngineStats HistoryFacts
  QueueFacts QueueMore DispatchFacts RateFacts.

Lemma sort_reverse_length key l : length (sort_reverse key l) = length l.
Proof. apply Permutation_length, sort_reverse_perm. Qed.

Lemma accounted_add_job e r : accounted (add_job e r) = accounted e + 1.
Proof.
  unfold accounted, add_job. cbn.
  rewrite sort_reverse_length, length_app. simpl. lia.
Qed.

(** A job that is requeued is counted once more, in the queue or among
    the failed ones. *)
Lemma accounted_requeue_job e r job delay now :
  jobs e !! r = Some job →
  accounted (requeue_job e r delay now) = accounted e + 1.
Proof.
  intros Hjob. unfold requeue_job. rewrite Hjob. cbn zeta.
  destruct (_ <? _).
  - by rewrite accounted_add_job.
  - unfold accounted. cbn. lia.
Qed.

Lemma accounted_record e r done :
  accounted (_record_notification e r done) = accounted e.
Proof. unfold _record_notification. by destruct (jobs e !! r). Qed.

Lemma pop_first_length p l r rest :
  pop_first p l = Some (r, rest) → length l = S (length rest).
Proof.
  intros H. destruct (pop_first_split _ _ _ _ H) as (pre & post & -> & -> & _).
  rewrite !length_app. simpl. lia.
Qed.

Lemma process_queue_accounted e now done outcome :
  let r := _process_queue e now done outcome in
  accounted r.1 = accounted e + Z.of_nat (flood_waits r.2)
  ∧ total_sent (stats r.1)
    = total_sent (stats e) + Z.of_nat (length (sends r.2))
  ∧ next_ref r.1 = next_ref e.
Proof.
  unfold _process_queue.
  destruct (processing e); [cbn; unfold accounted; repeat split; lia|].
  unfold _check_rate_limits. cbn [fst snd].
  destruct (negb (negb _)); [cbn; unfold accounted; cbn; repeat split; lia|].
  unfold get_next_job.
  cbn [jobs queue with_sent_messages with_processing].
  destruct (pop_first _ _) as [[r rest]|] eqn:Hpop;
    [|cbn; unfold accounted; cbn; repeat split; lia].
  destruct (pop_first_Some _ _ _ _ Hpop) as [Hel _].
  destruct (eligible_job _ _ _ Hel) as [job Hjob].
  apply pop_first_length in Hpop.
  match goal with
  | |- context [_send_notification ?e2' r outcome done] => set (e2 := e2')
  end.
  assert (Hj2 : jobs e2 !! r = Some job) by done.
  assert (Ha2 : accounted e2 = accounted e - 1).
  { unfold accounted. cbn. rewrite Hpop. lia. }
  assert (Hs2 : total_sent (stats e2) = total_sent (stats e)) by done.
  assert (Hn2 : next_ref e2 = next_ref e) by done.
  clearbody e2.
  destruct outcome; cbn [_send_notification fst snd].
  - (* Delivered *)
    cbn [fst snd]. unfold sends, flood_waits. cbn.
    change (accounted (with_processing false ?x)) with (accounted x).
    rewrite accounted_record. split; [unfold accounted in *; cbn; lia|].
    split.
    + unfold _record_notification. cbn. rewrite Hj2. cbn. lia.
    + unfold _record_notification. cbn. by rewrite Hj2.
  - (* FloodWait *)
    destruct (flood_wait_handler e2 r job wait done Hj2) as (_ & Hj3 & _).
    cbn [_send_notification fst snd] in Hj3.
    set (e3 := requeue_job _ r wait done) in *.
    assert (Ha3 : accounted e3 = accounted e2 + 1).
    { subst e3.
      rewrite (accounted_requeue_job _ r
                 (set_scheduled_at job (done + Py.seconds wait))); [done|].
      cbn. by rewrite lookup_alter_eq, Hj2. }
    assert (Hs3 : total_sent (stats e3) = total_sent (stats e2)
                  ∧ next_ref e3 = next_ref e2).
    { subst e3. unfold requeue_job. cbn [jobs with_jobs].
      rewrite lookup_alter_eq, Hj2. cbn. by destruct (_ <? _). }
    clearbody e3. unfold sends, flood_waits. cbn.
    change (accounted (with_processing false ?x)) with (accounted x).
    rewrite (accounted_requeue_job e3 r _ 60 done Hj3).
    split; [lia|].
    unfold requeue_job. rewrite Hj3. cbn zeta.
    destruct Hs3 as [Hs3 Hn3].
    destruct (_ <? _); cbn; split; lia.
  - (* UserIsBlocked *)
    rewrite Hj2. cbn [fst snd]. unfold sends, flood_waits. cbn.
    change (accounted (with_processing false ?x)) with (accounted x).
    rewrite (accounted_requeue_job _ r job 60 done) by done.
    split; [unfold accounted in *; cbn; lia|].
    unfold requeue_job. cbn [jobs _mark_user_inactive with_users]. rewrite Hj2.
    cbn zeta. destruct (_ <? _); cbn; split; lia.
  - (* ChatWriteForbidden *)
    rewrite Hj2. cbn [fst snd]. unfold sends, flood_waits. cbn.
    change (accounted (with_processing false ?x)) with (accounted x).
    rewrite (accounted_requeue_job _ r job 60 done) by done.
    split; [unfold accounted in *; cbn; lia|].
    unfold requeue_job. cbn [jobs _mark_user_inactive with_users]. rewrite Hj2.
    cbn zeta. destruct (_ <? _); cbn; split; lia.
  - (* OtherError *)
    cbn [fst snd]. unfold sends, flood_waits. cbn.
    change (accounted (with_processing false ?x)) with (accounted x).
    rewrite (accounted_requeue_job _ r job 60 done) by done.
    split; [lia|].
    unfold requeue_job. rewrite Hj2.
    cbn zeta. destruct (_ <? _); cbn; split; lia.
Qed.

Lemma create_loop_accounted tpl gift t p now user_ids : ∀ e,
  let r := create_loop e tpl user_ids gift t p now in
  accounted r.1 = accounted e + Z.of_nat (length r.2)
  ∧ next_ref r.1 = (next_ref e + length r.2)%nat
  ∧ total_sent (stats r.1) = total_sent (stats e).
Proof.
  induction user_ids as [|u rest IH]; intros e.
  { cbn. repeat split; lia. }
  cbn [create_loop].
  pose proof (FilterFacts.should_notify_frame e u gift t now) as Hfr.
  destruct (should_notify_user e u gift t now) as [e1 ok].
  cbn [fst] in Hfr. destruct Hfr as (_ & Hn1 & Hq1 & Hs1 & _).
  assert (Ha1 : accounted e1 = accounted e).
  { unfold accounted. by rewrite Hq1, Hs1. }
  destruct ok.
  - destruct (create_job e1 tpl u gift t p now) as [e2 jid] eqn:Hcj.
    assert (H2 : accounted e2 = accounted e1 + 1
                 ∧ next_ref e2 = S (next_ref e1)
                 ∧ total_sent (stats e2) = total_sent (stats e1)).
    { unfold create_job, alloc in Hcj. injection Hcj as <- _.
      rewrite accounted_add_job. unfold accounted. cbn. repeat split; lia. }
    destruct H2 as (Ha2 & Hn2 & Hs2).
    specialize (IH e2).
    destruct (create_loop e2 tpl rest gift t p now) as [e3 ids].
    cbn [fst snd length] in *. destruct IH as (Ha3 & Hn3 & Hs3).
    rewrite Ha3, Ha2, Ha1, Hn3, Hn2, Hn1, Hs3, Hs2, Hs1. repeat split; lia.
  - specialize (IH e1).
    destruct (create_loop e1 tpl rest gift t p now) as [e3 ids].
    cbn [fst snd] in *. destruct IH as (Ha3 & Hn3 & Hs3).
    rewrite Ha3, Ha1, Hn3, Hn1, Hs3, Hs1. done.
Qed.

Lemma create_notification_accounted e user_ids gift t p now :
  let r := create_notification e user_ids gift t p now in
  accounted r.1 = accounted e + Z.of_nat (length r.2)
  ∧ next_ref r.1 = (next_ref e + length r.2)%nat
  ∧ total_sent (stats r.1) = total_sent (stats e).
Proof.
  unfold create_notification. destruct (templates t).
  - apply create_loop_accounted.
  - cbn. repeat split; lia.
Qed.

Lemma flood_waits_app a b :
  flood_waits (a ++ b) = (flood_waits a + flood_waits b)%nat.
Proof. unfold flood_waits. by rewrite List.filter_app, length_app. Qed.

Lemma sends_app a b : sends (a ++ b) = sends a ++ sends b.
Proof. unfold sends. by rewrite List.filter_app, map_app. Qed.

(** Along an execution, the queue and the two counters of finished
    jobs together grow by one per job object made and one per slowdown
    answer. *)
Lemma exec_accounted e ops :
  let r := exec e ops in
  accounted r.1
  = accounted e + (Z.of_nat (next_ref r.1) - Z.of_nat (next_ref e))
    + Z.of_nat (flood_waits r.2)
  ∧ total_sent (stats r.1)
    = total_sent (stats e) + Z.of_nat (length (sends r.2)).
Proof.
  revert e. induction ops as [|op rest IH]; intros e.
  { cbn. split; lia. }
  cbn [exec].
  destruct (exec_op e op) as [e1 calls1] eqn:Hop.
  assert (H1 : accounted e1
               = accounted e + (Z.of_nat (next_ref e1) - Z.of_nat (next_ref e))
                 + Z.of_nat (flood_waits calls1)
               ∧ total_sent (stats e1)
                 = total_sent (stats e) + Z.of_nat (length (sends calls1))).
  { destruct op as [now done outcome|user_ids gift k p now]; cbn in Hop.
    - pose proof (process_queue_accounted e now done outcome) as H.
      rewrite Hop in H. cbn [fst snd] in H. destruct H as (Ha & Hs & Hn).
      rewrite Ha, Hs, Hn. split; lia.
    - injection Hop as <- <-.
      destruct (create_notification_accounted e user_ids gift k p now)
        as (Ha & Hn & Hs).
      rewrite Ha, Hn, Hs. cbn. split; lia. }
  specialize (IH e1). destruct (exec e1 rest) as [e2 calls2].
  cbn [fst snd] in *. destruct IH as [Ha2 Hs2]. destruct H1 as [Ha1 Hs1].
  rewrite flood_waits_app, sends_app, length_app, Ha2, Hs2, Ha1, Hs1.
  split; lia.
Qed.

Lemma requeue_job_dom e r delay now :
  dom (jobs (requeue_job e r delay now)) = dom (jobs e).
Proof.
  unfold requeue_job. destruct (jobs e !! r) as [job|] eqn:Hr; [|done].
  assert (H : dom (<[r := retried job (now + Py.seconds delay)]> (jobs e))
              = dom (jobs e)).
  { apply dom_insert_lookup_L. by eexists. }
  by destruct (_ <? _).
Qed.

Lemma process_queue_dom e now done outcome :
  dom (jobs (_process_queue e now done outcome).1) = dom (jobs e).
Proof.
  unfold _process_queue. destruct (processing e); [done|].
  cbn [_check_rate_limits]. destruct (negb _); [done|].
  unfold get_next_job. cbn [queue jobs with_sent_messages with_processing].
  destruct (pop_first _ _) as [[r rest]|]; [|done].
  set (e2 := with_queue rest _).
  assert (H2 : dom (jobs e2) = dom (jobs e)) by done.
  assert (H3 : dom (jobs (_send_notification e2 r outcome done).1)
               = dom (jobs e)).
  { destruct outcome; cbn [_send_notification fst]; try done.
    - rewrite requeue_job_dom. cbn [jobs with_jobs]. by rewrite dom_alter_L.
    - by destruct (jobs e2 !! r).
    - by destruct (jobs e2 !! r). }
  destruct (_send_notification e2 r outcome done) as [e3 success].
  cbn [fst snd jobs with_processing] in *. destruct success.
  - unfold _record_notification. cbn [jobs with_stats].
    by destruct (jobs e3 !! r).
  - by rewrite requeue_job_dom.
Qed.

Lemma create_loop_dom tpl gift t p now user_ids : ∀ e,
  dom (jobs e) = set_seq 0 (next_ref e) →
  dom (jobs (create_loop e tpl user_ids gift t p now).1)
  = set_seq 0 (next_ref (create_loop e tpl user_ids gift t p now).1).
Proof.
  induction user_ids as [|u rest IH]; intros e H; [done|].
  rewrite FilterFacts.create_loop_cons.
  pose proof (FilterFacts.should_notify_frame e u gift t now) as Hfr.
  destruct (should_notify_user e u gift t now) as [e1 ok].
  cbn [fst] in Hfr. destruct Hfr as (Hj1 & Hn1 & _).
  destruct ok; [|apply IH; by rewrite Hj1, Hn1].
  unfold create_job, alloc. set (e2 := add_job _ _).
  specialize (IH e2). destruct (create_loop e2 tpl rest gift t p now).
  cbn [fst] in *. apply IH. subst e2.
  cbn [jobs next_ref add_job with_stats with_queue with_jobs with_next_ref].
  rewrite dom_insert_L, Hj1, Hn1, H, set_seq_S_end_union_L. done.
Qed.

Lemma exec_dom ops : ∀ e,
  dom (jobs e) = set_seq 0 (next_ref e) →
  dom (jobs (exec e ops).1) = set_seq 0 (next_ref (exec e ops).1).
Proof.
  induction ops as [|op ops IH]; intros e H; [done|].
  cbn [exec].
  assert (H1 : dom (jobs (exec_op e op).1)
               = set_seq 0 (next_ref (exec_op e op).1)).
  { destruct op as [now done outcome|uids gift t p now]; cbn [exec_op].
    - rewrite process_queue_dom.
      by destruct (process_queue_accounted e now done outcome)
        as (_ & _ & ->).
    - cbn [fst]. unfold create_notification.
      destruct (templates t); [|done]. by apply create_loop_dom. }
  destruct (exec_op e op) as [e1 calls1]. specialize (IH e1 H1).
  by destruct (exec e1 ops).
Qed.

(** X4. No job is lost, and a slowdown answer adds one. From start-up on,
    whatever is queued and dispatched, the length of the queue plus the
    counters [total_sent] and [total_failed] is the number of job objects
    made plus the number of sends answered by [FloodWait]: such a send puts
    its job back twice. And [total_sent] is the number of sends that went
    through. *)
Theorem jobs_accounted users t0 ops :
  accounted (exec (init users t0) ops).1
  = Z.of_nat (size (jobs (exec (init users t0) ops).1))
    + Z.of_nat (flood_waits (exec (init users t0) ops).2)
  ∧ total_sent (stats (exec (init users t0) ops).1)
    = Z.of_nat (length (sends (exec (init users t0) ops).2)).
Proof.
  destruct (exec_accounted (init users t0) ops) as [Ha Hs].
  assert (Hd : dom (jobs (exec (init users t0) ops).1)
               = set_seq 0 (next_ref (exec (init users t0) ops).1)).
  { apply exec_dom. unfold init, load_user_filters. cbn.
    by rewrite dom_empty_L. }
  split.
  - rewrite Ha, <- size_dom, Hd, size_set_seq.
    unfold init, load_user_filters, accounted. cbn. lia.
  - rewrite Hs. unfold init, load_user_filters. cbn. lia.
Qed.

(** X5. A dispatcher step whose send fails, for whatever reason, leaves the
    job scheduled 60 seconds after the send returned, with more attempts
    than before, so that [get_next_job] does not take it before then; this
    holds for a [FloodWait] too, whatever wait the answer asked for. *)
Theorem failed_job_waits_a_minute e now done outcome c :
  (_process_queue e now done outcome).2 = [c] →
  delivered outcome = false →
  ∃ job job',
    jobs e !! call_ref c = Some job
    ∧ jobs (_process_queue e now done outcome).1 !! call_ref c = Some job'
    ∧ scheduled_at job' = done + Py.seconds 60
    ∧ attempts job < attempts job'
    ∧ ∀ now', now' < done + Py.seconds 60 →
        eligible (jobs (_process_queue e now done outcome).1) now'
          (call_ref c) = false.
Proof.
  unfold _process_queue, _check_rate_limits.
  destruct (processing e); [done|].
  cbn [fst snd]. destruct (negb (negb _)); [done|].
  unfold get_next_job.
  cbn [jobs queue with_sent_messages with_processing].
  destruct (pop_first _ _) as [[r rest]|] eqn:Hpop; [|done].
  destruct (pop_first_Some _ _ _ _ Hpop) as [Hel _].
  destruct (eligible_job _ _ _ Hel) as [job Hjob].
  match goal with
  | |- context [_send_notification ?e2' r outcome done] => set (e2 := e2')
  end.
  assert (Hj2 : jobs e2 !! r = Some job) by done. clearbody e2.
  intros Hc Hfail.
  assert (Hj3 : ∃ job3, jobs (_send_notification e2 r outcome done).1 !! r
                        = Some job3
                        ∧ attempts job ≤ attempts job3
                        ∧ (_send_notification e2 r outcome done).2 = false).
  { destruct outcome; try done.
    - destruct (flood_wait_handler e2 r job wait done Hj2) as (? & ? & _).
      eexists. split; [eassumption|]. split; [cbn; lia|done].
    - cbn. rewrite Hj2. cbn. eauto with lia.
    - cbn. rewrite Hj2. cbn. eauto with lia.
    - cbn. eauto with lia. }
  destruct Hj3 as (job3 & Hj3 & Hatt & Hsucc).
  destruct (_send_notification e2 r outcome done) as [e3 success].
  cbn [fst snd] in *. subst success. injection Hc as <-. cbn [call_ref].
  exists job, (retried job3 (done + Py.seconds 60)).
  assert (Hj4 : jobs (with_processing false (requeue_job e3 r 60 done)) !! r
                = Some (retried job3 (done + Py.seconds 60))).
  { change (jobs (with_processing false ?x)) with (jobs x).
    by apply requeue_job_lookup. }
  split; [done|]. split; [exact Hj4|]. split; [done|].
  split; [cbn; lia|].
  intros now' Hnow'. unfold eligible. rewrite Hj4. cbn.
  apply andb_false_iff. left. apply Z.leb_gt. lia.
Qed.

Lemma failed_job_waits_a_minute_witness :
  ∃ job',
    jobs (_process_queue one_job (s 1) (s 1) (FloodWait 300)).1 !! 0%nat
    = Some job'
    ∧ scheduled_at job' = s 61.
Proof.
  destruct (failed_job_waits_a_minute one_job (s 1) (s 1) (FloodWait 300)
              (mkCall 0 1 (FloodWait 300) (s 1)))
    as (job & job' & _ & Hj' & Hs & _); [by vm_compute|done|].
  exists job'. split; [exact Hj'|exact Hs].
Defined.

(** The send log never outgrows the cap. *)
Lemma process_queue_log_bound e now done outcome :
  0 < messages_per_minute (rate_limits e) →
  Z.of_nat (length (sent_messages e)) ≤ messages_per_minute (rate_limits e) →
  Z.of_nat (length (sent_messages (_process_queue e now done outcome).1))
  ≤ messages_per_minute (rate_limits e).
Proof.
  intros Hpos Hle.
  destruct (process_queue_limits e now done outcome)
    as [_ [[_ [->| ->]]|(_ & _ & _ & Hcap & -> & _)]].
  - done.
  - pose proof (window_length now (sent_messages e)). fold (window now) in *.
    unfold window in *. lia.
  - rewrite length_app. unfold in_window in Hcap.
    destruct (delivered outcome); simpl; lia.
Qed.

Lemma requeue_job_filters e r delay now :
  filters (requeue_job e r delay now) = filters e.
Proof.
  unfold requeue_job. destruct (jobs e !! r) as [job|]; [|done].
  cbn zeta. by destruct (_ <? _).
Qed.

Lemma send_filters e r outcome done :
  filters (_send_notification e r outcome done).1 = filters e.
Proof.
  destruct outcome; cbn [_send_notification fst]; try done.
  - by rewrite requeue_job_filters.
  - by destruct (jobs e !! r).
  - by destruct (jobs e !! r).
Qed.

Lemma process_queue_filters e now done outcome :
  filters (_process_queue e now done outcome).1 = filters e.
Proof.
  unfold _process_queue, _check_rate_limits.
  destruct (processing e); [done|].
  cbn [fst snd]. destruct (negb (negb _)); [done|].
  destruct (get_next_job _ now) as [[r e2]|] eqn:Hget; [|done].
  assert (H2 : filters e2 = filters e).
  { unfold get_next_job in Hget. destruct (pop_first _ _) as [[x rest]|];
      [|done]. by injection Hget as _ <-. }
  pose proof (send_filters e2 r outcome done) as H3.
  destruct (_send_notification e2 r outcome done) as [e3 success].
  cbn [fst snd] in *. destruct success.
  - unfold _record_notification. cbn.
    destruct (jobs e3 !! r); cbn; congruence.
  - cbn. rewrite requeue_job_filters. congruence.
Qed.

Lemma create_loop_filters tpl gift t p now user_ids : ∀ e,
  filters (create_loop e tpl user_ids gift t p now).1 = filters e.
Proof.
  induction user_ids as [|u rest IH]; intros e; [done|].
  cbn [create_loop].
  pose proof (FilterFacts.should_notify_frame e u gift t now) as Hfr.
  destruct (should_notify_user e u gift t now) as [e1 ok].
  cbn [fst] in Hfr. destruct Hfr as (_ & _ & _ & _ & Hf1 & _).
  destruct ok.
  - destruct (create_job e1 tpl u gift t p now) as [e2 jid] eqn:Hcj.
    assert (Hf2 : filters e2 = filters e1).
    { unfold create_job, alloc in Hcj. by injection Hcj as <- _. }
    specialize (IH e2).
    destruct (create_loop e2 tpl rest gift t p now) as [e3 ids].
    cbn [fst] in *. congruence.
  - rewrite IH. done.
Qed.

Lemma create_notification_filters e user_ids gift t p now :
  filters (create_notification e user_ids gift t p now).1 = filters e.
Proof.
  unfold create_notification. destruct (templates t); [|done].
  apply create_loop_filters.
Qed.

(** The filter table is loaded once: no operation changes it. *)
Lemma exec_filters ops : ∀ e, filters (exec e ops).1 = filters e.
Proof.
  induction ops as [|op rest IH]; intros e; [done|].
  cbn [exec].
  destruct (exec_op e op) as [e1 calls1] eqn:Hop.
  assert (H1 : filters e1 = filters e).
  { destruct op as [now done outcome|user_ids gift k p now]; cbn in Hop.
    - pose proof (process_queue_filters e now done outcome) as H.
      by rewrite Hop in H.
    - injection Hop as <- <-. apply create_notification_filters. }
  specialize (IH e1). destruct (exec e1 rest) as [e2 calls2].
  cbn [fst] in *. congruence.
Qed.

Lemma exec_log_bound ops : ∀ e,
  0 < messages_per_minute (rate_limits e) →
  Z.of_nat (length (sent_messages e)) ≤ messages_per_minute (rate_limits e) →
  Z.of_nat (length (sent_messages (exec e ops).1))
  ≤ messages_per_minute (rate_limits e).
Proof.
  induction ops as [|op rest IH]; intros e Hpos Hle; [done|].
  cbn [exec].
  destruct (exec_op e op) as [e1 calls1] eqn:Hop.
  assert (H1 : rate_limits e1 = rate_limits e
               ∧ Z.of_nat (length (sent_messages e1))
                 ≤ messages_per_minute (rate_limits e)).
  { destruct op as [now done outcome|user_ids gift k p now]; cbn in Hop.
    - pose proof (process_queue_log_bound e now done outcome Hpos Hle) as H.
      destruct (process_queue_limits e now done outcome) as [Hl _].
      by rewrite Hop in H, Hl.
    - injection Hop as <- <-.
      destruct (FrameFacts.create_notification_limits e user_ids gift k p now)
        as [-> ->]. done. }
  destruct H1 as [Hl1 Hs1].
  specialize (IH e1). rewrite Hl1 in IH. specialize (IH Hpos Hs1).
  by destruct (exec e1 rest) as [e2 calls2].
Qed.

Local Abbreviation load_rows :=
  (foldl (λ (fs : gmap Z NotificationFilter) (r : Z * Db.User),
            <[r.1 := mkFilter (Db.min_stars r.2) (Db.max_stars r.2)
                       (Db.only_limited r.2) false false [] [] None]> fs)).

Lemma load_rows_keep (l : list (Z * Db.User)) :
  ∀ (fs : gmap Z NotificationFilter) u f,
    u ∉ l.*1 → fs !! u = Some f → load_rows fs l !! u = Some f.
Proof.
  induction l as [|[u' r'] l IH]; intros fs u f Hn H0; [done|].
  rewrite fmap_cons in Hn. apply not_elem_of_cons in Hn as [Hne Hn].
  cbn. apply IH; [done|]. by rewrite lookup_insert_ne.
Qed.

(** The table [load_user_filters] builds from rows with distinct ids. *)
Lemma load_filters_spec (l : list (Z * Db.User)) :
  ∀ fs : gmap Z NotificationFilter,
    NoDup l.*1 → (∀ k, k ∈ l.*1 → fs !! k = None) →
    size (load_rows fs l) = (size fs + length l)%nat
    ∧ ∀ uid row, (uid, row) ∈ l →
        load_rows fs l !! uid = Some (filter_of_row row).
Proof.
  induction l as [|[u row] l IH]; intros fs Hnd Hfresh.
  { cbn. split; [lia|]. intros uid row H. by apply elem_of_nil in H. }
  rewrite fmap_cons in Hnd. apply NoDup_cons in Hnd as [Hu Hnd].
  cbn [foldl fst snd]. fold (filter_of_row row).
  destruct (IH (<[u := filter_of_row row]> fs) Hnd) as [Hsize Hlook].
  { intros k Hk. rewrite lookup_insert_ne; [|by intros ->].
    apply Hfresh. rewrite fmap_cons. by right. }
  split.
  - rewrite Hsize, map_size_insert_None; [cbn; lia|].
    apply Hfresh. rewrite fmap_cons. left.
  - intros uid row' [[= -> ->]|Hin]%elem_of_cons; [|by apply Hlook].
    apply load_rows_keep; [done|]. apply lookup_insert_eq.
Qed.

Lemma get_all_users_NoDup users : NoDup (Db.get_all_users users).*1.
Proof.
  unfold Db.get_all_users.
  pose proof (NoDup_fst_map_to_list users) as Hnd.
  induction (map_to_list users) as [|[k v] l IH]; [constructor|].
  rewrite fmap_cons in Hnd. apply NoDup_cons in Hnd as [Hk Hnd].
  cbn [List.filter]. destruct (Db.notifications_enabled (k, v).2).
  - rewrite fmap_cons. apply NoDup_cons. split; [|by apply IH].
    intros Hin. apply Hk. apply list_elem_of_fmap in Hin as ([k' v'] & -> & Hin).
    apply list_elem_of_In, List.filter_In in Hin as [Hin _].
    apply list_elem_of_fmap. exists (k', v'). split; [done|].
    by apply list_elem_of_In.
  - by apply IH.
Qed.

(** X6. [get_statistics] after any execution from start-up: at most 20
    instants are in the send log, the number of filters is the number of
    users that had notifications on at start-up, three templates are loaded
    and the rate limits are 20 a minute and 1000 an hour. *)
Theorem statistics_bounded users t0 ops :
  let st := get_statistics (exec (init users t0) ops).1 in
  (recent_messages st ≤ 20)%nat
  ∧ active_filters st = length (Db.get_all_users users)
  ∧ templates_loaded st = 3%nat
  ∧ limits st = mkRateLimits 20 1000.
Proof.
  cbn zeta. unfold get_statistics. cbn [recent_messages active_filters
    templates_loaded limits].
  split; [|split; [|split; [done|]]].
  - pose proof (exec_log_bound ops (init users t0)) as H.
    change (messages_per_minute (rate_limits (init users t0))) with 20 in H.
    change (sent_messages (init users t0)) with (@nil Z) in H.
    cbn [length] in H. lia.
  - rewrite exec_filters. unfold init, load_user_filters. cbn.
    destruct (load_filters_spec (Db.get_all_users users) ∅
                (get_all_users_NoDup users)) as [Hsize _]; [done|].
    rewrite Hsize. by rewrite map_size_empty.
  - by rewrite exec_rate_limits.
Qed.
End AccountFacts.

Module DecisionFacts.
Import NotificationEngine Invariants Examples EngineStats HistoryFacts
  AccountFacts.

Lemma frequency_decision e uid t now :
  (_check_notification_frequency e uid t now).2
  = (counted e uid t now <? limit t).
Proof. done. Qed.

(** The decision of [should_notify_user] is [accepts]. *)
Lemma should_notify_decision e uid gift t now :
  (should_notify_user e uid gift t now).2 = accepts e gift t now uid.
Proof.
  unfold should_notify_user, accepts.
  destruct (filters e !! uid) as [f|]; [|done].
  unfold static_checks.
  destruct (_ || _); [done|].
  destruct (only_limited f && negb (limited gift)); [done|].
  destruct (exclude_premium_required f && require_premium gift); [done|].
  cbn [negb andb].
  destruct (keywords f) as [|kw kws].
  - destruct (excluded_keywords f) as [|xk xks].
    + destruct (time_restrictions f) as [[|h hs]|]; try done.
      destruct (bool_decide _); done.
    + destruct (any_keyword _ _); [done|]. cbn [negb andb].
      destruct (time_restrictions f) as [[|h hs]|]; try done.
      destruct (bool_decide _); done.
  - destruct (any_keyword (kw :: kws) _); [|done]. cbn [negb andb].
    destruct (excluded_keywords f) as [|xk xks].
    + destruct (time_restrictions f) as [[|h hs]|]; try done.
      destruct (bool_decide _); done.
    + destruct (any_keyword _ _); [done|]. cbn [negb andb].
      destruct (time_restrictions f) as [[|h hs]|]; try done.
      destruct (bool_decide _); done.
Qed.

Lemma init_filter users t0 uid row :
  users !! uid = Some row → Db.notifications_enabled row = true →
  filters (init users t0) !! uid = Some (filter_of_row row).
Proof.
  intros Hrow Hon. unfold init, load_user_filters. cbn.
  destruct (load_filters_spec (Db.get_all_users users) ∅
              (get_all_users_NoDup users)) as [_ Hlook]; [done|].
  apply Hlook. unfold Db.get_all_users.
  apply list_elem_of_In, List.filter_In. split; [|done].
  by apply list_elem_of_In, elem_of_map_to_list.
Qed.

(** X7. For a user who had notifications on at start-up, the decision of
    [should_notify_user] in any state reached since is: the price of the
    gift lies in the price range of the user's row at start-up, the gift is
    limited if the row asks for limited gifts only, and fewer deliveries of
    the kind are counted for the user in the last hour than the limit of the
    kind. *)
Theorem decision_for_loaded_user users t0 ops uid row gift t now :
  users !! uid = Some row → Db.notifications_enabled row = true →
  (should_notify_user (exec (init users t0) ops).1 uid gift t now).2
  = (Db.min_stars row <=? stars gift) && (stars gift <=? Db.max_stars row)
    && implb (Db.only_limited row) (limited gift)
    && (counted (exec (init users t0) ops).1 uid t now <? limit t).
Proof.
  intros Hrow Hon. rewrite should_notify_decision. unfold accepts.
  rewrite exec_filters, (init_filter _ _ _ _ Hrow Hon).
  unfold static_checks, filter_of_row. cbn.
  rewrite !andb_true_r. f_equal. rewrite negb_orb.
  rewrite <- !Z.leb_antisym.
  by destruct (Db.only_limited row), (limited gift).
Qed.

Lemma decision_for_loaded_user_witness :
  (should_notify_user (exec (init subscribers 0) []).1 1 (golden false)
     NEW_GIFT 0).2
  = (Db.min_stars (subscriber true) <=? stars (golden false))
    && (stars (golden false) <=? Db.max_stars (subscriber true))
    && implb (Db.only_limited (subscriber true)) (limited (golden false))
    && (counted (exec (init subscribers 0) []).1 1 NEW_GIFT 0
        <? limit NEW_GIFT).
Proof.
  apply (decision_for_loaded_user subscribers 0 [] 1 (subscriber true)
           (golden false) NEW_GIFT 0); reflexivity.
Defined.

Lemma accepts_ext e e' gift t now uid :
  filters e' = filters e →
  (∀ u k, counted e' u k now = counted e u k now) →
  accepts e' gift t now uid = accepts e gift t now uid.
Proof. intros Hf Hc. unfold accepts. by rewrite Hf, Hc. Qed.

Lemma create_loop_job_ids tpl gift t p now user_ids : ∀ e,
  (create_loop e tpl user_ids gift t p now).2
  = map (λ u, mkJobId u t now) (List.filter (accepts e gift t now) user_ids).
Proof.
  induction user_ids as [|u rest IH]; intros e; [done|].
  cbn [create_loop List.filter].
  pose proof (should_notify_decision e u gift t now) as Hdec.
  pose proof (FilterFacts.should_notify_frame e u gift t now) as Hfr.
  assert (Hc1 : ∀ u' k, counted (should_notify_user e u gift t now).1 u' k now
                        = counted e u' k now).
  { intros. apply counted_should_notify. }
  destruct (should_notify_user e u gift t now) as [e1 ok].
  cbn [fst snd] in *. destruct Hfr as (_ & _ & _ & _ & Hf1 & _).
  rewrite <- Hdec. destruct ok.
  - destruct (create_job e1 tpl u gift t p now) as [e2 jid] eqn:Hcj.
    assert (H2 : filters e2 = filters e1
                 ∧ notification_history e2 = notification_history e1
                 ∧ jid = mkJobId u t now).
    { unfold create_job, alloc in Hcj. by injection Hcj as <- <-. }
    destruct H2 as (Hf2 & Hh2 & ->).
    specialize (IH e2).
    destruct (create_loop e2 tpl rest gift t p now) as [e3 ids].
    cbn [fst snd map] in *. rewrite IH. f_equal. f_equal.
    apply List.filter_ext. intros u'. apply accepts_ext; [congruence|].
    intros u'' k. rewrite <- Hc1. unfold counted. by rewrite Hh2.
  - rewrite IH. f_equal. apply List.filter_ext. intros u'.
    by apply accepts_ext.
Qed.

(** X8. [create_notification] returns one job id per user of the list that
    [should_notify_user] accepts in the state before the call, in the order
    of the list, a user listed twice getting two; and returns nothing for a
    kind without a template. *)
Theorem create_notification_job_ids e user_ids gift t p now :
  (create_notification e user_ids gift t p now).2
  = match templates t with
    | Some _ =>
        map (λ u, mkJobId u t now)
          (List.filter (accepts e gift t now) user_ids)
    | None => []
    end.
Proof.
  unfold create_notification. destruct (templates t); [|done].
  apply create_loop_job_ids.
Qed.

(** X9. What the templates give for a gift. When the percentage of the
    gift can be computed, the [NEW_GIFT] template formats, and the
    [PRICE_DROP] and [LIMITED_AVAILABLE] templates do not, for want of
    the fields [old_price] and [remaining]: [_generate_message] returns
    the text of its [except KeyError] clause. When both counts are
    present and not zero and their quotient rounds beyond the floats,
    the division raises before any template is formatted and all three
    give the text of the generic [except] clause. The [NEW_GIFT]
    template has one row of two buttons, the other two have no buttons,
    and the other three kinds have no template. *)
Theorem template_rendering gift now :
  (∃ tpl, templates NEW_GIFT = Some tpl
          ∧ _generate_message tpl gift now
            = (if availability_overflows gift then Failed
               else Formatted
                 [("title", VStr (title gift)); ("id", VInt (gift_id gift));
                  ("stars", VInt (stars gift));
                  ("limited", VYesNo (limited gift));
                  ("premium_required", VYesNo (require_premium gift));
                  ("upgradeable", VYesNo (can_upgrade gift));
                  ("availability_info", VAvailability (guarded_line gift));
                  ("discovery_time", VTime now)])
          ∧ _generate_buttons tpl gift
            = Some [[InlineUrl "https://t.me/giftbot";
                     InlineCallback "gift_details_" (gift_id gift)]])
  ∧ (∃ tpl, templates PRICE_DROP = Some tpl
            ∧ _generate_message tpl gift now
              = (if availability_overflows gift then Failed
                 else MissingField "old_price")
            ∧ _generate_buttons tpl gift = None)
  ∧ (∃ tpl, templates LIMITED_AVAILABLE = Some tpl
            ∧ _generate_message tpl gift now
              = (if availability_overflows gift then Failed
                 else MissingField "remaining")
            ∧ _generate_buttons tpl gift = None)
  ∧ templates GIFT_UPDATE = None ∧ templates SYSTEM_ALERT = None
  ∧ templates PROMOTION = None.
Proof.
  split; [|split; [|split; [|done]]].
  - destruct (RenderFacts.new_gift_message gift now) as (tpl & Htpl & Hmsg).
    exists tpl. split; [done|]. split; [done|].
    cbn in Htpl. by injection Htpl as <-.
  - eexists. split; [reflexivity|]. split; [|done].
    unfold _generate_message, generate_message_body.
    rewrite RenderFacts.availability_guarded.
    destruct (availability_overflows gift); [done|]. cbn [message_fields].
    unfold format_data, gift_dict.
    do 2 (erewrite RenderFacts.format_cons; [|by simplify_map_eq]).
    cbn [format]. by simplify_map_eq.
  - eexists. split; [reflexivity|]. split; [|done].
    unfold _generate_message, generate_message_body.
    rewrite RenderFacts.availability_guarded.
    destruct (availability_overflows gift); [done|]. cbn [message_fields].
    unfold format_data, gift_dict.
    erewrite RenderFacts.format_cons; [|by simplify_map_eq].
    cbn [format]. by simplify_map_eq.
Qed.

(** X10. The keyboard rows of [_generate_buttons]: the rows in order hold
    the buttons in order, every row has one or two buttons, and n buttons
    make (n + 1) / 2 rows. *)
Theorem rows_of_two_spec (buttons : list Button) :
  concat (rows_of_two buttons) = buttons
  ∧ Forall (λ row, (1 ≤ length row ≤ 2)%nat) (rows_of_two buttons)
  ∧ length (rows_of_two buttons) = ((length buttons + 1) / 2)%nat.
Proof.
  assert (H : ∀ n (l : list Button), (length l ≤ n)%nat →
    concat (rows_of_two l) = l
    ∧ Forall (λ row, (1 ≤ length row ≤ 2)%nat) (rows_of_two l)
    ∧ length (rows_of_two l) = ((length l + 1) / 2)%nat).
  { induction n as [|n IH]; intros l Hl.
    - destruct l; [|cbn in Hl; lia]. cbn. repeat split. constructor.
    - destruct l as [|a [|b l]].
      + cbn. repeat split. constructor.
      + cbn. repeat split. repeat constructor; cbn; lia.
      + destruct (IH l) as (Hc & Hf & Hn); [cbn in Hl; lia|].
        cbn [rows_of_two concat length]. rewrite Hc, Hn.
        split; [done|]. split; [constructor; [cbn; lia|done]|].
        replace (S (S (length l)) + 1)%nat with (length l + 1 + 1 * 2)%nat by lia.
        rewrite Nat.div_add by lia. lia. }
  by apply (H (length buttons)).
Qed.
End DecisionFacts.

Module PollFacts.
Import GiftMonitor MonitorMore Examples MonitorFacts.

Lemma new_event_ids_app evs1 evs2 :
  new_event_ids (evs1 ++ evs2) = new_event_ids evs1 ++ new_event_ids evs2.
Proof. unfold new_event_ids. by rewrite List.filter_app, map_app. Qed.

Lemma new_event_ids_callbacks n u :
  new_event_ids (callbacks n u)
  = map gift_id (List.filter _should_notify n).
Proof.
  unfold callbacks. rewrite new_event_ids_app. unfold new_event_ids.
  assert (Hn : ∀ l : list Gift,
    map (λ ev : Gift * EventType, gift_id ev.1)
      (List.filter (λ ev : Gift * EventType,
                      match ev.2 with new => true | updated => false end)
         (map (λ g, (g, new)) l)) = map gift_id l).
  { induction l as [|g l IH]; cbn; [done|]. by rewrite IH. }
  assert (Hu : ∀ l : list Gift,
    map (λ ev : Gift * EventType, gift_id ev.1)
      (List.filter (λ ev : Gift * EventType,
                      match ev.2 with new => true | updated => false end)
         (map (λ g, (g, updated)) l)) = []).
  { induction l as [|g l IH]; cbn; [done|]. by rewrite IH. }
  by rewrite Hn, Hu, app_nil_r.
Qed.

Lemma elem_of_filter_ids (p : Gift → bool) l i :
  i ∈ map gift_id (List.filter p l) → i ∈ map gift_id l.
Proof.
  intros (g & -> & Hg)%list_elem_of_fmap.
  apply list_elem_of_In, List.filter_In in Hg as [Hg _].
  apply list_elem_of_fmap. exists g. split; [done|].
  by apply list_elem_of_In.
Qed.

Lemma NoDup_filter_ids (p : Gift → bool) l :
  NoDup (map gift_id l) → NoDup (map gift_id (List.filter p l)).
Proof.
  induction l as [|g l IH]; cbn; [done|].
  intros [Hg Hnd]%NoDup_cons. destruct (p g); cbn; [|by apply IH].
  apply NoDup_cons. split; [|by apply IH].
  intros Hin. by apply Hg, (elem_of_filter_ids p).
Qed.

(** The gifts the loop calls new have pairwise distinct ids, none of
    them known before the loop and all of them known after it; a known
    id stays known; the table grows by one entry per new gift. *)
Lemma diff_loop_new snap : ∀ known k n u,
  diff_loop known snap = (k, n, u) →
  NoDup (map gift_id n)
  ∧ (∀ i, i ∈ map gift_id n → known !! i = None ∧ is_Some (k !! i))
  ∧ (∀ i, is_Some (known !! i) → is_Some (k !! i))
  ∧ size k = (size known + length n)%nat.
Proof.
  induction snap as [|gift rest IH]; intros known k n u Heq.
  - cbn in Heq. injection Heq as <- <- <-. cbn.
    split; [constructor|]. split; [|split; [done|lia]].
    intros i Hi. by apply elem_of_nil in Hi.
  - cbn in Heq. destruct (known !! gift_id gift) as [old|] eqn:Hlook.
    + destruct (_gift_changed old gift).
      * destruct (diff_loop (<[gift_id gift:=gift]> known) rest)
          as [[k' n'] u'] eqn:Hrec.
        injection Heq as <- <- <-.
        destruct (IH _ _ _ _ Hrec) as (Hnd & Hn & Hk & Hsz).
        split; [done|]. split; [|split].
        -- intros i Hi. destruct (Hn i Hi) as [Hnone Hsome].
           split; [|done].
           destruct (decide (gift_id gift = i)) as [<-|Hne].
           ++ by rewrite lookup_insert_eq in Hnone.
           ++ by rewrite lookup_insert_ne in Hnone.
        -- intros i Hi. apply Hk.
           destruct (decide (gift_id gift = i)) as [<-|Hne].
           ++ by rewrite lookup_insert_eq.
           ++ by rewrite lookup_insert_ne.
        -- rewrite Hsz. f_equal.
           rewrite map_size_insert, Hlook. done.
      * apply (IH _ _ _ _ Heq).
    + destruct (diff_loop (<[gift_id gift:=gift]> known) rest)
        as [[k' n'] u'] eqn:Hrec.
      injection Heq as <- <- <-.
      destruct (IH _ _ _ _ Hrec) as (Hnd & Hn & Hk & Hsz).
      assert (Hin : is_Some (k' !! gift_id gift)).
      { apply Hk. by rewrite lookup_insert_eq. }
      split; [|split; [|split]].
      * cbn. apply NoDup_cons. split; [|done].
        intros Hi. destruct (Hn _ Hi) as [Hnone _].
        by rewrite lookup_insert_eq in Hnone.
      * intros i [->|Hi]%elem_of_cons; [done|].
        destruct (Hn i Hi) as [Hnone Hsome]. split; [|done].
        destruct (decide (gift_id gift = i)) as [<-|Hne]; [done|].
        by rewrite lookup_insert_ne in Hnone.
      * intros i Hi. apply Hk.
        destruct (decide (gift_id gift = i)) as [<-|Hne].
        -- by rewrite lookup_insert_eq.
        -- by rewrite lookup_insert_ne.
      * rewrite Hsz, map_size_insert, Hlook. cbn. lia.
Qed.

Lemma filter_length_le {A} (p : A → bool) (l : list A) :
  (length (List.filter p l) ≤ length l)%nat.
Proof. induction l as [|x l IH]; cbn; [lia|]. destruct (p x); cbn; lia. Qed.

(** One poll. *)
Lemma check_new m p cb :
  NoDup (new_event_ids (_check_for_new_gifts m p cb).2)
  ∧ (∀ i, i ∈ new_event_ids (_check_for_new_gifts m p cb).2 →
       known_gifts m !! i = None
       ∧ is_Some (known_gifts (_check_for_new_gifts m p cb).1 !! i))
  ∧ (∀ i, is_Some (known_gifts m !! i) →
       is_Some (known_gifts (_check_for_new_gifts m p cb).1 !! i))
  ∧ (size (known_gifts m)
     + length (new_event_ids (_check_for_new_gifts m p cb).2)
     ≤ size (known_gifts (_check_for_new_gifts m p cb).1))%nat.
Proof.
  assert (Hquiet : ∀ m', 
    NoDup (new_event_ids (m', @nil (Gift * EventType)).2)
    ∧ (∀ i, i ∈ new_event_ids (m', @nil (Gift * EventType)).2 →
         known_gifts m' !! i = None ∧ is_Some (known_gifts m' !! i))
    ∧ (∀ i, is_Some (known_gifts m' !! i) → is_Some (known_gifts m' !! i))
    ∧ (size (known_gifts m') + length (new_event_ids (@nil (Gift * EventType)))
       ≤ size (known_gifts m'))%nat).
  { intros m'. cbn. split; [constructor|]. split; [|split; [done|lia]].
    intros i Hi. by apply elem_of_nil in Hi. }
  unfold _check_for_new_gifts. destruct p as [d|]; [|apply Hquiet].
  destruct (negb (hash d =? last_hash m)); [|apply Hquiet].
  destruct (diff_loop (known_gifts m) (gifts d)) as [[k n] u] eqn:Hloop.
  destruct (diff_loop_new _ _ _ _ _ Hloop) as (Hnd & Hn & Hk & Hsz).
  cbn [fst snd known_gifts]. destruct cb.
  - rewrite new_event_ids_callbacks. split; [by apply NoDup_filter_ids|].
    split; [|split; [done|]].
    + intros i Hi. by apply Hn, (elem_of_filter_ids _should_notify).
    + rewrite Hsz, length_map.
      pose proof (filter_length_le _should_notify n). lia.
  - cbn. split; [constructor|]. split; [|split; [done|lia]].
    intros i Hi. by apply elem_of_nil in Hi.
Qed.

Lemma run_polls_new polls : ∀ m cb,
  NoDup (new_event_ids (run_polls m polls cb).2)
  ∧ (∀ i, i ∈ new_event_ids (run_polls m polls cb).2 →
       known_gifts m !! i = None)
  ∧ (∀ i, is_Some (known_gifts m !! i) →
       is_Some (known_gifts (run_polls m polls cb).1 !! i))
  ∧ (size (known_gifts m) + length (new_event_ids (run_polls m polls cb).2)
     ≤ size (known_gifts (run_polls m polls cb).1))%nat.
Proof.
  induction polls as [|p rest IH]; intros m cb.
  - cbn. split; [constructor|]. split; [|split; [done|lia]].
    intros i Hi. by apply elem_of_nil in Hi.
  - cbn [run_polls].
    destruct (check_new m p cb) as (Hnd1 & Hn1 & Hk1 & Hsz1).
    destruct (_check_for_new_gifts m p cb) as [m1 evs1].
    destruct (IH m1 cb) as (Hnd2 & Hn2 & Hk2 & Hsz2).
    destruct (run_polls m1 rest cb) as [m2 evs2].
    cbn [fst snd] in *. rewrite new_event_ids_app.
    split; [|split; [|split]].
    + apply NoDup_app. split; [done|]. split; [|done].
      intros i Hi1 Hi2. destruct (Hn1 i Hi1) as [_ Hsome].
      rewrite (Hn2 i Hi2) in Hsome. by destruct Hsome.
    + intros i [Hi|Hi]%elem_of_app; [by apply Hn1|].
      destruct (known_gifts m !! i) eqn:Hlook; [|done].
      assert (Hs : is_Some (known_gifts m1 !! i)) by (apply Hk1; eauto).
      rewrite (Hn2 i Hi) in Hs. by destruct Hs.
    + intros i Hi. by apply Hk2, Hk1.
    + rewrite length_app. lia.
Qed.

(** Every event of a poll is for a gift that passes [_should_notify]. *)
Lemma check_events_notify m p cb :
  Forall (λ ev : Gift * EventType, _should_notify ev.1 = true)
    (_check_for_new_gifts m p cb).2.
Proof.
  unfold _check_for_new_gifts. destruct p as [d|]; [|constructor].
  destruct (negb (hash d =? last_hash m)); [|constructor].
  destruct (diff_loop (known_gifts m) (gifts d)) as [[k n] u].
  cbn [snd]. destruct cb; [|constructor].
  unfold callbacks. apply Forall_app. split.
  - apply Forall_forall. intros ev (g & -> & Hg)%list_elem_of_fmap.
    by apply list_elem_of_In, List.filter_In in Hg as [_ Hg].
  - apply Forall_forall. intros ev (g & -> & Hg)%list_elem_of_fmap.
    by apply list_elem_of_In, List.filter_In in Hg as [_ Hg].
Qed.

Lemma load_initial_known m d g :
  g ∈ gifts d →
  is_Some (known_gifts (load_initial m (Some d)) !! gift_id g).
Proof.
  cbn. generalize (known_gifts m). induction (gifts d) as [|x l IH];
    intros known Hg; [by apply elem_of_nil in Hg|].
  cbn. apply elem_of_cons in Hg as [->|Hg]; [|by apply IH].
  assert (Hkeep : ∀ (l' : list Gift) (k : gmap Z Gift) i,
            is_Some (k !! i) →
            is_Some (foldl (λ known gift, <[gift_id gift:=gift]> known) k l'
                     !! i)).
  { clear. induction l' as [|y l' IH]; intros k i Hi; [done|].
    cbn. apply IH. destruct (decide (gift_id y = i)) as [<-|Hne].
    - by rewrite lookup_insert_eq.
    - by rewrite lookup_insert_ne. }
  apply Hkeep. by rewrite lookup_insert_eq.
Qed.

(** X11. No gift is announced as new twice, over any sequence of polls, and
    none that was known when the polls began; the gifts of the first load
    are known then, so they are never announced as new. *)
Theorem new_gift_announced_once m initial polls cb :
  NoDup (new_event_ids (start_monitoring m initial polls cb).2)
  ∧ (∀ i, i ∈ new_event_ids (start_monitoring m initial polls cb).2 →
       known_gifts m !! i = None
       ∧ ∀ d g, initial = Some d → g ∈ gifts d → gift_id g ≠ i).
Proof.
  unfold start_monitoring.
  destruct (run_polls_new polls (load_initial m initial) cb)
    as (Hnd & Hn & _ & _).
  split; [done|]. intros i Hi. specialize (Hn i Hi). split.
  - destruct initial as [d|]; [|done]. cbn in Hn.
    destruct (known_gifts m !! i) eqn:Hlook; [|done].
    assert (Hkeep : ∀ (l' : list Gift) (k : gmap Z Gift),
              is_Some (k !! i) →
              is_Some (foldl (λ known gift, <[gift_id gift:=gift]> known) k l'
                       !! i)).
    { clear. induction l' as [|y l' IH]; intros k Hi; [done|].
      cbn. apply IH. destruct (decide (gift_id y = i)) as [<-|Hne].
      - by rewrite lookup_insert_eq.
      - by rewrite lookup_insert_ne. }
    destruct (Hkeep (gifts d) (known_gifts m)) as [x Hx]; [by eauto|].
    by rewrite Hx in Hn.
  - intros d g -> Hg <-. destruct (load_initial_known m d g Hg) as [x Hx].
    by rewrite Hx in Hn.
Qed.



(** X13. For a snapshot with a new token that lists every id once, the
    callback gets first the ['new'] events, for the items whose id was
    unknown before the poll, then the ['updated'] events, for the known
    items of which [sold_out], [availability_remains] or [stars] changed;
    each group is in the order of the snapshot and holds only items that are
    limited, not sold out and priced. *)
Theorem poll_events_in_order m d :
  hash d ≠ last_hash m →
  NoDup (map gift_id (gifts d)) →
  (_check_for_new_gifts m (Some d) true).2
  = map (λ g, (g, new))
      (List.filter (λ g, is_new (known_gifts m) g && _should_notify g)
         (gifts d))
    ++ map (λ g, (g, updated))
         (List.filter (λ g, is_updated (known_gifts m) g && _should_notify g)
            (gifts d)).
Proof.
  intros Htok Hnd. unfold _check_for_new_gifts.
  apply Z.eqb_neq in Htok. rewrite Htok. cbn [negb].
  destruct (diff_loop (known_gifts m) (gifts d)) as [[k n] u] eqn:Hloop.
  destruct (diff_loop_spec _ _ _ _ _ Hnd Hloop) as (-> & -> & _ & _).
  cbn [snd]. unfold callbacks. by rewrite !filter_filter_andb.
Qed.

Lemma poll_events_in_order_witness :
  (_check_for_new_gifts (mkMonitor 0 {[ 42 := golden true ]})
     (Some (mkGiftsData 1 [golden false])) true).2
  = [(golden false, updated)].
Proof.
  rewrite (poll_events_in_order (mkMonitor 0 {[ 42 := golden true ]})
             (mkGiftsData 1 [golden false])).
  - by vm_compute.
  - done.
  - cbn. apply NoDup_singleton.
Defined.

(** X14. [get_gift_stats]: the two partial counts never exceed the total,
    and over any polls the total never goes down and grows by at least the
    number of gifts announced as new. *)
Theorem gift_stats_counts m polls cb :
  (limited_gifts (get_gift_stats m) ≤ total_gifts (get_gift_stats m))%nat
  ∧ (available_gifts (get_gift_stats m) ≤ total_gifts (get_gift_stats m))%nat
  ∧ (total_gifts (get_gift_stats m)
     + length (new_event_ids (run_polls m polls cb).2)
     ≤ total_gifts (get_gift_stats (run_polls m polls cb).1))%nat.
Proof.
  unfold get_gift_stats. cbn [limited_gifts total_gifts available_gifts].
  split; [apply filter_length_le|]. split; [apply filter_length_le|].
  rewrite !length_fmap, !length_map_to_list.
  apply run_polls_new.
Qed.
End PollFacts.

Module FeedFacts.
Import GiftMonitor MonitorMore Examples.

Lemma read_lines_app l1 l2 now :
  read_lines (l1 ++ l2) now
  = match read_lines l1 now, read_lines l2 now with
    | Some g1, Some g2 => Some (g1 ++ g2)
    | _, _ => None
    end.
Proof.
  induction l1 as [|[| | |o] l1 IH]; cbn.
  - by destruct (read_lines l2 now).
  - done.
  - done.
  - done.
  - rewrite IH. by destruct (read_lines l1 now), (read_lines l2 now).
Qed.

Lemma read_lines_None l now :
  read_lines l now = None ↔ NotObject ∈ l.
Proof.
  induction l as [|[| | |o] l IH]; cbn.
  - split; [done|]. intros H. by apply elem_of_nil in H.
  - rewrite IH. split; [by right|]. by intros [?|?]%elem_of_cons.
  - rewrite IH. split; [by right|]. by intros [?|?]%elem_of_cons.
  - split; [left|done].
  - destruct (read_lines l now) eqn:Hr.
    + split; [done|]. intros [?|Hin]%elem_of_cons; [done|].
      by apply IH in Hin.
    + split; [|done]. intros _. right. by apply IH.
Qed.

Lemma feed_gifts_read lines o now gs :
  read_lines (drop o lines) now = Some gs →
  _read_file_feed (Some lines) o now
  = (match gs with
     | [] => None
     | _ => Some (mkGiftsData (now `quot` 1000000) gs)
     end, Nat.max o (length lines)).
Proof. intros Hr. unfold _read_file_feed. rewrite Hr. by destruct gs. Qed.

(** X15. Reading the feed in parts. When no line of the unread part breaks
    the read, the read consumes the file to its end; reading again without
    new lines returns [None]; and after lines are appended the next read
    returns their gifts alone, so that the two reads together return the
    gifts of the whole unread part, each once and in order. *)
Theorem feed_lines_read_once lines more o now gs :
  (o ≤ length lines)%nat →
  read_lines (drop o (lines ++ more)) now = Some gs →
  (_read_file_feed (Some lines) o now).2 = length lines
  ∧ _read_file_feed (Some lines) (length lines) now = (None, length lines)
  ∧ feed_gifts (_read_file_feed (Some lines) o now).1
    ++ feed_gifts
         (_read_file_feed (Some (lines ++ more))
            (_read_file_feed (Some lines) o now).2 now).1
    = gs.
Proof.
  intros Ho Hall.
  rewrite drop_app, read_lines_app in Hall.
  replace (o - length lines)%nat with 0%nat in Hall by lia.
  rewrite drop_0 in Hall.
  destruct (read_lines (drop o lines) now) as [g1|] eqn:H1; [|done].
  destruct (read_lines more now) as [g2|] eqn:H2; [|done].
  injection Hall as <-.
  rewrite (feed_gifts_read _ _ _ _ H1). cbn [fst snd].
  replace (Nat.max o (length lines)) with (length lines) by lia.
  split; [done|]. split.
  - unfold _read_file_feed. rewrite drop_all. cbn. f_equal. lia.
  - assert (H3 : read_lines (drop (length lines) (lines ++ more)) now
                 = Some g2).
    { by rewrite drop_app_length. }
    rewrite (feed_gifts_read _ _ _ _ H3). cbn [fst].
    by destruct g1, g2.
Qed.

Lemma feed_lines_read_once_witness :
  feed_gifts (_read_file_feed (Some [Object None; Invalid]) 0 0).1
  ++ feed_gifts
       (_read_file_feed (Some ([Object None; Invalid] ++ [Blank; Object None]))
          (_read_file_feed (Some [Object None; Invalid]) 0 0).2 0).1
  = [feed_gift None 0; feed_gift None 0].
Proof.
  apply (feed_lines_read_once [Object None; Invalid] [Blank; Object None]
           0 0 [feed_gift None 0; feed_gift None 0]).
  - cbn. lia.
  - reflexivity.
Defined.

(** X16. A line that is JSON but not an object, or whose [gift] is not one,
    stops the feed for good: while it is in the unread part the read returns
    [None] and the offset stays, whatever is appended, so the poll changes
    nothing and neither the lines before it nor those after it are ever
    delivered. *)
Theorem feed_blocked_by_bad_line m lines more o now cb :
  NotObject ∈ drop o lines →
  _read_file_feed (Some (lines ++ more)) o now = (None, o)
  ∧ poll_file_feed m o (Some (lines ++ more)) now cb = (m, o, []).
Proof.
  intros Hbad.
  assert (Hr : read_lines (drop o (lines ++ more)) now = None).
  { apply read_lines_None. rewrite drop_app. apply elem_of_app. by left. }
  assert (Hf : _read_file_feed (Some (lines ++ more)) o now = (None, o)).
  { unfold _read_file_feed. by rewrite Hr. }
  split; [done|]. unfold poll_file_feed. by rewrite Hf.
Qed.

Lemma feed_blocked_by_bad_line_witness :
  poll_file_feed GiftMonitor.init 0
    (Some ([Object None; NotObject] ++ [Object None])) 0 true
  = (GiftMonitor.init, 0%nat, []).
Proof.
  apply (feed_blocked_by_bad_line GiftMonitor.init [Object None; NotObject]
           [Object None] 0 0 true).
  cbn. right. left.
Defined.

(** X17. The token of a read is the clock in whole seconds. A batch read in
    the second whose number is the monitor's last token is consumed but not
    processed: the offset moves past it, the monitor stays and no event is
    made, and a later read does not return it again. *)
Theorem feed_batch_lost_in_same_second m lines o now later gs cb :
  (o ≤ length lines)%nat →
  read_lines (drop o lines) now = Some gs →
  now `quot` 1000000 = last_hash m →
  poll_file_feed m o (Some lines) now cb = (m, length lines, [])
  ∧ poll_file_feed m (length lines) (Some lines) later cb
    = (m, length lines, []).
Proof.
  intros Ho Hr Htok. split.
  - unfold poll_file_feed. rewrite (feed_gifts_read _ _ _ _ Hr).
    replace (Nat.max o (length lines)) with (length lines) by lia.
    destruct gs as [|g gs]; [done|].
    unfold _check_for_new_gifts. cbn [hash].
    apply Z.eqb_eq in Htok. by rewrite Htok.
  - unfold poll_file_feed, _read_file_feed. rewrite drop_all. cbn.
    by rewrite Nat.max_id.
Qed.

Lemma feed_batch_lost_in_same_second_witness :
  poll_file_feed (mkMonitor 5 ∅) 0 (Some [Object None]) 5000001 true
  = (mkMonitor 5 ∅, 1%nat, []).
Proof.
  apply (feed_batch_lost_in_same_second (mkMonitor 5 ∅) [Object None] 0
           5000001 0 [feed_gift None 5000001] true).
  - cbn. lia.
  - reflexivity.
  - reflexivity.
Defined.
End FeedFacts.

Module BotFacts.
Import NotificationEngine GiftMonitor Database App EngineStats Examples
  BotExamples AccountFacts DecisionFacts.

(** *** A property of the job objects, along the engine's operations *)

Section job_invariant.
Variable P : nat → NotificationJob → Prop.
Hypothesis P_retried : ∀ r job t, P r job → P r (retried job t).
Hypothesis P_scheduled : ∀ r job t, P r job → P r (set_scheduled_at job t).

Lemma requeue_job_all e r delay now :
  all_jobs P e → all_jobs P (requeue_job e r delay now).
Proof.
  intros H. unfold requeue_job.
  destruct (jobs e !! r) as [job|] eqn:Hr; [|done].
  assert (H' : ∀ r' j,
            <[r := retried job (now + Py.seconds delay)]> (jobs e) !! r'
            = Some j → P r' j).
  { intros r' j Hj. destruct (decide (r = r')) as [<-|Hne].
    - rewrite lookup_insert_eq in Hj. injection Hj as <-.
      by apply P_retried, H.
    - rewrite lookup_insert_ne in Hj by done. by apply H. }
  destruct (_ <? _); intros r' j Hj; by apply H'.
Qed.

Lemma send_all e r outcome done :
  all_jobs P e → all_jobs P (_send_notification e r outcome done).1.
Proof.
  intros H. destruct outcome; cbn [_send_notification fst]; try done.
  - apply requeue_job_all. intros r' j. cbn [jobs with_jobs].
    destruct (decide (r = r')) as [<-|Hne].
    + rewrite lookup_alter_eq. destruct (jobs e !! r) as [j0|] eqn:Hr; [|done].
      cbn. intros [= <-]. by apply P_scheduled, H.
    + rewrite lookup_alter_ne by done. by apply H.
  - by destruct (jobs e !! r).
  - by destruct (jobs e !! r).
Qed.

Lemma record_all e r done :
  all_jobs P e → all_jobs P (_record_notification e r done).
Proof. intros H. unfold _record_notification. by destruct (jobs e !! r). Qed.

Lemma process_queue_all e now done outcome :
  all_jobs P e → all_jobs P (_process_queue e now done outcome).1.
Proof.
  intros H. unfold _process_queue. destruct (processing e); [done|].
  cbn [_check_rate_limits]. destruct (negb _); [done|].
  unfold get_next_job. cbn [queue jobs with_sent_messages with_processing].
  destruct (pop_first _ _) as [[r rest]|]; [|done].
  set (e2 := with_queue rest _).
  assert (H2 : all_jobs P e2) by done.
  pose proof (send_all e2 r outcome done H2) as H3.
  destruct (_send_notification e2 r outcome done) as [e3 success].
  cbn [fst] in *. destruct success.
  - pose proof (record_all (with_stats (add_sent (stats e3)) e3) r done) as H4.
    intros r' j Hj. by apply H4.
  - pose proof (requeue_job_all e3 r 60 done H3) as H4.
    intros r' j Hj. by apply H4.
Qed.

Lemma create_loop_all tpl gift t p now user_ids : ∀ e,
  all_jobs P e →
  (∀ uid f r, uid ∈ user_ids → filters e !! uid = Some f →
     static_checks f gift now = true →
     P r (mkJob (mkJobId uid t now) uid (_generate_message tpl gift now) t p
            now now 0 3 gift
            (if has_buttons tpl then _generate_buttons tpl gift else None))) →
  all_jobs P (create_loop e tpl user_ids gift t p now).1.
Proof.
  induction user_ids as [|u rest IH]; intros e H Hnew; [done|].
  rewrite FilterFacts.create_loop_cons.
  pose proof (should_notify_decision e u gift t now) as Hdec.
  pose proof (FilterFacts.should_notify_frame e u gift t now) as Hfr.
  destruct (should_notify_user e u gift t now) as [e1 ok].
  cbn [fst snd] in *. destruct Hfr as (Hj1 & _ & _ & _ & Hf1 & _).
  assert (H1 : all_jobs P e1).
  { intros r j. rewrite Hj1. apply H. }
  assert (Hnew1 : ∀ uid f r, uid ∈ rest → filters e1 !! uid = Some f →
            static_checks f gift now = true →
            P r (mkJob (mkJobId uid t now) uid (_generate_message tpl gift now)
                   t p now now 0 3 gift
                   (if has_buttons tpl then _generate_buttons tpl gift
                    else None))).
  { intros uid f r Hin. rewrite Hf1. apply Hnew. by right. }
  destruct ok; [|by apply IH].
  unfold create_job, alloc.
  set (job := mkJob _ _ _ _ _ _ _ _ _ _ _).
  set (e2 := add_job _ _).
  specialize (IH e2).
  destruct (create_loop e2 tpl rest gift t p now) as [e3 ids].
  cbn [fst]. apply IH.
  - intros r j. subst e2. cbn [jobs add_job with_stats with_queue with_jobs
                                 with_next_ref].
    destruct (decide (next_ref e1 = r)) as [<-|Hne].
    + rewrite lookup_insert_eq. intros [= <-].
      unfold accepts in Hdec. rewrite <- Hf1 in Hdec.
      destruct (filters e1 !! u) as [f|] eqn:Hf; [|done].
      symmetry in Hdec. apply andb_true_iff in Hdec as [Hst _].
      apply (Hnew u f); [by left|by rewrite <- Hf1|done].
    + rewrite lookup_insert_ne by done. apply H1.
  - intros uid f r Hin Hf. apply Hnew1; [done|]. by rewrite <- Hf.
Qed.

Lemma create_notification_all e user_ids gift t p now :
  all_jobs P e →
  (∀ tpl uid f r, templates t = Some tpl → uid ∈ user_ids →
     filters e !! uid = Some f → static_checks f gift now = true →
     P r (mkJob (mkJobId uid t now) uid (_generate_message tpl gift now) t p
            now now 0 3 gift
            (if has_buttons tpl then _generate_buttons tpl gift else None))) →
  all_jobs P (create_notification e user_ids gift t p now).1.
Proof.
  intros H Hnew. unfold create_notification.
  destruct (templates t) as [tpl|] eqn:Ht; [|done].
  apply create_loop_all; [done|]. intros uid f r. by apply Hnew.
Qed.
End job_invariant.

(** *** A property of the bot, along a run *)

Section run_invariant.
Variable I : Bot → Prop.
Hypothesis I_gift : ∀ b gift k now,
  I b → _should_notify gift = true →
  I (handle_gift_event b gift (event_name k) now).
Hypothesis I_monitor : ∀ b m, I b → I (with_monitor m b).
Hypothesis I_dispatch : ∀ b now done outcome,
  I b → I (with_engine (_process_queue (engine b) now done outcome).1 b).
Hypothesis I_subscribe : ∀ b uid un fn ip now,
  I b →
  I (with_engine
       (with_users (subscribe_user (NotificationEngine.users (engine b)) uid un fn ip now).1
          (engine b)) b).

Lemma handle_events_invariant evs : ∀ b clock,
  I b → Forall (λ ev : Gift * EventType, _should_notify ev.1 = true) evs →
  I (handle_events b evs clock).
Proof.
  induction evs as [|[g k] evs IH]; intros b clock Hb Hall; [done|].
  apply Forall_cons in Hall as [Hg Hall]. cbn [handle_events].
  apply IH; [|done]. by apply I_gift.
Qed.

Lemma step_invariant b ev : I b → I (step b ev).1.
Proof.
  intros Hb.
  destruct ev as [data clock|now done outcome|uid un fn ip now]; cbn [step].
  - pose proof (PollFacts.check_events_notify (monitor b) data true) as Hn.
    destruct (_check_for_new_gifts (monitor b) data true) as [m evs'].
    cbn [fst snd] in *. apply handle_events_invariant; [by apply I_monitor|done].
  - pose proof (I_dispatch b now done outcome Hb) as Hd.
    by destruct (_process_queue (engine b) now done outcome).
  - by apply I_subscribe.
Qed.

Lemma run_invariant evs : ∀ b, I b → I (run b evs).1.
Proof.
  induction evs as [|ev evs IH]; intros b Hb; [done|].
  cbn [run]. pose proof (step_invariant b ev Hb) as H1.
  destruct (step b ev) as [b1 calls1]. specialize (IH b1 H1).
  by destruct (run b1 evs).
Qed.

(** What holds of the calls of every dispatcher step holds of the
    calls of the run. *)
Lemma run_calls (C : SendCall → Prop) :
  (∀ b now done outcome c,
     I b → c ∈ (_process_queue (engine b) now done outcome).2 → C c) →
  ∀ evs b c, I b → c ∈ (run b evs).2 → C c.
Proof.
  intros HC. induction evs as [|ev evs IH]; intros b c Hb Hc.
  - by apply elem_of_nil in Hc.
  - cbn [run] in Hc. pose proof (step_invariant b ev Hb) as H1.
    assert (H2 : ∀ c', c' ∈ (step b ev).2 → C c').
    { intros c' Hc'.
      destruct ev as [data clock|now done outcome|uid un fn ip now];
        cbn [step] in Hc'.
      - destruct (_check_for_new_gifts (monitor b) data true).
        by apply elem_of_nil in Hc'.
      - apply (HC b now done outcome c' Hb).
        by destruct (_process_queue (engine b) now done outcome).
      - by apply elem_of_nil in Hc'. }
    destruct (step b ev) as [b1 calls1]. specialize (IH b1).
    destruct (run b1 evs) as [b2 calls2]. cbn [fst snd] in *.
    apply elem_of_app in Hc as [Hc|Hc]; [by apply H2|by apply IH].
Qed.
End run_invariant.

(** The call of a dispatcher step is for a job of the store that was
    in the queue and due. *)
Lemma process_queue_call e now done outcome c :
  c ∈ (_process_queue e now done outcome).2 →
  ∃ job, jobs e !! call_ref c = Some job
         ∧ call_user_id c = user_id job
         ∧ call_outcome c = outcome ∧ call_done c = done
         ∧ call_ref c ∈ queue e
         ∧ eligible (jobs e) now (call_ref c) = true.
Proof.
  unfold _process_queue. destruct (processing e).
  { intros H. by apply elem_of_nil in H. }
  cbn [_check_rate_limits]. destruct (negb _).
  { intros H. by apply elem_of_nil in H. }
  unfold get_next_job. cbn [queue jobs with_sent_messages with_processing].
  destruct (pop_first _ _) as [[r rest]|] eqn:Hpop.
  2:{ intros H. by apply elem_of_nil in H. }
  apply HistoryFacts.pop_first_Some in Hpop as [Hel Hin].
  destruct (HistoryFacts.eligible_job _ _ _ Hel) as [job Hjob].
  destruct (_send_notification _ r outcome done) as [e3 success].
  cbn [snd]. intros ->%list_elem_of_singleton. cbn.
  exists job. unfold call_user. cbn. rewrite Hjob. by repeat split.
Qed.

(** *** What the bot queues and whom it sends to *)

Lemma static_checks_row row gift now :
  static_checks (filter_of_row row) gift now = true →
  Db.min_stars row ≤ stars gift ≤ Db.max_stars row.
Proof.
  unfold static_checks, filter_of_row. cbn.
  intros H. repeat (apply andb_true_iff in H as [H _]).
  apply negb_true_iff, orb_false_iff in H as [H1 H2].
  apply Z.ltb_ge in H1, H2. lia.
Qed.

Lemma init_filters_from users t0 :
  filters_from users (NotificationEngine.init users t0).
Proof.
  intros uid f Hf.
  destruct (users !! uid) as [row|] eqn:Hrow.
  - destruct (Db.notifications_enabled row) eqn:Hon.
    + exists row. rewrite (init_filter _ _ _ _ Hrow Hon) in Hf.
      injection Hf as <-. by repeat split.
    + rewrite FilterFacts.init_filters_disabled in Hf; [done|].
      intros row'. rewrite Hrow. by intros [= <-].
  - rewrite FilterFacts.init_filters_disabled in Hf; [done|].
    intros row'. by rewrite Hrow.
Qed.

Lemma alert_job_retried users job t :
  alert_job users job → alert_job users (retried job t).
Proof. done. Qed.

Lemma alert_job_scheduled users job t :
  alert_job users job → alert_job users (set_scheduled_at job t).
Proof. done. Qed.

Lemma event_kind k :
  notification_of (event_name k)
  = match k with new => (NEW_GIFT, HIGH) | updated => (GIFT_UPDATE, NORMAL) end.
Proof. by destruct k. Qed.

Lemma alerts_only_gift users b gift k now :
  alerts_only users b → _should_notify gift = true →
  alerts_only users (handle_gift_event b gift (event_name k) now).
Proof.
  intros [Hf Hj] Hgift. unfold handle_gift_event. rewrite event_kind.
  destruct k.
  - destruct (map fst _) as [|u us]; [done|].
    pose proof (create_notification_filters (engine b) (u :: us) gift
                  NEW_GIFT HIGH now) as Hfilters.
    pose proof (create_notification_all (λ _, alert_job users)
                  (engine b) (u :: us) gift NEW_GIFT HIGH now Hj) as Hall.
    destruct (create_notification (engine b) (u :: us) gift NEW_GIFT HIGH now)
      as [e ids].
    cbn [fst] in *. split; cbn [engine].
    + intros uid f. rewrite Hfilters. apply Hf.
    + apply Hall. intros tpl uid f r Htpl _ Hlook Hst.
      destruct (Hf uid f Hlook) as (row & Hrow & Hon & ->).
      destruct (RenderFacts.new_gift_message gift now)
        as (tpl' & Htpl' & Hmsg).
      rewrite Htpl in Htpl'. injection Htpl' as <-.
      split.
      2:{ repeat (split; [done|]). cbn [metadata message]. rewrite Hmsg.
          by destruct (availability_overflows gift). }
      exists row. split; [done|]. split; [done|].
      by apply (static_checks_row row gift now).
  - destruct (map fst _) as [|u us]; [done|]. done.
Qed.

Lemma alerts_only_run users b evs :
  alerts_only users b → alerts_only users (run b evs).1.
Proof.
  apply (run_invariant (alerts_only users)).
  - apply alerts_only_gift.
  - done.
  - intros b' now done outcome [Hf Hj]. split; cbn [engine with_engine].
    + intros uid f. rewrite process_queue_filters. apply Hf.
    + by apply process_queue_all.
  - done.
Qed.

Lemma alerts_only_start users initial t0 :
  alerts_only users (start users initial t0).
Proof.
  split; [apply init_filters_from|].
  intros r job. unfold start, NotificationEngine.init, load_user_filters.
  cbn. by rewrite lookup_empty.
Qed.

(** X18. Whatever is polled, dispatched and subscribed, every job object the
    bot ever makes is a gift alert: for a user who was a subscriber with
    notifications on when the bot started and whose price range then holds
    the gift; of kind [NEW_GIFT] and priority [HIGH]; for a gift that is
    limited, not sold out and priced; with the formatted [NEW_GIFT]
    message, or with the text of the generic [except] clause when the
    two counts of the gift have a quotient that rounds beyond the floats.
    In particular an ['updated'] event never makes a job. *)
Theorem bot_queues_only_gift_alerts users initial t0 evs r job :
  jobs (engine (run (start users initial t0) evs).1) !! r = Some job →
  alert_job users job.
Proof.
  intros Hjob.
  destruct (alerts_only_run users (start users initial t0) evs
              (alerts_only_start users initial t0)) as [_ Hall].
  by apply (Hall r job).
Qed.

Lemma bot_queues_only_gift_alerts_witness :
  ∃ job, jobs (engine (run started found_then_blocked).1) !! 0%nat = Some job
         ∧ alert_job subscribers job.
Proof.
  eexists. split; [vm_compute; reflexivity|].
  apply (bot_queues_only_gift_alerts subscribers None 0 found_then_blocked
           0%nat).
  vm_compute. reflexivity.
Defined.

(** X19. Every call of [send_message] the bot makes is to a user who had a
    row with notifications on when the bot started: a user who subscribes
    later, or whose notifications were off then, is never sent anything. *)
Theorem bot_sends_to_start_up_subscribers users initial t0 evs c :
  c ∈ (run (start users initial t0) evs).2 →
  ∃ row, users !! call_user_id c = Some row
         ∧ Db.notifications_enabled row = true.
Proof.
  intros Hc.
  apply run_calls with (I := alerts_only users)
    (C := λ c, ∃ row, users !! call_user_id c = Some row
                      ∧ Db.notifications_enabled row = true)
    (evs := evs) (b := start users initial t0).
  - apply alerts_only_gift.
  - done.
  - intros b' now done outcome [Hf Hj]. split; cbn [engine with_engine].
    + intros uid f. rewrite process_queue_filters. apply Hf.
    + by apply process_queue_all.
  - done.
  - intros b now done outcome c' [_ Hj] Hc'.
    destruct (process_queue_call _ _ _ _ _ Hc') as (job & Hjob & -> & _).
    destruct (Hj _ _ Hjob) as [(row & Hrow & Hon & _) _]. eauto.
  - apply alerts_only_start.
  - done.
Qed.
Lemma bot_sends_to_start_up_subscribers_witness :
  ∃ row, subscribers !! call_user_id refused = Some row
         ∧ Db.notifications_enabled row = true.
Proof.
  apply (bot_sends_to_start_up_subscribers subscribers None 0
           found_then_blocked refused).
  assert (H : (run (start subscribers None 0) found_then_blocked).2
              = [refused]) by (vm_compute; reflexivity).
  rewrite H. left.
Defined.

(** *** A user who blocked the bot *)

Lemma requeue_job_users e r delay now :
  users (requeue_job e r delay now) = users e.
Proof.
  unfold requeue_job. destruct (jobs e !! r); [|done]. by destruct (_ <? _).
Qed.

Lemma create_loop_users tpl gift t p now user_ids : ∀ e,
  users (create_loop e tpl user_ids gift t p now).1 = users e.
Proof.
  induction user_ids as [|u rest IH]; intros e; [done|].
  rewrite FilterFacts.create_loop_cons.
  pose proof (FilterFacts.should_notify_frame e u gift t now) as Hfr.
  destruct (should_notify_user e u gift t now) as [e1 ok].
  cbn [fst] in Hfr. destruct Hfr as (_ & _ & _ & _ & _ & _ & _ & Hu & _).
  destruct ok; [|by rewrite IH].
  unfold create_job, alloc. set (e2 := add_job _ _).
  specialize (IH e2). destruct (create_loop e2 tpl rest gift t p now).
  cbn [fst] in *. by rewrite IH.
Qed.

Lemma create_notification_users e user_ids gift t p now :
  users (create_notification e user_ids gift t p now).1 = users e.
Proof.
  unfold create_notification. destruct (templates t); [|done].
  apply create_loop_users.
Qed.

Lemma handle_gift_event_users b gift name now :
  NotificationEngine.users (engine (handle_gift_event b gift name now)) = NotificationEngine.users (engine b).
Proof.
  unfold handle_gift_event. destruct (notification_of name) as [t p].
  destruct (map fst _) as [|u us]; [done|].
  pose proof (create_notification_users (engine b) (u :: us) gift t p now).
  by destruct (create_notification (engine b) (u :: us) gift t p now).
Qed.

(** The table after a dispatcher step: the row of the user of a call
    that was refused as blocked is turned off, nothing else changes. *)
Lemma process_queue_users e now done outcome :
  users (_process_queue e now done outcome).1
  = match (_process_queue e now done outcome).2 with
    | [c] => if blocked (call_outcome c)
             then Db.disable_notifications (call_user_id c) (users e)
             else users e
    | _ => users e
    end.
Proof.
  unfold _process_queue. destruct (processing e); [done|].
  cbn [_check_rate_limits]. destruct (negb _); [done|].
  unfold get_next_job. cbn [queue jobs with_sent_messages with_processing].
  destruct (pop_first _ _) as [[r rest]|] eqn:Hpop; [|done].
  apply HistoryFacts.pop_first_Some in Hpop as [Hel _].
  destruct (HistoryFacts.eligible_job _ _ _ Hel) as [job Hjob].
  set (e2 := with_queue rest _).
  assert (Hj2 : jobs e2 !! r = Some job) by done.
  assert (Hu2 : users e2 = users e) by done.
  unfold call_user. rewrite Hj2. cbn [snd call_outcome call_user_id].
  destruct outcome; cbn [_send_notification blocked]; rewrite ?Hj2;
    cbn [fst snd users with_processing call_outcome call_user_id blocked].
  - unfold _record_notification.
    cbn [jobs with_stats with_sent_messages]. rewrite Hj2. done.
  - by rewrite !requeue_job_users.
  - by rewrite requeue_job_users.
  - by rewrite requeue_job_users.
  - by rewrite requeue_job_users.
Qed.

Lemma process_queue_one_call e now done outcome :
  (length (_process_queue e now done outcome).2 ≤ 1)%nat.
Proof.
  unfold _process_queue. destruct (processing e); [cbn; lia|].
  cbn [_check_rate_limits]. destruct (negb _); [cbn; lia|].
  destruct (get_next_job _ _) as [[r0 e2]|]; [|cbn; lia].
  destruct (_send_notification _ _ _ _). cbn. lia.
Qed.

Lemma turned_off_disable users uid u :
  turned_off users uid → turned_off (Db.disable_notifications u users) uid.
Proof.
  intros (row & Hrow & Hoff). unfold Db.disable_notifications.
  destruct (decide (u = uid)) as [->|Hne].
  - exists (Db.disable row). rewrite lookup_alter_eq, Hrow. done.
  - exists row. by rewrite lookup_alter_ne.
Qed.

Lemma turned_off_subscribe users uid u un fn ip now :
  turned_off users uid →
  turned_off (subscribe_user users u un fn ip now).1 uid.
Proof.
  intros (row & Hrow & Hoff). unfold subscribe_user, get_user, add_user.
  destruct (users !! u) as [x|] eqn:Hu; [by exists row|].
  exists row. cbn. rewrite lookup_insert_ne; [done|]. intros ->. congruence.
Qed.

Lemma turned_off_dispatch e uid now done outcome :
  turned_off (users e) uid →
  turned_off (users (_process_queue e now done outcome).1) uid.
Proof.
  intros Hoff. rewrite process_queue_users.
  destruct (_process_queue e now done outcome).2 as [|c [|c' l]]; try done.
  destruct (blocked (call_outcome c)); [|done].
  by apply turned_off_disable.
Qed.

Lemma turned_off_run uid evs b :
  turned_off (NotificationEngine.users (engine b)) uid →
  turned_off (NotificationEngine.users (engine (run b evs).1)) uid.
Proof.
  apply (run_invariant (λ b, turned_off (NotificationEngine.users (engine b)) uid)).
  - intros b' gift k now H _. by rewrite handle_gift_event_users.
  - done.
  - intros b' now done outcome H. by apply turned_off_dispatch.
  - intros b' u un fn ip now H. by apply turned_off_subscribe.
Qed.

Lemma rows_kept_run users evs b :
  rows_kept users b → rows_kept users (run b evs).1.
Proof.
  apply (run_invariant (rows_kept users)).
  - intros b' gift k now H _ uid Hu.
    rewrite handle_gift_event_users. by apply H.
  - done.
  - intros b' now done outcome H uid Hu. cbn [engine with_engine].
    rewrite process_queue_users. specialize (H uid Hu).
    destruct (_process_queue (engine b') now done outcome).2
      as [|c [|c' l]]; try done.
    destruct (blocked (call_outcome c)); [|done].
    unfold Db.disable_notifications.
    destruct (decide (call_user_id c = uid)) as [->|Hne].
    + rewrite lookup_alter_eq. destruct H as [x ->]. by eexists.
    + by rewrite lookup_alter_ne.
  - intros b' u un fn ip now H uid Hu. cbn. specialize (H uid Hu).
    unfold subscribe_user, get_user, add_user.
    destruct (NotificationEngine.users (engine b') !! u) eqn:Hlook; [done|]. cbn.
    destruct (decide (u = uid)) as [->|Hne].
    + rewrite lookup_insert_eq. by eexists.
    + by rewrite lookup_insert_ne.
Qed.

(** Once a send to a user was refused as blocked, the row of the user
    is off. *)
Lemma blocked_turned_off users evs : ∀ b c,
  alerts_only users b → rows_kept users b →
  c ∈ (run b evs).2 → blocked (call_outcome c) = true →
  turned_off (NotificationEngine.users (engine (run b evs).1)) (call_user_id c).
Proof.
  induction evs as [|ev evs IH]; intros b c Ha Hk Hc Hb.
  - by apply elem_of_nil in Hc.
  - pose proof (alerts_only_run users b [ev] Ha) as Ha1.
    pose proof (rows_kept_run users [ev] b Hk) as Hk1.
    pose proof (turned_off_run (call_user_id c) evs (step b ev).1) as Hkeep.
    cbn [run] in *. destruct (step b ev) as [b1 calls1] eqn:Hstep.
    cbn [fst] in *. specialize (IH b1 c Ha1 Hk1).
    destruct (run b1 evs) as [b2 calls2]. cbn [fst snd] in *.
    apply elem_of_app in Hc as [Hc|Hc]; [|by apply IH].
    apply Hkeep.
    destruct ev as [data clock|now done outcome|uid un fn ip now];
      cbn [step] in Hstep.
    + destruct (_check_for_new_gifts (monitor b) data true).
      injection Hstep as <- <-. by apply elem_of_nil in Hc.
    + pose proof (process_queue_users (engine b) now done outcome) as Hu.
      pose proof (process_queue_call (engine b) now done outcome c) as Hcall.
      pose proof (process_queue_one_call (engine b) now done outcome) as Hlen.
      destruct (_process_queue (engine b) now done outcome) as [e calls].
      injection Hstep as <- <-. cbn [fst snd] in *.
      destruct (Hcall Hc) as (job & Hjob & Huid & _).
      destruct Ha as [_ Hj].
      destruct (Hj _ _ Hjob) as [(row & Hrow & _) _].
      destruct (Hk (user_id job)) as [row' Hrow']; [by eauto|].
      destruct calls as [|c1 [|c2 l]];
        [by apply elem_of_nil in Hc| |cbn in Hlen; lia].
      apply list_elem_of_singleton in Hc as ->. rewrite Hb in Hu.
      cbn [engine with_engine]. rewrite Hu, Huid.
      exists (Db.disable row'). unfold Db.disable_notifications.
      by rewrite lookup_alter_eq, Hrow'.
    + injection Hstep as <- <-. by apply elem_of_nil in Hc.
Qed.

(** X20. A user whose send was refused as blocked gets no new job: the row
    of the user stays off whatever happens next, a new subscription
    included, and every job object for the user was already in the store
    when the run of the refusal ended. *)
Theorem blocked_user_gets_no_new_job users initial t0 evs1 evs2 c :
  c ∈ (run (start users initial t0) evs1).2 →
  blocked (call_outcome c) = true →
  turned_off
    (NotificationEngine.users
       (engine (run (run (start users initial t0) evs1).1 evs2).1))
    (call_user_id c)
  ∧ ∀ r job,
      jobs (engine (run (run (start users initial t0) evs1).1 evs2).1) !! r
      = Some job →
      user_id job = call_user_id c →
      is_Some (jobs (engine (run (start users initial t0) evs1).1) !! r).
Proof.
  intros Hc Hb.
  assert (Hoff : turned_off
                   (NotificationEngine.users (engine (run (start users initial t0) evs1).1))
                   (call_user_id c)).
  { apply (blocked_turned_off users); [apply alerts_only_start| |done|done].
    intros uid Hu. unfold start, NotificationEngine.init, load_user_filters.
    by cbn. }
  set (b1 := (run (start users initial t0) evs1).1) in *.
  set (uid := call_user_id c) in *.
  split; [by apply turned_off_run|].
  pose (K := λ b : Bot,
          turned_off (NotificationEngine.users (engine b)) uid
          ∧ all_jobs (λ r job, user_id job = uid →
                               is_Some (jobs (engine b1) !! r)) (engine b)).
  assert (HK : K (run b1 evs2).1).
  { apply (run_invariant K).
    - intros b gift k now [Hoff' Hj] _. split.
      { by rewrite handle_gift_event_users. }
      unfold handle_gift_event. destruct (notification_of _) as [t p].
      destruct (map fst _) as [|u us] eqn:Hids; [done|].
      pose proof (create_notification_all
                    (λ r job, user_id job = uid →
                              is_Some (jobs (engine b1) !! r))
                    (engine b) (u :: us) gift t p now Hj) as Hall.
      destruct (create_notification (engine b) (u :: us) gift t p now)
        as [e ids].
      cbn [fst engine] in *. apply Hall.
      intros tpl uid' f r _ Hin _ _. cbn [user_id]. intros ->.
      exfalso. rewrite <- Hids in Hin.
      apply list_elem_of_fmap in Hin as ([u' row'] & Hfst & Hin).
      cbn in Hfst. subst u'.
      apply list_elem_of_In, List.filter_In in Hin as [Hin _].
      apply list_elem_of_In, FilterFacts.get_all_users_enabled in Hin
        as [Hrow' Hon'].
      destruct Hoff' as (row & Hrow & Hoff'). congruence.
    - done.
    - intros b now done outcome [Hoff' Hj]. split.
      + by apply turned_off_dispatch.
      + by apply process_queue_all.
    - intros b u un fn ip now [Hoff' Hj]. split; [|done].
      by apply turned_off_subscribe.
    - split; [done|]. intros r job Hjob _. by eexists. }
  destruct HK as [_ HK]. intros r job Hjob Huid. by apply (HK r job).
Qed.
Lemma blocked_user_gets_no_new_job_witness :
  turned_off
    (NotificationEngine.users
       (engine (run (run started found_then_blocked).1 found_again).1))
    (call_user_id refused).
Proof.
  apply (blocked_user_gets_no_new_job subscribers None 0 found_then_blocked
           found_again refused).
  - assert (H : (run (start subscribers None 0) found_then_blocked).2
                = [refused]) by (vm_compute; reflexivity).
    rewrite H. left.
  - reflexivity.
Defined.

(** *** The counters and the tables *)

Lemma handle_gift_event_counts b gift name now :
  dom (jobs (engine b)) = set_seq 0 (next_ref (engine b)) →
  notifications_sent b = Z.of_nat (next_ref (engine b)) →
  dom (jobs (engine (handle_gift_event b gift name now)))
  = set_seq 0 (next_ref (engine (handle_gift_event b gift name now)))
  ∧ notifications_sent (handle_gift_event b gift name now)
    = Z.of_nat (next_ref (engine (handle_gift_event b gift name now)))
  ∧ total_sent (stats (engine (handle_gift_event b gift name now)))
    = total_sent (stats (engine b)).
Proof.
  intros Hd Hn. unfold handle_gift_event.
  destruct (notification_of name) as [t p].
  destruct (map fst _) as [|u us]; [done|].
  pose proof (create_notification_accounted (engine b) (u :: us) gift t p now)
    as Hacc.
  assert (Hdom : dom (jobs (create_notification (engine b) (u :: us) gift t p
                              now).1)
                 = set_seq 0 (next_ref (create_notification (engine b)
                                          (u :: us) gift t p now).1)).
  { unfold create_notification. destruct (templates t); [|done].
    by apply create_loop_dom. }
  destruct (create_notification (engine b) (u :: us) gift t p now)
    as [e ids].
  cbn [fst snd engine notifications_sent] in *.
  destruct Hacc as (_ & Hnext & Hsent). split; [done|]. split; [|done].
  rewrite Hnext, Hn. lia.
Qed.

Lemma run_counts evs : ∀ b,
  dom (jobs (engine b)) = set_seq 0 (next_ref (engine b)) →
  notifications_sent b = Z.of_nat (next_ref (engine b)) →
  dom (jobs (engine (run b evs).1))
  = set_seq 0 (next_ref (engine (run b evs).1))
  ∧ notifications_sent (run b evs).1
    = Z.of_nat (next_ref (engine (run b evs).1))
  ∧ total_sent (stats (engine (run b evs).1))
    = total_sent (stats (engine b)) + Z.of_nat (length (sends (run b evs).2)).
Proof.
  assert (Hevs : ∀ (l : list (Gift * EventType)) b clock,
    dom (jobs (engine b)) = set_seq 0 (next_ref (engine b)) →
    notifications_sent b = Z.of_nat (next_ref (engine b)) →
    dom (jobs (engine (handle_events b l clock)))
    = set_seq 0 (next_ref (engine (handle_events b l clock)))
    ∧ notifications_sent (handle_events b l clock)
      = Z.of_nat (next_ref (engine (handle_events b l clock)))
    ∧ total_sent (stats (engine (handle_events b l clock)))
      = total_sent (stats (engine b))).
  { induction l as [|[g k] l IH]; intros b clock Hd Hn; [done|].
    cbn [handle_events].
    destruct (handle_gift_event_counts b g (event_name k) (clock 0%nat) Hd Hn)
      as (Hd1 & Hn1 & Hs1).
    destruct (IH _ (λ i, clock (S i)) Hd1 Hn1) as (Hd2 & Hn2 & Hs2).
    split; [done|]. split; [done|]. congruence. }
  induction evs as [|ev evs IH]; intros b Hd Hn.
  - cbn. split; [done|]. split; [done|]. lia.
  - cbn [run].
    assert (H1 : dom (jobs (engine (step b ev).1))
                 = set_seq 0 (next_ref (engine (step b ev).1))
                 ∧ notifications_sent (step b ev).1
                   = Z.of_nat (next_ref (engine (step b ev).1))
                 ∧ total_sent (stats (engine (step b ev).1))
                   = total_sent (stats (engine b))
                     + Z.of_nat (length (sends (step b ev).2))).
    { destruct ev as [data clock|now done outcome|uid un fn ip now];
        cbn [step].
      - destruct (_check_for_new_gifts (monitor b) data true) as [m l].
        cbn [fst snd].
        destruct (Hevs l (with_monitor m b) clock Hd Hn) as (? & ? & Hs).
        split; [done|]. split; [done|]. rewrite Hs. cbn. lia.
      - pose proof (process_queue_accounted (engine b) now done outcome)
          as Hacc.
        pose proof (process_queue_dom (engine b) now done outcome) as Hdom.
        destruct (_process_queue (engine b) now done outcome) as [e calls].
        cbn [fst snd engine with_engine notifications_sent] in *.
        destruct Hacc as (_ & Hsent & Hnext).
        rewrite Hdom, Hnext. done.
      - cbn. split; [done|]. split; [done|]. lia. }
    destruct (step b ev) as [b1 calls1].
    cbn [fst snd] in H1. destruct H1 as (Hd1 & Hn1 & Hs1).
    specialize (IH b1 Hd1 Hn1). destruct (run b1 evs) as [b2 calls2].
    cbn [fst snd] in *. destruct IH as (Hd2 & Hn2 & Hs2).
    split; [done|]. split; [done|].
    rewrite Hs2, Hs1, sends_app, length_app. lia.
Qed.

(** X21. The counter [notifications_sent] of the bot is the number of job
    objects made, whatever became of them; the engine's [total_sent] is the
    number of sends that went through. *)
Theorem bot_counts_jobs_not_sends users initial t0 evs :
  notifications_sent (run (start users initial t0) evs).1
  = Z.of_nat (size (jobs (engine (run (start users initial t0) evs).1)))
  ∧ total_sent (stats (engine (run (start users initial t0) evs).1))
    = Z.of_nat (length (sends (run (start users initial t0) evs).2)).
Proof.
  destruct (run_counts evs (start users initial t0)) as (Hd & Hn & Hs).
  - unfold start, NotificationEngine.init, load_user_filters. cbn.
    by rewrite dom_empty_L.
  - done.
  - split.
    + rewrite Hn. f_equal. rewrite <- size_dom, Hd. by rewrite size_set_seq.
    + rewrite Hs. unfold start, NotificationEngine.init, load_user_filters.
      cbn. lia.
Qed.

Lemma handle_gift_event_table (P : GiftRow → Prop) b gift name now :
  (∀ i row, gifts_table b !! i = Some row → P row) →
  P (mkGiftRow (title gift) (stars gift) (limited gift) (sold_out gift)
       (require_premium gift) (can_upgrade gift) now now
       (availability_remains gift) (availability_total gift)) →
  ∀ i row, gifts_table (handle_gift_event b gift name now) !! i = Some row →
           P row.
Proof.
  intros H Hnew i row. unfold handle_gift_event.
  destruct (notification_of name) as [t p].
  destruct (map fst _) as [|u us]; [apply H|].
  destruct (create_notification (engine b) (u :: us) gift t p now).
  cbn [gifts_table]. unfold add_gift.
  destruct (decide (gift_id gift = i)) as [<-|Hne].
  - rewrite lookup_insert_eq. by intros [= <-].
  - rewrite lookup_insert_ne by done. apply H.
Qed.

(** X22. Every row of the gifts table is of a gift that was limited, not
    sold out and priced when it was saved, and its [first_seen] is its
    [last_updated]: saving a gift again resets [first_seen]. *)
Theorem saved_gifts_are_alerts users initial t0 evs i row :
  gifts_table (run (start users initial t0) evs).1 !! i = Some row →
  row_limited row = true ∧ row_sold_out row = false ∧ 0 < row_stars row
  ∧ first_seen row = last_updated row.
Proof.
  pose (P := λ row : GiftRow,
          row_limited row = true ∧ row_sold_out row = false
          ∧ 0 < row_stars row ∧ first_seen row = last_updated row).
  assert (H : ∀ i row,
            gifts_table (run (start users initial t0) evs).1 !! i = Some row →
            P row).
  { apply (run_invariant
             (λ b, ∀ i row, gifts_table b !! i = Some row → P row)).
    - intros b gift k now Hb Hg. apply handle_gift_event_table; [done|].
      unfold _should_notify in Hg.
      apply andb_true_iff in Hg as [[Hl Hs]%andb_true_iff Hp].
      apply negb_true_iff in Hs. apply Z.ltb_lt in Hp. by repeat split.
    - done.
    - done.
    - done.
    - intros i' row'. unfold start. cbn. by rewrite lookup_empty. }
  apply H.
Qed.

Lemma saved_gifts_are_alerts_witness :
  ∃ row, gifts_table (run started found_then_blocked).1 !! 42 = Some row
         ∧ first_seen row = last_updated row.
Proof.
  eexists. split; [vm_compute; reflexivity|].
  apply (saved_gifts_are_alerts subscribers None 0 found_then_blocked 42).
  vm_compute. reflexivity.
Defined.

(** X23. [show_statistics] reads the users with notifications on, so the
    total it shows is the number of active users: both counts are the number
    of rows with notifications on. *)
Theorem show_statistics_total_is_active users :
  show_statistics users
  = (length (Db.get_all_users users), length (Db.get_all_users users)).
Proof.
  unfold show_statistics. f_equal. f_equal.
  unfold Db.get_all_users.
  rewrite MonitorFacts.filter_filter_andb.
  apply List.filter_ext. intros [u row]. by destruct (Db.notifications_enabled _).
Qed.
End BotFacts.

Module RetryFacts.
Import NotificationEngine Invariants Examples EngineStats HistoryFacts
  QueueFacts QueueMore.

Lemma occurrences_app r l1 l2 :
  occurrences r (l1 ++ l2) = (occurrences r l1 + occurrences r l2)%nat.
Proof. unfold occurrences. by rewrite List.filter_app, length_app. Qed.

Lemma occurrences_cons r x l :
  occurrences r (x :: l)
  = ((if Nat.eqb r x then 1 else 0) + occurrences r l)%nat.
Proof. unfold occurrences. cbn. by destruct (Nat.eqb r x). Qed.

Lemma occurrences_perm r l l' :
  l ≡ₚ l' → occurrences r l = occurrences r l'.
Proof.
  induction 1 as [|x l l' _ IH|x y l|l l' l'' _ IH1 _ IH2].
  - done.
  - by rewrite !occurrences_cons, IH.
  - rewrite !occurrences_cons. lia.
  - congruence.
Qed.

Lemma occurrences_add_job e r r' :
  occurrences r' (queue (add_job e r))
  = (occurrences r' (queue e) + (if Nat.eqb r' r then 1 else 0))%nat.
Proof.
  unfold add_job. cbn [queue with_stats with_queue].
  rewrite (occurrences_perm _ _ _ (sort_reverse_perm _ _)).
  rewrite occurrences_app, occurrences_cons.
  change (occurrences r' []) with 0%nat. destruct (Nat.eqb r' r); lia.
Qed.

Lemma retry_refl e r job : jobs e !! r = Some job → retry_step e e r.
Proof.
  intros H. split; [done|]. split; [done|].
  exists job, job. repeat split; try done; lia.
Qed.

Lemma retry_trans e1 e2 e3 r :
  retry_step e1 e2 r → retry_step e2 e3 r → retry_step e1 e3 r.
Proof.
  intros (Hn1 & Ho1 & j1 & j1' & Hj1 & Hj1' & Hm1 & Ha1 & Hq1)
         (Hn2 & Ho2 & j2 & j2' & Hj2 & Hj2' & Hm2 & Ha2 & Hq2).
  rewrite Hj1' in Hj2. injection Hj2 as <-.
  split; [congruence|]. split.
  - intros r' Hne. destruct (Ho1 r' Hne), (Ho2 r' Hne). split; congruence.
  - exists j1, j2'. repeat split; try done; try congruence; lia.
Qed.

(** [retry_step] looks at the store, the queue and the reference
    counter only. *)
Lemma retry_same e1 e1' e2 e2' r :
  jobs e1' = jobs e1 → queue e1' = queue e1 → next_ref e1' = next_ref e1 →
  jobs e2' = jobs e2 → queue e2' = queue e2 → next_ref e2' = next_ref e2 →
  retry_step e1 e2 r → retry_step e1' e2' r.
Proof.
  unfold retry_step. intros -> -> -> -> -> ->. done.
Qed.

Lemma requeue_job_retry e r job delay now :
  jobs e !! r = Some job → retry_step e (requeue_job e r delay now) r.
Proof.
  intros Hjob. unfold requeue_job. rewrite Hjob.
  set (job' := retried job _).
  set (e' := with_jobs _ e).
  assert (H : ∀ e'', jobs e'' = jobs e' → next_ref e'' = next_ref e →
    (∀ r', (occurrences r' (queue e'')
            ≤ occurrences r' (queue e)
              + (if Nat.eqb r' r then 1 else 0))%nat
           ∧ (r' ≠ r → occurrences r' (queue e'')
                       = occurrences r' (queue e))) →
    retry_step e e'' r).
  { intros e'' Hj Hn Hq. split; [done|]. split.
    - intros r' Hne. rewrite Hj. subst e'. cbn [jobs with_jobs].
      rewrite lookup_insert_ne by done. split; [done|]. by apply Hq.
    - exists job, job'. rewrite Hj. subst e'. cbn [jobs with_jobs].
      rewrite lookup_insert_eq. repeat split; try done.
      + subst job'. cbn. lia.
      + destruct (Hq r) as [Hle _]. rewrite Nat.eqb_refl in Hle.
        subst job'. cbn [attempts retried].
                clear -Hle. lia. }
  destruct (_ <? _).
  - apply H; [done|done|]. intros r'. rewrite occurrences_add_job.
    subst e'. cbn [queue with_jobs]. split; [done|].
    intros Hne. apply Nat.eqb_neq in Hne. rewrite Hne. lia.
  - apply H; [done|done|]. intros r'. subst e'.
    cbn [queue with_jobs with_stats].
    split; [destruct (Nat.eqb r' r); lia|done].
Qed.

Lemma send_retry e r job outcome done :
  jobs e !! r = Some job →
  retry_step e (_send_notification e r outcome done).1 r.
Proof.
  intros Hjob. destruct outcome; cbn [_send_notification fst].
  - apply (retry_same e _ e); try done. by apply (retry_refl _ _ job).
  - set (e1 := with_jobs _ e).
    apply (retry_trans e e1).
    + split; [done|]. split.
      * intros r' Hne. subst e1. cbn [jobs with_jobs queue].
        by rewrite lookup_alter_ne.
      * exists job, (set_scheduled_at job (done + Py.seconds wait)).
        subst e1. cbn [jobs with_jobs queue].
        rewrite lookup_alter_eq, Hjob. cbn. repeat split; try done; lia.
    + apply (requeue_job_retry _ _
               (set_scheduled_at job (done + Py.seconds wait))).
      subst e1. cbn [jobs with_jobs]. by rewrite lookup_alter_eq, Hjob.
  - rewrite Hjob. cbn [fst].
    apply (retry_same e _ e); try done. by apply (retry_refl _ _ job).
  - rewrite Hjob. cbn [fst].
    apply (retry_same e _ e); try done. by apply (retry_refl _ _ job).
  - by apply (retry_refl _ _ job).
Qed.

Lemma calls_of_app r a b : calls_of r (a ++ b) = calls_of r a ++ calls_of r b.
Proof. unfold calls_of. by rewrite List.filter_app. Qed.

Lemma within_same e e' made made' :
  jobs e' = jobs e → queue e' = queue e → next_ref e' = next_ref e →
  (∀ r, made' r = made r) →
  within_attempts e made → within_attempts e' made'.
Proof.
  intros Hj Hq Hn Hm H r. specialize (H r). by rewrite Hj, Hq, Hn, Hm.
Qed.

Lemma occurrences_elem r l : r ∈ l → (1 ≤ occurrences r l)%nat.
Proof.
  intros (l1 & l2 & ->)%list_elem_of_split.
  rewrite occurrences_app, occurrences_cons, Nat.eqb_refl. lia.
Qed.

(** A dispatcher step keeps the bound, with its call counted. *)
Lemma process_queue_within e now done outcome made :
  within_attempts e made →
  within_attempts (_process_queue e now done outcome).1
    (λ r, (made r
           + length (calls_of r (_process_queue e now done outcome).2))%nat).
Proof.
  intros H. unfold _process_queue.
  destruct (processing e).
  { apply (within_same e _ made); try done; intros r0; cbn; lia. }
  cbn [_check_rate_limits]. destruct (negb _).
  { apply (within_same e _ made); try done; intros r0; cbn; lia. }
  unfold get_next_job. cbn [queue jobs with_sent_messages with_processing].
  destruct (pop_first _ _) as [[r rest]|] eqn:Hpop.
  2:{ apply (within_same e _ made); try done; intros r0; cbn; lia. }
  destruct (pop_first_split _ _ _ _ Hpop) as (pre & post & Hq & -> & Hel & _).
  set (e2 := with_queue (pre ++ post) _).
  unfold eligible in Hel.
  destruct (jobs e !! r) as [job|] eqn:Hjob; [|done].
  apply andb_true_iff in Hel as [_ Hatt]. apply Z.ltb_lt in Hatt.
  assert (Hj2 : jobs e2 !! r = Some job) by done.
  pose proof (send_retry e2 r job outcome done Hj2) as Hs.
  destruct (_send_notification e2 r outcome done) as [e3 success].
  cbn [fst snd] in *.
  set (e4 := if success then _ else _).
  assert (H4 : retry_step e2 e4 r).
  { subst e4. destruct success.
    - apply (retry_same e2 e2 e3 _ r); try done;
        unfold _record_notification; cbn [jobs with_stats];
        by destruct (jobs e3 !! r).
    - destruct Hs as (Hn & Ho & j & j' & Hj & Hj' & Hrest).
      apply (retry_trans e2 e3).
      + split; [done|]. split; [done|]. by exists j, j'.
      + by apply (requeue_job_retry _ _ j'). }
  clearbody e4. clear Hs.
  destruct H4 as (Hn & Ho & j & j' & Hj & Hj' & Hmax & Hmono & Hocc).
  rewrite Hj2 in Hj. injection Hj as <-.
  intros r'. cbn [jobs queue next_ref with_processing].
  unfold calls_of. cbn [List.filter call_ref].
  destruct (decide (r' = r)) as [->|Hne].
  - rewrite Nat.eqb_refl, Hj', Hn. cbn [length].
    specialize (H r). rewrite Hjob in H.
    destruct H as (Hlt & Hm3 & H0 & Hmade & Hsum).
    assert (Hin : (1 ≤ occurrences r (queue e))%nat).
    { apply occurrences_elem. rewrite Hq. apply elem_of_app. right. left. }
    assert (Hpop2 : occurrences r (queue e)
                    = S (occurrences r (queue e2))).
    { subst e2. cbn [queue with_queue]. rewrite Hq.
      rewrite !occurrences_app, occurrences_cons, Nat.eqb_refl. lia. }
    rewrite Hm3 in Hatt. specialize (Hsum Hatt).
    split; [done|]. split; [congruence|]. split; [lia|]. split; [lia|].
    intros _. lia.
  - destruct (Ho r' Hne) as [Hjr Hor]. rewrite Hjr, Hn.
    assert (Hneb : Nat.eqb r r' = false) by (apply Nat.eqb_neq; congruence).
    rewrite Hneb. cbn [length]. rewrite Nat.add_0_r, Hor.
    assert (Hsame : occurrences r' (queue e2) = occurrences r' (queue e)).
    { subst e2. cbn [queue with_queue]. rewrite Hq.
      rewrite !occurrences_app, occurrences_cons.
      apply Nat.eqb_neq in Hne. rewrite Hne. lia. }
    rewrite Hsame. apply (H r').
Qed.

Lemma create_loop_within tpl gift t p now made user_ids : ∀ e,
  within_attempts e made →
  within_attempts (create_loop e tpl user_ids gift t p now).1 made.
Proof.
  induction user_ids as [|u rest IH]; intros e H; [done|].
  rewrite FilterFacts.create_loop_cons.
  pose proof (FilterFacts.should_notify_frame e u gift t now) as Hfr.
  destruct (should_notify_user e u gift t now) as [e1 ok].
  cbn [fst] in Hfr. destruct Hfr as (Hj1 & Hn1 & Hq1 & _).
  assert (H1 : within_attempts e1 made) by by apply (within_same e _ made).
  destruct ok; [|by apply IH].
  unfold create_job, alloc. set (job := mkJob _ _ _ _ _ _ _ _ _ _ _).
  set (e2 := add_job _ _). specialize (IH e2).
  destruct (create_loop e2 tpl rest gift t p now) as [e3 ids].
  cbn [fst] in *. apply IH. intros r.
  pose proof (H1 r) as Hr. pose proof (H1 (next_ref e1)) as Hfresh.
  subst e2. rewrite occurrences_add_job.
  cbn [jobs next_ref queue add_job with_stats with_queue with_jobs
         with_next_ref].
  destruct (decide (r = next_ref e1)) as [->|Hne].
  - rewrite lookup_insert_eq, Nat.eqb_refl.
    destruct (jobs e1 !! next_ref e1); [lia|].
    destruct Hfresh as (_ & -> & ->). subst job. cbn. repeat split; lia.
  - rewrite lookup_insert_ne by done.
    apply Nat.eqb_neq in Hne. rewrite Hne, Nat.add_0_r.
    apply Nat.eqb_neq in Hne.
    destruct (jobs e1 !! r); [|destruct Hr as (? & ? & ?); repeat split; [lia|done|done]].
    destruct Hr as (? & ? & ? & ? & ?). repeat split; try done. lia.
Qed.

Lemma exec_within ops : ∀ e made,
  within_attempts e made →
  within_attempts (exec e ops).1
    (λ r, (made r + length (calls_of r (exec e ops).2))%nat).
Proof.
  induction ops as [|op ops IH]; intros e made H.
  - apply (within_same e _ made); try done; intros r0; cbn; lia.
  - cbn [exec].
    assert (H1 : within_attempts (exec_op e op).1
                   (λ r, (made r + length (calls_of r (exec_op e op).2))%nat)).
    { destruct op as [now done outcome|uids gift t p now]; cbn [exec_op].
      - by apply process_queue_within.
      - cbn [fst snd].
        assert (Hc : within_attempts
                       (create_notification e uids gift t p now).1 made).
        { unfold create_notification. destruct (templates t); [|done].
          by apply create_loop_within. }
        revert Hc. apply within_same; try done; intros r; cbn; lia. }
    destruct (exec_op e op) as [e1 calls1]. specialize (IH e1 _ H1).
    destruct (exec e1 ops) as [e2 calls2]. cbn [fst snd] in *.
    revert IH. apply within_same; try done.
    intros r. rewrite calls_of_app, length_app. lia.
Qed.

(** X24. Whatever the outcomes of the sends, the dispatcher passes one job
    object to [send_message] at most three times, the second requeue of a
    failed send notwithstanding. *)
Theorem job_sent_at_most_three_times users t0 ops r :
  (length (calls_of r (exec (init users t0) ops).2) ≤ 3)%nat.
Proof.
  assert (H0 : within_attempts (init users t0) (λ _, 0%nat)).
  { intros r'. unfold init, load_user_filters. cbn.
    rewrite lookup_empty. repeat split. lia. }
  pose proof (exec_within ops _ _ H0 r) as H. cbn beta in H.
  destruct (jobs (exec (init users t0) ops).1 !! r).
  - destruct H as (_ & _ & _ & H & _). lia.
  - destruct H as (_ & _ & H). lia.
Qed.
End RetryFacts.
